(** * McePlePass: pass formation and resource planning

    A shallow embedding of the planning half of [McePlePass.cpp] of the
    Ethos-N support library: the Direct/Winograd chooser [ConvAlgorithm],
    the block-config filter [FilterValidAndSortBlockConfigs], the strategy
    loop [ChooseAndSetupStrategy], the linear chain fuser
    [FindLinearWorkingNodes], the pass builder [CreateGreedily] with its
    fix-graph hints, and [GetWeightStripeSizeAndDepth].

    Conventions.
    - A [uint32_t] is a [Z]; every C++ arithmetic operation that can wrap is
      written with [wrap32].
    - A [Node*] is a [NodeId]; the graph is a store from ids to node records,
      so two pointers to the same node alias in the model as they do in the
      program.
    - Classes whose definition is not part of the translated file
      ([SramAllocator], [ShapeMultiplier], [StrategyFc], [std::sort],
      [SearchDependencies]) are collected in the record [Externals]. *)

From Stdlib Require Import ZArith Lia Bool List Sorted Permutation.
From stdpp Require Import base list.
Import ListNotations.

Local Open Scope Z_scope.

(** ** Unsigned 32-bit arithmetic *)

Definition UINT32_MAX : Z := 4294967295.

Definition wrap32 (x : Z) : Z := x mod 4294967296.

Definition mul32 (a b : Z) : Z := wrap32 (a * b).
Definition add32 (a b : Z) : Z := wrap32 (a + b).

(** [a / b] on [uint32_t]; the operands are already in range. *)
Definition div32 (a b : Z) : Z := a / b.

(** [a % b] on [uint32_t]. *)
Definition mod32 (a b : Z) : Z := a mod b.

Definition is_uint32 (x : Z) : Prop := 0 <= x <= UINT32_MAX.

(** Modelled from the spec: [utils::DivRoundUp] is declared in Utils.hpp,
    which is not part of the translated sources; the spec writes it as the
    ceiling of the quotient. *)
Definition DivRoundUp (numerator denominator : Z) : Z :=
  (numerator + denominator - 1) / denominator.

(** Modelled from the spec: [utils::RoundUpToNearestMultiple] (Utils.hpp),
    "rounded up to a multiple of" its second argument. *)
Definition RoundUpToNearestMultiple (num nearestMultiple : Z) : Z :=
  mul32 (DivRoundUp num nearestMultiple) nearestMultiple.

(** Modelled from the spec: [utils::Filter] (Utils.hpp) keeps, in order, the
    elements that satisfy the predicate. *)
Definition Filter {A : Type} (vec : list A) (pred : A -> bool) : list A :=
  List.filter pred vec.

(** ** Enumerations *)

Inductive CompilerMceAlgorithm := AlgNone | Winograd | Direct.
Inductive AlgorithmHint := HintNone | AllowWinograd | RequireDirect.
Inductive CompilerDataFormat := NONE | NHWC | NHWCB.
Inductive DataFormat := DF_NHWC | DF_NCHW | DF_HWIO | DF_NHWCB | DF_HWIM.
Inductive BufferLocation := LocNone | Dram | Sram.
Inductive LocationHint := PreferSram | RequireDram.
Inductive CompressionHint := PreferCompressed | RequiredUncompressed.
Inductive MceOperation := CONVOLUTION | DEPTHWISE_CONVOLUTION | FULLY_CONNECTED.
Inductive PleOperation :=
| INTERLEAVE_2X2_2_2 | MAXPOOL_2X2_2_2 | MAXPOOL_3X3_2_2 | MEAN_XY_8X8
| PASSTHROUGH | SIGMOID | OTHER_PLE.
Inductive Strategy :=
| STRATEGY_0 | STRATEGY_1 | STRATEGY_3 | STRATEGY_4 | STRATEGY_5
| STRATEGY_6 | STRATEGY_7 | STRATEGY_FC.

Definition alg_eqb (a b : CompilerMceAlgorithm) : bool :=
  match a, b with
  | AlgNone, AlgNone | Winograd, Winograd | Direct, Direct => true
  | _, _ => false
  end.

Definition alghint_eqb (a b : AlgorithmHint) : bool :=
  match a, b with
  | HintNone, HintNone | AllowWinograd, AllowWinograd
  | RequireDirect, RequireDirect => true
  | _, _ => false
  end.

Definition cdf_eqb (a b : CompilerDataFormat) : bool :=
  match a, b with
  | NONE, NONE | NHWC, NHWC | NHWCB, NHWCB => true
  | _, _ => false
  end.

Definition loc_eqb (a b : BufferLocation) : bool :=
  match a, b with
  | LocNone, LocNone | Dram, Dram | Sram, Sram => true
  | _, _ => false
  end.

Definition lochint_eqb (a b : LocationHint) : bool :=
  match a, b with
  | PreferSram, PreferSram | RequireDram, RequireDram => true
  | _, _ => false
  end.

Definition comphint_eqb (a b : CompressionHint) : bool :=
  match a, b with
  | PreferCompressed, PreferCompressed
  | RequiredUncompressed, RequiredUncompressed => true
  | _, _ => false
  end.

Definition mceop_eqb (a b : MceOperation) : bool :=
  match a, b with
  | CONVOLUTION, CONVOLUTION
  | DEPTHWISE_CONVOLUTION, DEPTHWISE_CONVOLUTION
  | FULLY_CONNECTED, FULLY_CONNECTED => true
  | _, _ => false
  end.

Definition pleop_eqb (a b : PleOperation) : bool :=
  match a, b with
  | INTERLEAVE_2X2_2_2, INTERLEAVE_2X2_2_2
  | MAXPOOL_2X2_2_2, MAXPOOL_2X2_2_2
  | MAXPOOL_3X3_2_2, MAXPOOL_3X3_2_2
  | MEAN_XY_8X8, MEAN_XY_8X8
  | PASSTHROUGH, PASSTHROUGH
  | SIGMOID, SIGMOID
  | OTHER_PLE, OTHER_PLE => true
  | _, _ => false
  end.

Definition strategy_eqb (a b : Strategy) : bool :=
  match a, b with
  | STRATEGY_0, STRATEGY_0 | STRATEGY_1, STRATEGY_1 | STRATEGY_3, STRATEGY_3
  | STRATEGY_4, STRATEGY_4 | STRATEGY_5, STRATEGY_5 | STRATEGY_6, STRATEGY_6
  | STRATEGY_7, STRATEGY_7 | STRATEGY_FC, STRATEGY_FC => true
  | _, _ => false
  end.

(** ** Shapes, block configs, capabilities *)

(** [TensorShape] is [std::array<uint32_t, 4>]. *)
Record TensorShape := mkShape { dim0 : Z; dim1 : Z; dim2 : Z; dim3 : Z }.

Definition set_dim0 (s : TensorShape) (v : Z) : TensorShape :=
  mkShape v (dim1 s) (dim2 s) (dim3 s).
Definition set_dim1 (s : TensorShape) (v : Z) : TensorShape :=
  mkShape (dim0 s) v (dim2 s) (dim3 s).

Record Stride := mkStride { m_X : Z; m_Y : Z }.

Definition stride_eqb (a b : Stride) : bool :=
  (m_X a =? m_X b) && (m_Y a =? m_Y b).

Record BlockConfig := mkBlock { m_BlockWidth : Z; m_BlockHeight : Z }.

Definition block_eqb (a b : BlockConfig) : bool :=
  (m_BlockWidth a =? m_BlockWidth b) && (m_BlockHeight a =? m_BlockHeight b).

(** The getters of [HardwareCapabilities] that the planner reads. *)
Record HardwareCapabilities := mkCaps {
  GetWideKernelSize : Z;
  GetOutputSizePerWinograd1D : Z;
  GetOutputSizePerWinograd2D : Z;
  GetMacsPerWinograd1D : Z;
  GetMacsPerWinograd2D : Z;
  GetTotalAccumulatorsPerEngine : Z;
  GetNumberOfSrams : Z;
  GetNumberOfOfm : Z
}.

(** ** ConvAlgorithm (lines 32-69) *)

Definition numMultsDirect (caps : HardwareCapabilities) (w h : Z) : Z :=
  if (w =? 1) || (h =? 1)
  then mul32 (mul32 (mul32 w h) (GetOutputSizePerWinograd2D caps))
             (GetOutputSizePerWinograd1D caps)
  else mul32 (mul32 (mul32 w h) (GetOutputSizePerWinograd2D caps))
             (GetOutputSizePerWinograd2D caps).

Definition numMultsWinograd (caps : HardwareCapabilities) (w h : Z) : Z :=
  let wideKernelSize := GetWideKernelSize caps in
  if (w =? 1) || (h =? 1)
  then mul32 (GetMacsPerWinograd1D caps) (DivRoundUp (mul32 w h) wideKernelSize)
  else mul32 (mul32 (GetMacsPerWinograd2D caps) (DivRoundUp w wideKernelSize))
             (DivRoundUp h wideKernelSize).

Definition ConvAlgorithm (caps : HardwareCapabilities) (w h : Z)
  : CompilerMceAlgorithm :=
  if numMultsWinograd caps w h <? numMultsDirect caps w h
  then Winograd
  else Direct.

(** ** The per-pass plan *)

Record SramAllocation := mkAllocation {
  offset : Z;
  stripeShape : TensorShape;
  tileSize : Z
}.

Record TensorConfig := mkTensorConfig {
  inputAllocation : SramAllocation;
  outputAllocation : SramAllocation;
  weightsAllocation : SramAllocation;
  pleAllocation : SramAllocation;
  blockWidth : Z;
  blockHeight : Z;
  strategy : Strategy
}.

(** ** Graph nodes

    [Node*] values are node identifiers.  The accessors of [Node] and of its
    subclasses are declared in headers outside the translated sources; each
    one the planner calls is a field here.  [dynamic_cast<T*>(node)] succeeds
    exactly when the node's kind is [T]. *)

Definition NodeId := nat.

Record TensorInfo := mkTensorInfo {
  m_Dimensions : TensorShape;
  m_DataFormat : DataFormat
}.

Section Nodes.

Variable ShapeMultiplier : Type.

Record MceOperationData := mkMce {
  mce_WeightsInfo : TensorInfo;
  mce_Operation : MceOperation;
  mce_Stride : Stride;
  mce_UpscaleFactor : Z;
  mce_AlgorithmHint : AlgorithmHint;
  mce_ShapeMultiplier : ShapeMultiplier;
  mce_Algorithm : CompilerMceAlgorithm;
  mce_FixGraphAlgorithmHint : AlgorithmHint
}.

Record FuseOnlyPleData := mkPle {
  ple_KernelOperation : PleOperation;
  ple_IsAgnosticToRequantisation : bool;
  ple_ShapeMultiplier : ShapeMultiplier
}.

Inductive NodeKind :=
| FormatConversionNode
| ExtractSubtensorNode
| MceOperationNode (mce : MceOperationData)
| McePostProcessOperationNode
| FuseOnlyPleOperationNode (ple : FuseOnlyPleData)
| RequantizeNode
| OtherNode.

Record Node := mkNode {
  m_Kind : NodeKind;
  m_Shape : TensorShape;
  m_Format : CompilerDataFormat;
  m_Location : BufferLocation;
  m_Compressed : bool;
  m_LocationHint : LocationHint;
  m_CompressionHint : CompressionHint;
  m_OutputSramOffset : Z;
  (** source node of input edge 0: [GetInput(0)->GetSource()] *)
  m_Input0 : NodeId;
  m_Pass : option nat;
  m_FixGraphConvertOutputTo : CompilerDataFormat;
  m_FixGraphLocationHint : LocationHint;
  m_FixGraphCompressionHint : CompressionHint
}.

(** The node store: every [Node*] the planner holds points to a node. *)
Definition Graph := NodeId -> Node.

Definition update (g : Graph) (id : NodeId) (n : Node) : Graph :=
  fun j => if Nat.eqb j id then n else g j.

(** *** Setters *)

Definition with_FixGraphConvertOutputTo (n : Node) (f : CompilerDataFormat) : Node :=
  mkNode (m_Kind n) (m_Shape n) (m_Format n) (m_Location n) (m_Compressed n)
         (m_LocationHint n) (m_CompressionHint n) (m_OutputSramOffset n)
         (m_Input0 n) (m_Pass n)
         f (m_FixGraphLocationHint n) (m_FixGraphCompressionHint n).

Definition with_FixGraphLocationHint (n : Node) (h : LocationHint) : Node :=
  mkNode (m_Kind n) (m_Shape n) (m_Format n) (m_Location n) (m_Compressed n)
         (m_LocationHint n) (m_CompressionHint n) (m_OutputSramOffset n)
         (m_Input0 n) (m_Pass n)
         (m_FixGraphConvertOutputTo n) h (m_FixGraphCompressionHint n).

Definition with_FixGraphCompressionHint (n : Node) (h : CompressionHint) : Node :=
  mkNode (m_Kind n) (m_Shape n) (m_Format n) (m_Location n) (m_Compressed n)
         (m_LocationHint n) (m_CompressionHint n) (m_OutputSramOffset n)
         (m_Input0 n) (m_Pass n)
         (m_FixGraphConvertOutputTo n) (m_FixGraphLocationHint n) h.

Definition with_Kind (n : Node) (k : NodeKind) : Node :=
  mkNode k (m_Shape n) (m_Format n) (m_Location n) (m_Compressed n)
         (m_LocationHint n) (m_CompressionHint n) (m_OutputSramOffset n)
         (m_Input0 n) (m_Pass n)
         (m_FixGraphConvertOutputTo n) (m_FixGraphLocationHint n)
         (m_FixGraphCompressionHint n).

Definition with_Pass (n : Node) (p : nat) : Node :=
  mkNode (m_Kind n) (m_Shape n) (m_Format n) (m_Location n) (m_Compressed n)
         (m_LocationHint n) (m_CompressionHint n) (m_OutputSramOffset n)
         (m_Input0 n) (Some p)
         (m_FixGraphConvertOutputTo n) (m_FixGraphLocationHint n)
         (m_FixGraphCompressionHint n).

Definition with_Output (n : Node) (sramOffset : Z) (loc : BufferLocation)
           (compressed : bool) : Node :=
  mkNode (m_Kind n) (m_Shape n) (m_Format n) loc compressed
         (m_LocationHint n) (m_CompressionHint n) sramOffset
         (m_Input0 n) (m_Pass n)
         (m_FixGraphConvertOutputTo n) (m_FixGraphLocationHint n)
         (m_FixGraphCompressionHint n).

Definition mce_with_FixGraphAlgorithmHint (d : MceOperationData)
           (h : AlgorithmHint) : MceOperationData :=
  mkMce (mce_WeightsInfo d) (mce_Operation d) (mce_Stride d)
        (mce_UpscaleFactor d) (mce_AlgorithmHint d) (mce_ShapeMultiplier d)
        (mce_Algorithm d) h.

Definition mce_with_Algorithm (d : MceOperationData)
           (a : CompilerMceAlgorithm) : MceOperationData :=
  mkMce (mce_WeightsInfo d) (mce_Operation d) (mce_Stride d)
        (mce_UpscaleFactor d) (mce_AlgorithmHint d) (mce_ShapeMultiplier d)
        a (mce_FixGraphAlgorithmHint d).

Definition SetFixGraphConvertOutputTo (g : Graph) (id : NodeId)
           (f : CompilerDataFormat) : Graph :=
  update g id (with_FixGraphConvertOutputTo (g id) f).

Definition SetFixGraphLocationHint (g : Graph) (id : NodeId)
           (h : LocationHint) : Graph :=
  update g id (with_FixGraphLocationHint (g id) h).

Definition SetFixGraphCompressionHint (g : Graph) (id : NodeId)
           (h : CompressionHint) : Graph :=
  update g id (with_FixGraphCompressionHint (g id) h).

(** [SetFixGraphAlgorithmHint] is a method of [MceOperationNode]; the node
    it is called on is always the captured MCE operation. *)
Definition SetFixGraphAlgorithmHint (g : Graph) (id : NodeId)
           (h : AlgorithmHint) : Graph :=
  match m_Kind (g id) with
  | MceOperationNode d =>
      update g id (with_Kind (g id)
                     (MceOperationNode (mce_with_FixGraphAlgorithmHint d h)))
  | _ => g
  end.

Definition SetAlgorithm (g : Graph) (id : NodeId)
           (a : CompilerMceAlgorithm) : Graph :=
  match m_Kind (g id) with
  | MceOperationNode d =>
      update g id (with_Kind (g id) (MceOperationNode (mce_with_Algorithm d a)))
  | _ => g
  end.

(** *** Accessors through input edge 0 *)

Definition GetInputLocation0 (g : Graph) (id : NodeId) : BufferLocation :=
  m_Location (g (m_Input0 (g id))).
Definition GetInputShape0 (g : Graph) (id : NodeId) : TensorShape :=
  m_Shape (g (m_Input0 (g id))).
Definition GetInputFormat0 (g : Graph) (id : NodeId) : CompilerDataFormat :=
  m_Format (g (m_Input0 (g id))).
Definition GetInputCompressed0 (g : Graph) (id : NodeId) : bool :=
  m_Compressed (g (m_Input0 (g id))).

(** *** Arguments of [IStrategy::TrySetup] other than the two it mutates *)

Record TrySetupArgs := mkArgs {
  arg_inputShape : TensorShape;
  arg_outputShape : TensorShape;
  arg_weightsFormat : DataFormat;
  arg_weightsShape : TensorShape;
  arg_blockConfig : BlockConfig;
  arg_capabilities : HardwareCapabilities;
  arg_shapeMultiplier : ShapeMultiplier;
  arg_inputStaticAndOffset : bool * Z;
  arg_algorithm : CompilerMceAlgorithm;
  arg_depthMax : Z
}.

End Nodes.

Arguments mce_WeightsInfo {ShapeMultiplier}.
Arguments mce_Operation {ShapeMultiplier}.
Arguments mce_Stride {ShapeMultiplier}.
Arguments mce_UpscaleFactor {ShapeMultiplier}.
Arguments mce_AlgorithmHint {ShapeMultiplier}.
Arguments mce_ShapeMultiplier {ShapeMultiplier}.
Arguments mce_Algorithm {ShapeMultiplier}.
Arguments mce_FixGraphAlgorithmHint {ShapeMultiplier}.
Arguments ple_KernelOperation {ShapeMultiplier}.
Arguments ple_IsAgnosticToRequantisation {ShapeMultiplier}.
Arguments ple_ShapeMultiplier {ShapeMultiplier}.
Arguments m_Kind {ShapeMultiplier}.
Arguments m_Shape {ShapeMultiplier}.
Arguments m_Format {ShapeMultiplier}.
Arguments m_Location {ShapeMultiplier}.
Arguments m_Compressed {ShapeMultiplier}.
Arguments m_LocationHint {ShapeMultiplier}.
Arguments m_CompressionHint {ShapeMultiplier}.
Arguments m_OutputSramOffset {ShapeMultiplier}.
Arguments m_Input0 {ShapeMultiplier}.
Arguments m_Pass {ShapeMultiplier}.
Arguments m_FixGraphConvertOutputTo {ShapeMultiplier}.
Arguments m_FixGraphLocationHint {ShapeMultiplier}.
Arguments m_FixGraphCompressionHint {ShapeMultiplier}.
Arguments MceOperationNode {ShapeMultiplier}.
Arguments FormatConversionNode {ShapeMultiplier}.
Arguments ExtractSubtensorNode {ShapeMultiplier}.
Arguments McePostProcessOperationNode {ShapeMultiplier}.
Arguments FuseOnlyPleOperationNode {ShapeMultiplier}.
Arguments RequantizeNode {ShapeMultiplier}.
Arguments OtherNode {ShapeMultiplier}.
Arguments mkNode {ShapeMultiplier}.
Arguments mkMce {ShapeMultiplier}.
Arguments mkPle {ShapeMultiplier}.
Arguments mkArgs {ShapeMultiplier}.
Arguments update {ShapeMultiplier}.
Arguments with_FixGraphConvertOutputTo {ShapeMultiplier}.
Arguments with_FixGraphLocationHint {ShapeMultiplier}.
Arguments with_FixGraphCompressionHint {ShapeMultiplier}.
Arguments with_Kind {ShapeMultiplier}.
Arguments with_Pass {ShapeMultiplier}.
Arguments with_Output {ShapeMultiplier}.
Arguments mce_with_FixGraphAlgorithmHint {ShapeMultiplier}.
Arguments mce_with_Algorithm {ShapeMultiplier}.
Arguments SetFixGraphConvertOutputTo {ShapeMultiplier}.
Arguments SetFixGraphLocationHint {ShapeMultiplier}.
Arguments SetFixGraphCompressionHint {ShapeMultiplier}.
Arguments SetFixGraphAlgorithmHint {ShapeMultiplier}.
Arguments SetAlgorithm {ShapeMultiplier}.
Arguments GetInputLocation0 {ShapeMultiplier}.
Arguments GetInputShape0 {ShapeMultiplier}.
Arguments GetInputFormat0 {ShapeMultiplier}.
Arguments GetInputCompressed0 {ShapeMultiplier}.

(** ** Collaborators defined outside the translated sources

    [IStrategy::TrySetup] receives the tensor config and the allocator by
    reference; the model returns the pair it leaves behind together with the
    boolean result. *)

Definition IStrategy (SramAllocator ShapeMultiplier : Type) : Type :=
  TensorConfig -> SramAllocator -> TrySetupArgs ShapeMultiplier ->
  bool * TensorConfig * SramAllocator.

Record Externals := mkExternals {
  SramAllocator : Type;
  (** [SramAllocator::Free(offset)] *)
  SramAllocator_Free : SramAllocator -> Z -> SramAllocator;
  (** the default-constructed allocator and tensor config held by a fresh
      [LinearNodesOutput] *)
  SramAllocator_default : SramAllocator;
  TensorConfig_default : TensorConfig;
  ShapeMultiplier : Type;
  g_IdentityShapeMultiplier : ShapeMultiplier;
  (** [operator*] on [utils::ShapeMultiplier] *)
  ShapeMultiplier_mul : ShapeMultiplier -> ShapeMultiplier -> ShapeMultiplier;
  (** the strategy object built by [new StrategyFc()] *)
  StrategyFc : IStrategy SramAllocator ShapeMultiplier;
  (** [std::sort(first, last, comp)] *)
  std_sort : (BlockConfig -> BlockConfig -> bool) ->
             list BlockConfig -> list BlockConfig;
  (** [SearchDependencies(node, pred)]: a node of the dependency cone of
      [node] that satisfies [pred], or [nullptr] *)
  SearchDependencies : Graph ShapeMultiplier -> NodeId ->
                       (Node ShapeMultiplier -> bool) -> option NodeId
}.

(** What the C++ standard promises of [std::sort]: when [comp] is a strict
    weak ordering, the result is a rearrangement of the input in which no
    later element is ordered before an earlier one. *)

Definition strict_weak_order {A : Type} (lt : A -> A -> bool) : Prop :=
  (forall a, lt a a = false) /\
  (forall a b c, lt a b = true -> lt b c = true -> lt a c = true) /\
  (forall a b c, lt a b = false -> lt b a = false ->
                 lt b c = false -> lt c b = false ->
                 lt a c = false /\ lt c a = false).

Definition sorted_by {A : Type} (lt : A -> A -> bool) (l : list A) : Prop :=
  StronglySorted (fun a b => lt b a = false) l.

Definition std_sort_contract
  (sort : (BlockConfig -> BlockConfig -> bool) ->
          list BlockConfig -> list BlockConfig) : Prop :=
  forall comp l, strict_weak_order comp ->
                 Permutation l (sort comp l) /\ sorted_by comp (sort comp l).

(** ** FilterValidAndSortBlockConfigs (lines 92-240) *)

(** The lambda [comp] of lines 123-180; it captures [outputShape],
    [weightsWidth] and [weightsHeight].  A block dimension of zero makes the
    C++ remainder undefined; [mod32] is total. *)
Definition comp (outputShape : TensorShape) (weightsWidth weightsHeight : Z)
           (blockConfig1 blockConfig2 : BlockConfig) : bool :=
  let blockWidth1 := m_BlockWidth blockConfig1 in
  let blockHeight1 := m_BlockHeight blockConfig1 in
  let blockWidth2 := m_BlockWidth blockConfig2 in
  let blockHeight2 := m_BlockHeight blockConfig2 in
  let outputFitsInBlock1 :=
    (dim1 outputShape <=? blockHeight1) && (dim2 outputShape <=? blockWidth1) in
  let outputFitsInBlock2 :=
    (dim1 outputShape <=? blockHeight2) && (dim2 outputShape <=? blockWidth2) in
  if outputFitsInBlock1 && outputFitsInBlock2 then
    let size1 := mul32 blockWidth1 blockHeight1 in
    let size2 := mul32 blockWidth2 blockHeight2 in
    size1 <? size2
  else if negb outputFitsInBlock1 && negb outputFitsInBlock2 then
    let remHeight1 := mod32 (dim1 outputShape) (m_BlockHeight blockConfig1) in
    let remWidth1 := mod32 (dim2 outputShape) (m_BlockWidth blockConfig1) in
    let remHeight2 := mod32 (dim1 outputShape) (m_BlockHeight blockConfig2) in
    let remWidth2 := mod32 (dim2 outputShape) (m_BlockWidth blockConfig2) in
    let rem1 := add32 remHeight1 remWidth1 in
    let rem2 := add32 remHeight2 remWidth2 in
    if rem1 =? rem2 then
      if weightsWidth >? weightsHeight then
        (blockWidth1 >? blockWidth2) ||
        ((blockWidth1 =? blockWidth2) && (blockHeight1 >? blockHeight2))
      else
        (blockHeight1 >? blockHeight2) ||
        ((blockHeight1 =? blockHeight2) && (blockWidth1 >? blockWidth2))
    else rem1 >? rem2
  else outputFitsInBlock1.

Definition FilterMaxSize (maxAllowedWxH : Z) (blockConfig : BlockConfig) : bool :=
  mul32 (m_BlockWidth blockConfig) (m_BlockHeight blockConfig) <=? maxAllowedWxH.

Definition FilterToSize (blockConfig : BlockConfig) (width height : Z) : bool :=
  block_eqb blockConfig (mkBlock width height).

(** [std::find(allowedConfigs.begin(), allowedConfigs.end(), blockConfig)
    != allowedConfigs.end()] *)
Definition FilterToSizes (blockConfig : BlockConfig)
           (allowedConfigs : list BlockConfig) : bool :=
  existsb (block_eqb blockConfig) allowedConfigs.

Section Planner.

Context (X : Externals).

Abbreviation Allocator := (SramAllocator X).
Abbreviation SM := (ShapeMultiplier X).
Abbreviation GraphX := (Graph (ShapeMultiplier X)).

Definition FilterValidAndSortBlockConfigs
           (mceOperation : MceOperationData SM)
           (pleOperation : option (FuseOnlyPleData SM))
           (allowedBlockConfigs : list BlockConfig)
           (capabilities : HardwareCapabilities)
           (outputShape : TensorShape)
           (algorithm : CompilerMceAlgorithm) : list BlockConfig :=
  let weightsWidth := dim1 (m_Dimensions (mce_WeightsInfo mceOperation)) in
  let weightsHeight := dim0 (m_Dimensions (mce_WeightsInfo mceOperation)) in
  let res := allowedBlockConfigs in
  let res :=
    if alg_eqb algorithm Winograd then
      let isWinograd2d := (weightsHeight >? 1) && (weightsWidth >? 1) in
      let maxAllowedWxH :=
        div32 (GetTotalAccumulatorsPerEngine capabilities)
              (if isWinograd2d then 4 else 2) in
      let res := Filter res (FilterMaxSize maxAllowedWxH) in
      std_sort X (comp outputShape weightsWidth weightsHeight) res
    else res in
  let res :=
    if mceop_eqb (mce_Operation mceOperation) FULLY_CONNECTED
    then Filter res (fun blockConfig => FilterToSize blockConfig 8 8)
    else res in
  match pleOperation with
  | Some ple =>
      let pleOp := ple_KernelOperation ple in
      if pleop_eqb pleOp INTERLEAVE_2X2_2_2 then
        Filter res (fun blockConfig => FilterToSize blockConfig 16 16)
      else if pleop_eqb pleOp MAXPOOL_2X2_2_2 then
        Filter res (fun blockConfig =>
                      FilterToSizes blockConfig
                        [mkBlock 16 16; mkBlock 32 8; mkBlock 8 8])
      else if pleop_eqb pleOp MEAN_XY_8X8 then
        Filter res (fun blockConfig => FilterToSize blockConfig 8 8)
      else if pleop_eqb pleOp MAXPOOL_3X3_2_2 then
        Filter res (fun blockConfig =>
                      FilterToSizes blockConfig [mkBlock 32 8; mkBlock 8 8])
      else res
  | None => res
  end.

(** ** GetValidStrategies (lines 242-252) *)

Definition GetValidStrategies (mceOperation : MceOperationData SM)
           (allowedStrategies : list (IStrategy Allocator SM))
  : list (IStrategy Allocator SM) :=
  if mceop_eqb (mce_Operation mceOperation) FULLY_CONNECTED
  then [StrategyFc X]
  else allowedStrategies.

(** ** ChooseAndSetupStrategy (lines 634-672)

    [tensorConfig] and [sramAllocator] are reference parameters: whatever a
    failed [TrySetup] leaves in them is what the next attempt starts
    from. *)

Fixpoint TryBlockConfigs (strategy : IStrategy Allocator SM)
         (mk : BlockConfig -> TrySetupArgs SM)
         (allowedBlockConfigs : list BlockConfig)
         (tensorConfig : TensorConfig) (sramAllocator : Allocator)
  : bool * TensorConfig * Allocator :=
  match allowedBlockConfigs with
  | [] => (false, tensorConfig, sramAllocator)
  | currBlockConfig :: rest =>
      match strategy tensorConfig sramAllocator (mk currBlockConfig) with
      | (true, tc, alloc) => (true, tc, alloc)
      | (false, tc, alloc) => TryBlockConfigs strategy mk rest tc alloc
      end
  end.

Fixpoint TryStrategies (allowedStrategies : list (IStrategy Allocator SM))
         (mk : BlockConfig -> TrySetupArgs SM)
         (allowedBlockConfigs : list BlockConfig)
         (tensorConfig : TensorConfig) (sramAllocator : Allocator)
  : bool * TensorConfig * Allocator :=
  match allowedStrategies with
  | [] => (false, tensorConfig, sramAllocator)
  | strategy :: rest =>
      match TryBlockConfigs strategy mk allowedBlockConfigs
                            tensorConfig sramAllocator with
      | (true, tc, alloc) => (true, tc, alloc)
      | (false, tc, alloc) => TryStrategies rest mk allowedBlockConfigs tc alloc
      end
  end.

Definition ChooseAndSetupStrategy
           (capabilities : HardwareCapabilities)
           (sramAllocator : Allocator)
           (allowedStrategies : list (IStrategy Allocator SM))
           (allowedBlockConfigs : list BlockConfig)
           (tensorConfig : TensorConfig)
           (inputShape outputShape : TensorShape)
           (weightsFormat : DataFormat)
           (weightsShape : TensorShape)
           (shapeMultiplier : SM)
           (inputStaticAndOffset : bool * Z)
           (algorithm : CompilerMceAlgorithm)
           (depthMax : Z)
  : bool * TensorConfig * Allocator :=
  TryStrategies allowedStrategies
    (fun currBlockConfig =>
       mkArgs inputShape outputShape weightsFormat weightsShape
              currBlockConfig capabilities shapeMultiplier
              inputStaticAndOffset algorithm depthMax)
    allowedBlockConfigs tensorConfig sramAllocator.

(** ** FindLinearWorkingNodes (lines 254-454) *)

Record LinearNodesOutput := mkLinearNodesOutput {
  m_WorkingNodes : list NodeId;
  m_MceOperation : option NodeId;
  m_StrategySelected : bool;
  m_TensorConfig : TensorConfig;
  m_SramAllocator : Allocator;
  m_RequiredOutputFormat : CompilerDataFormat;
  m_OutputLocation : BufferLocation;
  m_ValidBlockConfigs : list BlockConfig;
  m_Algorithm : CompilerMceAlgorithm
}.

(** Default member initialisers of [LinearNodesOutput]. *)
Definition LinearNodesOutput_default : LinearNodesOutput :=
  mkLinearNodesOutput [] None false (TensorConfig_default X)
                      (SramAllocator_default X) NONE LocNone [] AlgNone.

(** The local variables of the loop. *)
Record LoopState := mkLoopState {
  extractSubtensorNode : option NodeId;
  mceOperation : option (NodeId * MceOperationData SM);
  fuseOnlyPle : option (NodeId * FuseOnlyPleData SM);
  foundPostConversions : bool;
  foundRequantizes : bool;
  currentSetOfNodes : list NodeId;
  requiredOutputFormat : CompilerDataFormat;
  res : LinearNodesOutput
}.

Definition LoopState_init : LoopState :=
  mkLoopState None None None false false [] NONE LinearNodesOutput_default.

(** *** dynamic_cast *)

Definition is_FormatConversionNode (g : GraphX) (n : NodeId) : bool :=
  match m_Kind (g n) with FormatConversionNode => true | _ => false end.
Definition is_McePostProcessOperationNode (g : GraphX) (n : NodeId) : bool :=
  match m_Kind (g n) with McePostProcessOperationNode => true | _ => false end.
Definition is_RequantizeNode (g : GraphX) (n : NodeId) : bool :=
  match m_Kind (g n) with RequantizeNode => true | _ => false end.
Definition as_ExtractSubtensorNode (g : GraphX) (n : NodeId) : option NodeId :=
  match m_Kind (g n) with ExtractSubtensorNode => Some n | _ => None end.
Definition as_MceOperationNode (g : GraphX) (n : NodeId)
  : option (NodeId * MceOperationData SM) :=
  match m_Kind (g n) with MceOperationNode d => Some (n, d) | _ => None end.
Definition as_FuseOnlyPleOperationNode (g : GraphX) (n : NodeId)
  : option (NodeId * FuseOnlyPleData SM) :=
  match m_Kind (g n) with FuseOnlyPleOperationNode d => Some (n, d) | _ => None end.

Definition is_null {A : Type} (p : option A) : bool :=
  match p with None => true | Some _ => false end.
Definition not_null {A : Type} (p : option A) : bool := negb (is_null p).

(** [currentSetOfNodes.push_back(current)] *)
Definition push_back (st : LoopState) (current : NodeId) : LoopState :=
  mkLoopState (extractSubtensorNode st) (mceOperation st) (fuseOnlyPle st)
              (foundPostConversions st) (foundRequantizes st)
              (currentSetOfNodes st ++ [current])
              (requiredOutputFormat st) (res st).

Definition set_extractSubtensorNode (st : LoopState) (p : option NodeId) :=
  mkLoopState p (mceOperation st) (fuseOnlyPle st)
              (foundPostConversions st) (foundRequantizes st)
              (currentSetOfNodes st) (requiredOutputFormat st) (res st).
Definition set_mceOperation (st : LoopState) p :=
  mkLoopState (extractSubtensorNode st) p (fuseOnlyPle st)
              (foundPostConversions st) (foundRequantizes st)
              (currentSetOfNodes st) (requiredOutputFormat st) (res st).
Definition set_fuseOnlyPle (st : LoopState) p :=
  mkLoopState (extractSubtensorNode st) (mceOperation st) p
              (foundPostConversions st) (foundRequantizes st)
              (currentSetOfNodes st) (requiredOutputFormat st) (res st).
Definition set_foundPostConversions (st : LoopState) (b : bool) :=
  mkLoopState (extractSubtensorNode st) (mceOperation st) (fuseOnlyPle st)
              b (foundRequantizes st)
              (currentSetOfNodes st) (requiredOutputFormat st) (res st).
Definition set_foundRequantizes (st : LoopState) (b : bool) :=
  mkLoopState (extractSubtensorNode st) (mceOperation st) (fuseOnlyPle st)
              (foundPostConversions st) b
              (currentSetOfNodes st) (requiredOutputFormat st) (res st).
Definition set_analysis (st : LoopState) (f : CompilerDataFormat)
           (r : LinearNodesOutput) :=
  mkLoopState (extractSubtensorNode st) (mceOperation st) (fuseOnlyPle st)
              (foundPostConversions st) (foundRequantizes st)
              (currentSetOfNodes st) f r.

(** *** The admission chain (lines 273-339); [None] is [break]. *)
Definition Admit (g : GraphX) (st : LoopState) (current : NodeId)
  : option LoopState :=
  if is_null (mceOperation st) && is_FormatConversionNode g current then
    Some (push_back st current)
  else if is_null (mceOperation st) && is_null (extractSubtensorNode st) &&
          not_null (as_ExtractSubtensorNode g current) then
    Some (push_back
            (set_extractSubtensorNode st (as_ExtractSubtensorNode g current))
            current)
  else if is_null (mceOperation st) &&
          not_null (as_MceOperationNode g current) then
    Some (push_back (set_mceOperation st (as_MceOperationNode g current))
                    current)
  else if not_null (mceOperation st) && is_null (fuseOnlyPle st) &&
          negb (foundPostConversions st) &&
          is_McePostProcessOperationNode g current &&
          negb (foundRequantizes st) then
    Some (push_back st current)
  else if not_null (mceOperation st) && is_null (fuseOnlyPle st) &&
          negb (foundPostConversions st) &&
          not_null (as_FuseOnlyPleOperationNode g current) then
    Some (push_back (set_fuseOnlyPle st (as_FuseOnlyPleOperationNode g current))
                    current)
  else if not_null (mceOperation st) && is_RequantizeNode g current then
    match fuseOnlyPle st with
    | Some (_, ple) =>
        if ple_IsAgnosticToRequantisation ple
        then Some (push_back (set_foundRequantizes st true) current)
        else Some st
    | None => Some (push_back (set_foundRequantizes st true) current)
    end
  else if not_null (mceOperation st) && is_FormatConversionNode g current then
    let shouldMergeConversion :=
      cdf_eqb (requiredOutputFormat st) NONE ||
      cdf_eqb (m_Format (g current)) (requiredOutputFormat st) in
    if shouldMergeConversion
    then Some (push_back (set_foundPostConversions st true) current)
    else None
  else None.

(** *** Choice of the algorithm (lines 355-367) *)
Definition SelectAlgorithm (capabilities : HardwareCapabilities)
           (enableWinograd : bool) (mce : MceOperationData SM)
  : CompilerMceAlgorithm :=
  let weightsShape := m_Dimensions (mce_WeightsInfo mce) in
  if alghint_eqb (mce_AlgorithmHint mce) AllowWinograd && enableWinograd &&
     mceop_eqb (mce_Operation mce) CONVOLUTION &&
     stride_eqb (mce_Stride mce) (mkStride 1 1) &&
     (mce_UpscaleFactor mce =? 1)
  then ConvAlgorithm capabilities (dim0 weightsShape) (dim1 weightsShape)
  else Direct.

(** Lines 368-383: the weight shape handed to strategy selection. *)
Definition EffectiveWeightsShape (algorithm : CompilerMceAlgorithm)
           (weightsShape : TensorShape) : TensorShape :=
  if alg_eqb algorithm Winograd then
    let weightsShape :=
      if negb (dim0 weightsShape =? 1)
      then set_dim0 weightsShape (RoundUpToNearestMultiple (dim0 weightsShape) 3)
      else weightsShape in
    if negb (dim1 weightsShape =? 1)
    then set_dim1 weightsShape (RoundUpToNearestMultiple (dim1 weightsShape) 3)
    else weightsShape
  else weightsShape.

(** Lines 385-399. *)
Definition DepthMax (capabilities : HardwareCapabilities)
           (mce : MceOperationData SM)
           (fuseOnlyPle : option (NodeId * FuseOnlyPleData SM)) : Z :=
  match fuseOnlyPle with
  | Some (_, ple) =>
      if pleop_eqb (ple_KernelOperation ple) MAXPOOL_3X3_2_2 then
        if mceop_eqb (mce_Operation mce) DEPTHWISE_CONVOLUTION
        then GetNumberOfSrams capabilities
        else GetNumberOfOfm capabilities
      else UINT32_MAX
  | None => UINT32_MAX
  end.

(** Lines 416-427: the first [if / else if] after a successful selection. *)
Definition FormatFromStripes (tensorConfig : TensorConfig)
           (lastNode : Node SM) (mce : MceOperationData SM)
  : CompilerDataFormat :=
  if ((dim3 (stripeShape (outputAllocation tensorConfig)) <? dim3 (m_Shape lastNode)) ||
      (dim2 (stripeShape (outputAllocation tensorConfig)) <? dim2 (m_Shape lastNode))) &&
     negb (mceop_eqb (mce_Operation mce) FULLY_CONNECTED)
  then NHWCB
  else if mceop_eqb (mce_Operation mce) FULLY_CONNECTED
  then NHWC
  else NONE.

(** Lines 429-431: the condition of the second [if]. *)
Definition KeepOutputInSram (tensorConfig : TensorConfig)
           (lastNode : Node SM) : bool :=
  strategy_eqb (strategy tensorConfig) STRATEGY_3 &&
  cdf_eqb (m_Format lastNode) NHWCB &&
  negb (lochint_eqb (m_LocationHint lastNode) RequireDram).

(** Lines 413-440: required output format and output location. *)
Definition DeriveOutput (tensorConfig : TensorConfig)
           (lastNode : Node SM) (mce : MceOperationData SM)
  : CompilerDataFormat * BufferLocation :=
  let requiredOutputFormat := FormatFromStripes tensorConfig lastNode mce in
  if KeepOutputInSram tensorConfig lastNode
  then (NHWCB, Sram)
  else (requiredOutputFormat, Dram).

(** *** Analysis of the current set (lines 341-449)

    [front()] and [back()] are read only after an MCE operation has been
    pushed, so the set is not empty; the default of [hd] and [last] is never
    used. *)
Definition Analyse (g : GraphX) (sramAllocator : Allocator)
           (capabilities : HardwareCapabilities)
           (allowedStrategies : list (IStrategy Allocator SM))
           (allowedBlockConfigs : list BlockConfig)
           (enableWinograd : bool) (st : LoopState) : LoopState :=
  match mceOperation st with
  | None => set_analysis st NONE (res st)
  | Some (mceId, mce) =>
      let firstNode := List.hd mceId (currentSetOfNodes st) in
      let lastNode := List.last (currentSetOfNodes st) mceId in
      let inputStaticAndOffset :=
        (loc_eqb (GetInputLocation0 g firstNode) Sram,
         m_OutputSramOffset (g (m_Input0 (g firstNode)))) in
      let shapeMultiplier :=
        ShapeMultiplier_mul X (mce_ShapeMultiplier mce)
          (match fuseOnlyPle st with
           | Some (_, ple) => ple_ShapeMultiplier ple
           | None => g_IdentityShapeMultiplier X
           end) in
      let algorithm := SelectAlgorithm capabilities enableWinograd mce in
      let weightsShape :=
        EffectiveWeightsShape algorithm (m_Dimensions (mce_WeightsInfo mce)) in
      let depthMax := DepthMax capabilities mce (fuseOnlyPle st) in
      let validStrategies := GetValidStrategies mce allowedStrategies in
      let validBlockConfigs :=
        FilterValidAndSortBlockConfigs mce (option_map snd (fuseOnlyPle st))
          allowedBlockConfigs capabilities (m_Shape (g lastNode)) algorithm in
      let mceInputShape := GetInputShape0 g mceId in
      let '(strategySelected, tensorConfig, currentSramAllocator) :=
        ChooseAndSetupStrategy capabilities sramAllocator validStrategies
          validBlockConfigs (TensorConfig_default X) mceInputShape
          (m_Shape (g lastNode)) (m_DataFormat (mce_WeightsInfo mce))
          weightsShape shapeMultiplier inputStaticAndOffset algorithm depthMax in
      if strategySelected then
        let '(requiredOutputFormat, outputLocation) :=
          DeriveOutput tensorConfig (g lastNode) mce in
        set_analysis st requiredOutputFormat
          (mkLinearNodesOutput (currentSetOfNodes st) (Some mceId) true
             tensorConfig currentSramAllocator requiredOutputFormat
             outputLocation validBlockConfigs algorithm)
      else
        set_analysis st NONE
          (mkLinearNodesOutput (m_WorkingNodes (res st)) (Some mceId) false
             (m_TensorConfig (res st)) (m_SramAllocator (res st))
             (m_RequiredOutputFormat (res st)) (m_OutputLocation (res st))
             (m_ValidBlockConfigs (res st)) algorithm)
  end.

(** *** The loop (lines 271-452)

    [chain] lists the values [current] takes: [firstNode], then what
    [GetNextLinearNodeForInclusionInPass] returns for it, and so on until that
    returns [nullptr]. *)
Fixpoint Walk (g : GraphX) (sramAllocator : Allocator)
         (capabilities : HardwareCapabilities)
         (allowedStrategies : list (IStrategy Allocator SM))
         (allowedBlockConfigs : list BlockConfig)
         (enableWinograd : bool)
         (chain : list NodeId) (st : LoopState) : LoopState :=
  match chain with
  | [] => st
  | current :: rest =>
      match Admit g st current with
      | None => st
      | Some st' =>
          Walk g sramAllocator capabilities allowedStrategies
               allowedBlockConfigs enableWinograd rest
               (Analyse g sramAllocator capabilities allowedStrategies
                        allowedBlockConfigs enableWinograd st')
      end
  end.

Definition FindLinearWorkingNodes (g : GraphX) (chain : list NodeId)
           (sramAllocator : Allocator)
           (capabilities : HardwareCapabilities)
           (allowedStrategies : list (IStrategy Allocator SM))
           (allowedBlockConfigs : list BlockConfig)
           (enableWinograd : bool) : LinearNodesOutput :=
  res (Walk g sramAllocator capabilities allowedStrategies allowedBlockConfigs
            enableWinograd chain LoopState_init).

(** ** The pass object (constructor, lines 562-622)

    The record keeps the constructor's arguments.  The constructor stamps
    every node with the pass, writes offset, location and compression flag on
    the last node and the algorithm on the first MCE operation of [nodes].
    Its assertion on unexpected node kinds and the assertion of line 530 are
    on the committing path only and are not modelled. *)

Record McePlePass := mkMcePlePass {
  pass_Id : nat;
  pass_Nodes : list NodeId;
  pass_TensorConfig : TensorConfig;
  pass_OutputLocation : BufferLocation;
  pass_UseIntermediateCompression : bool;
  pass_Algorithm : CompilerMceAlgorithm;
  pass_SramOffset : Z
}.

Definition first_MceOperationNode (g : GraphX) (nodes : list NodeId)
  : option NodeId :=
  List.find (fun n => not_null (as_MceOperationNode g n)) nodes.

Definition McePlePass_new (g : GraphX) (id : nat) (nodes : list NodeId)
           (tensorConfig : TensorConfig) (outputLocation : BufferLocation)
           (useIntermediateCompression : bool)
           (algorithm : CompilerMceAlgorithm) (sramOffset : Z)
  : McePlePass * GraphX :=
  let g := fold_left (fun g node => update g node (with_Pass (g node) id))
                     nodes g in
  let g := match nodes with
           | [] => g
           | n :: _ =>
               let back := List.last nodes n in
               update g back (with_Output (g back) sramOffset outputLocation
                                          useIntermediateCompression)
           end in
  let g := match first_MceOperationNode g nodes with
           | Some m => SetAlgorithm g m algorithm
           | None => g
           end in
  (mkMcePlePass id nodes tensorConfig outputLocation
                useIntermediateCompression algorithm sramOffset, g).

(** ** CreateGreedily (lines 456-560)

    The result is the returned pointer ([None] for the empty
    [unique_ptr]), the caller's allocator after the call (it is passed by
    reference) and the graph after the call.  [chain] is the walk that
    starts at [firstNode].  [front()] and [back()] of the working nodes are
    read at lines 478 and 505 only when a selection has succeeded, hence on
    a non-empty vector (see [loop_invariant]). *)

(** [std::vector::empty()] *)
Definition is_nil {A : Type} (l : list A) : bool :=
  match l with [] => true | _ :: _ => false end.

Definition NodeInSramPredicate (node : Node SM) : bool :=
  loc_eqb (m_Location node) Sram.

Definition CreateGreedily (g : GraphX)
           (capabilities : HardwareCapabilities) (id : nat)
           (allowedStrategies : list (IStrategy Allocator SM))
           (allowedBlockConfigs : list BlockConfig)
           (enableIntermediateCompression enableWinograd : bool)
           (chain : list NodeId) (sramAllocator : Allocator)
  : option McePlePass * Allocator * GraphX :=
  let linearNodes :=
    FindLinearWorkingNodes g chain sramAllocator capabilities
                           allowedStrategies allowedBlockConfigs
                           enableWinograd in
  match m_MceOperation linearNodes with
  | None => (None, sramAllocator, g)
  | Some mceId =>
      let back := List.last (m_WorkingNodes linearNodes) mceId in
      let front := List.hd mceId (m_WorkingNodes linearNodes) in
      let firstNode := List.hd mceId chain in
      let tensorConfig := m_TensorConfig linearNodes in
      if negb (cdf_eqb (m_RequiredOutputFormat linearNodes) NONE) &&
         negb (cdf_eqb (m_Format (g back)) (m_RequiredOutputFormat linearNodes))
      then
        (None, sramAllocator,
         SetFixGraphConvertOutputTo g back (m_RequiredOutputFormat linearNodes))
      else if (is_nil (m_ValidBlockConfigs linearNodes) ||
               negb (m_StrategySelected linearNodes)) &&
              alg_eqb (m_Algorithm linearNodes) Winograd
      then
        (None, sramAllocator, SetFixGraphAlgorithmHint g mceId RequireDirect)
      else if negb (m_StrategySelected linearNodes) then
        match SearchDependencies X g mceId NodeInSramPredicate with
        | Some nodeToChange =>
            (None, sramAllocator,
             SetFixGraphLocationHint g nodeToChange RequireDram)
        | None => (None, sramAllocator, g)
        end
      else if (dim3 (stripeShape (inputAllocation tensorConfig)) <?
               dim3 (GetInputShape0 g front)) &&
              cdf_eqb (GetInputFormat0 g front) NHWC
      then
        (None, sramAllocator,
         SetFixGraphConvertOutputTo g (m_Input0 (g front)) NHWCB)
      else if is_nil (m_WorkingNodes linearNodes) then
        (None, sramAllocator, g)
      else if GetInputCompressed0 g front &&
              ((dim2 (stripeShape (inputAllocation tensorConfig)) <?
                dim2 (GetInputShape0 g front)) ||
               (dim3 (stripeShape (inputAllocation tensorConfig)) <?
                dim3 (GetInputShape0 g front)))
      then
        (None, sramAllocator,
         SetFixGraphCompressionHint g (m_Input0 (g front)) RequiredUncompressed)
      else
        let useIntermediateCompression :=
          enableIntermediateCompression &&
          comphint_eqb (m_CompressionHint (g back)) PreferCompressed &&
          cdf_eqb (m_Format (g back)) NHWCB &&
          loc_eqb (m_OutputLocation linearNodes) Dram &&
          (dim2 (stripeShape (outputAllocation tensorConfig)) >=?
           dim2 (m_Shape (g back))) &&
          (dim3 (stripeShape (outputAllocation tensorConfig)) >=?
           dim3 (m_Shape (g back))) in
        let sramAllocator := m_SramAllocator linearNodes in
        let sramAllocator :=
          SramAllocator_Free X sramAllocator
                             (offset (weightsAllocation tensorConfig)) in
        let sramAllocator :=
          SramAllocator_Free X sramAllocator
                             (offset (pleAllocation tensorConfig)) in
        let sramAllocator :=
          if negb (loc_eqb (GetInputLocation0 g firstNode) Sram)
          then SramAllocator_Free X sramAllocator
                                  (offset (inputAllocation tensorConfig))
          else sramAllocator in
        let sramAllocator :=
          if loc_eqb (m_OutputLocation linearNodes) Dram
          then SramAllocator_Free X sramAllocator
                                  (offset (outputAllocation tensorConfig))
          else sramAllocator in
        let sramOffset := offset (outputAllocation tensorConfig) in
        let '(result, g) :=
          McePlePass_new g id (m_WorkingNodes linearNodes) tensorConfig
                         (m_OutputLocation linearNodes)
                         useIntermediateCompression
                         (m_Algorithm linearNodes) sramOffset in
        (Some result, sramAllocator, g)
  end.

End Planner.

(** ** GetWeightStripeSizeAndDepth (lines 707-731)

    The function reads the weights info and stride of the pass's MCE
    operation and the weights allocation of its tensor config.  [assert(false)]
    is an assertion failure; a zero divisor is a fault of the division. *)

Inductive Outcome (A : Type) :=
| Returns (a : A)
| AssertionFailure
| DivisionByZero.
Arguments Returns {A}.
Arguments AssertionFailure {A}.
Arguments DivisionByZero {A}.

Definition df_eqb (a b : DataFormat) : bool :=
  match a, b with
  | DF_NHWC, DF_NHWC | DF_NCHW, DF_NCHW | DF_HWIO, DF_HWIO
  | DF_NHWCB, DF_NHWCB | DF_HWIM, DF_HWIM => true
  | _, _ => false
  end.

Definition GetWeightStripeSizeAndDepth {SM : Type}
           (m_MceOperation : MceOperationData SM)
           (m_TensorConfig : TensorConfig) : Outcome (Z * Z) :=
  let weightsInfo := mce_WeightsInfo m_MceOperation in
  let weightStripeSize := dim2 (stripeShape (weightsAllocation m_TensorConfig)) in
  if df_eqb (m_DataFormat weightsInfo) DF_HWIO then
    Returns (weightStripeSize,
             dim3 (stripeShape (weightsAllocation m_TensorConfig)))
  else if df_eqb (m_DataFormat weightsInfo) DF_HWIM then
    let divisor := mul32 (m_X (mce_Stride m_MceOperation))
                         (m_Y (mce_Stride m_MceOperation)) in
    if divisor =? 0 then DivisionByZero
    else
      Returns (weightStripeSize,
               div32 (mul32 (dim2 (stripeShape (weightsAllocation m_TensorConfig)))
                            (dim3 (stripeShape (weightsAllocation m_TensorConfig))))
                     divisor)
  else AssertionFailure.

(** ** The ranking key of [comp]

    [comp] compares two block configs lexicographically on this key: fitting
    configs first by area, the others by decreasing remainder sum and then by
    decreasing dimension along the longer kernel axis. *)

Definition fitsb (outputShape : TensorShape) (c : BlockConfig) : bool :=
  (dim1 outputShape <=? m_BlockHeight c) && (dim2 outputShape <=? m_BlockWidth c).

Definition block_area (c : BlockConfig) : Z :=
  mul32 (m_BlockWidth c) (m_BlockHeight c).

Definition remainder_sum (outputShape : TensorShape) (c : BlockConfig) : Z :=
  add32 (mod32 (dim1 outputShape) (m_BlockHeight c))
        (mod32 (dim2 outputShape) (m_BlockWidth c)).

Definition comp_key (outputShape : TensorShape) (weightsWidth weightsHeight : Z)
           (c : BlockConfig) : Z * Z * Z * Z :=
  if fitsb outputShape c then (0, block_area c, 0, 0)
  else if weightsWidth >? weightsHeight
       then (1, - remainder_sum outputShape c, - m_BlockWidth c, - m_BlockHeight c)
       else (1, - remainder_sum outputShape c, - m_BlockHeight c, - m_BlockWidth c).

Definition lex_lt (x y : Z * Z * Z * Z) : Prop :=
  let '(x1, x2, x3, x4) := x in
  let '(y1, y2, y3, y4) := y in
  x1 < y1 \/ (x1 = y1 /\ (x2 < y2 \/ (x2 = y2 /\ (x3 < y3 \/ (x3 = y3 /\ x4 < y4))))).

(** ** A reference implementation of [std::sort]: insertion sort *)

Fixpoint insert_by {A : Type} (lt : A -> A -> bool) (x : A) (l : list A) : list A :=
  match l with
  | [] => [x]
  | y :: l' => if lt x y then x :: y :: l' else y :: insert_by lt x l'
  end.

Fixpoint insertion_sort {A : Type} (lt : A -> A -> bool) (l : list A) : list A :=
  match l with
  | [] => []
  | x :: l' => insert_by lt x (insertion_sort lt l')
  end.

(** ** A concrete environment for the examples

    The allocator is the list of reserved offsets, [Free] removes one.  The
    fully-connected strategy accepts only an 8x8 block.  The dependency
    search follows input edge 0 for a bounded number of steps. *)

Definition zeroShape : TensorShape := mkShape 0 0 0 0.
Definition zeroAllocation : SramAllocation := mkAllocation 0 zeroShape 0.
Definition zeroTensorConfig : TensorConfig :=
  mkTensorConfig zeroAllocation zeroAllocation zeroAllocation zeroAllocation
                 0 0 STRATEGY_0.

Definition list_Free (a : list Z) (off : Z) : list Z :=
  List.filter (fun o => negb (o =? off)) a.

Definition planFor (s : Strategy) (args : TrySetupArgs unit)
           (outStripe : TensorShape) : TensorConfig :=
  mkTensorConfig
    (mkAllocation 0 (arg_inputShape _ args) 1)
    (mkAllocation 256 outStripe 1)
    (mkAllocation 512 (arg_weightsShape _ args) 1)
    (mkAllocation 768 zeroShape 1)
    (m_BlockWidth (arg_blockConfig _ args))
    (m_BlockHeight (arg_blockConfig _ args))
    s.

Definition test_StrategyFc : IStrategy (list Z) unit :=
  fun tc alloc args =>
    if block_eqb (arg_blockConfig _ args) (mkBlock 8 8)
    then (true, planFor STRATEGY_FC args (arg_outputShape _ args),
          0 :: 256 :: 512 :: 768 :: alloc)
    else (false, tc, alloc).

Fixpoint test_SearchDependencies (fuel : nat) (g : Graph unit) (n : NodeId)
         (pred : Node unit -> bool) : option NodeId :=
  match fuel with
  | O => None
  | S fuel' =>
      let source := m_Input0 (g n) in
      if pred (g source) then Some source
      else test_SearchDependencies fuel' g source pred
  end.

Definition TestExternals : Externals :=
  mkExternals (list Z) list_Free [] zeroTensorConfig
              unit tt (fun _ _ => tt)
              test_StrategyFc
              (@insertion_sort BlockConfig)
              (test_SearchDependencies 8).

(** A strategy that keeps the whole output in one stripe and succeeds when
    the output has at most [maxDepth] channels. *)
Definition strategy_upto (s : Strategy) (maxDepth : Z) : IStrategy (list Z) unit :=
  fun tc alloc args =>
    if dim3 (arg_outputShape _ args) <=? maxDepth
    then (true, planFor s args (arg_outputShape _ args),
          0 :: 256 :: 512 :: 768 :: alloc)
    else (false, tc, alloc).

Definition test_caps : HardwareCapabilities := mkCaps 3 2 2 4 16 1024 16 16.

Definition conv3x3 : MceOperationData unit :=
  mkMce (mkTensorInfo (mkShape 3 3 16 16) DF_HWIO) CONVOLUTION (mkStride 1 1) 1
        AllowWinograd tt AlgNone HintNone.

Definition conv3x3_direct : MceOperationData unit :=
  mkMce (mkTensorInfo (mkShape 3 3 16 16) DF_HWIO) CONVOLUTION (mkStride 1 1) 1
        HintNone tt AlgNone HintNone.

Definition fc_op : MceOperationData unit :=
  mkMce (mkTensorInfo (mkShape 1 1 64 16) DF_HWIO) FULLY_CONNECTED (mkStride 1 1) 1
        HintNone tt AlgNone HintNone.

Definition depthwise2x2 : MceOperationData unit :=
  mkMce (mkTensorInfo (mkShape 3 3 16 1) DF_HWIM) DEPTHWISE_CONVOLUTION
        (mkStride 2 2) 1 HintNone tt AlgNone HintNone.

Definition maxpool2x2 : FuseOnlyPleData unit := mkPle MAXPOOL_2X2_2_2 true tt.

Definition plainNode (k : NodeKind unit) (shape : TensorShape)
           (fmt : CompilerDataFormat) (loc : BufferLocation) (input : NodeId)
  : Node unit :=
  mkNode k shape fmt loc false PreferSram PreferCompressed 0 input None
         NONE PreferSram PreferCompressed.

Definition all_blocks : list BlockConfig :=
  [mkBlock 16 16; mkBlock 32 8; mkBlock 8 32; mkBlock 16 8; mkBlock 8 16; mkBlock 8 8].

(** * Specification-side definitions and example data *)

(** ** Multiplication counts *)

(** The two multiplication counts as the spec writes them, in the unsigned
    32-bit arithmetic of the planner.  [w] and [h] are the two kernel
    extents. *)
Definition one_dimensional (w h : Z) : Prop := w = 1 \/ h = 1.

Definition spec_direct_count (caps : HardwareCapabilities) (w h : Z) (oneD : bool) : Z :=
  if oneD
  then mul32 (mul32 (mul32 w h) (GetOutputSizePerWinograd2D caps))
             (GetOutputSizePerWinograd1D caps)
  else mul32 (mul32 (mul32 w h) (GetOutputSizePerWinograd2D caps))
             (GetOutputSizePerWinograd2D caps).

Definition spec_winograd_count (caps : HardwareCapabilities) (w h : Z) (oneD : bool) : Z :=
  if oneD
  then mul32 (GetMacsPerWinograd1D caps)
             (DivRoundUp (mul32 w h) (GetWideKernelSize caps))
  else mul32 (mul32 (GetMacsPerWinograd2D caps)
                    (DivRoundUp w (GetWideKernelSize caps)))
             (DivRoundUp h (GetWideKernelSize caps)).

Definition winograd_cheaper (caps : HardwareCapabilities) (w h : Z) : Prop :=
  (one_dimensional w h /\
   spec_winograd_count caps w h true < spec_direct_count caps w h true) \/
  (~ one_dimensional w h /\
   spec_winograd_count caps w h false < spec_direct_count caps w h false).

(** ** Legality and ranking of block configs *)

(** The FC and PLE allow-list of the spec as one predicate. *)
Definition allow_listb {SM : Type} (mce : MceOperationData SM)
           (ple : option (FuseOnlyPleData SM)) (c : BlockConfig) : bool :=
  (if mceop_eqb (mce_Operation mce) FULLY_CONNECTED
   then block_eqb c (mkBlock 8 8) else true) &&
  match ple with
  | Some p =>
      match ple_KernelOperation p with
      | INTERLEAVE_2X2_2_2 => block_eqb c (mkBlock 16 16)
      | MAXPOOL_2X2_2_2 =>
          existsb (block_eqb c) [mkBlock 16 16; mkBlock 32 8; mkBlock 8 8]
      | MEAN_XY_8X8 => block_eqb c (mkBlock 8 8)
      | MAXPOOL_3X3_2_2 => existsb (block_eqb c) [mkBlock 32 8; mkBlock 8 8]
      | _ => true
      end
  | None => true
  end.

Definition allow_list {SM : Type} (mce : MceOperationData SM)
           (ple : option (FuseOnlyPleData SM)) (c : BlockConfig) : Prop :=
  (mce_Operation mce = FULLY_CONNECTED -> c = mkBlock 8 8) /\
  (forall p, ple = Some p ->
     (ple_KernelOperation p = INTERLEAVE_2X2_2_2 -> c = mkBlock 16 16) /\
     (ple_KernelOperation p = MAXPOOL_2X2_2_2 ->
      In c [mkBlock 16 16; mkBlock 32 8; mkBlock 8 8]) /\
     (ple_KernelOperation p = MEAN_XY_8X8 -> c = mkBlock 8 8) /\
     (ple_KernelOperation p = MAXPOOL_3X3_2_2 ->
      In c [mkBlock 32 8; mkBlock 8 8])).

(** The Winograd accumulator cap of the spec. *)
Definition winograd_cap (caps : HardwareCapabilities)
           (weightsHeight weightsWidth : Z) (c : BlockConfig) : Prop :=
  (1 < weightsHeight /\ 1 < weightsWidth ->
   block_area c <= GetTotalAccumulatorsPerEngine caps / 4) /\
  (~ (1 < weightsHeight /\ 1 < weightsWidth) ->
   block_area c <= GetTotalAccumulatorsPerEngine caps / 2).

Definition fits (outputShape : TensorShape) (c : BlockConfig) : Prop :=
  dim1 outputShape <= m_BlockHeight c /\ dim2 outputShape <= m_BlockWidth c.

(** [a] may stand before [b] in the Winograd ranking. *)
Definition ranked_before (outputShape : TensorShape)
           (weightsWidth weightsHeight : Z) (a b : BlockConfig) : Prop :=
  (fits outputShape b -> fits outputShape a) /\
  (fits outputShape a -> fits outputShape b -> block_area a <= block_area b) /\
  (~ fits outputShape a -> ~ fits outputShape b ->
   remainder_sum outputShape b <= remainder_sum outputShape a) /\
  (~ fits outputShape a -> ~ fits outputShape b ->
   remainder_sum outputShape a = remainder_sum outputShape b ->
   (weightsHeight < weightsWidth -> m_BlockWidth b <= m_BlockWidth a) /\
   (~ weightsHeight < weightsWidth -> m_BlockHeight b <= m_BlockHeight a)).

(** The list after the Winograd stage (lines 107-183). *)
Definition winograd_stage (X : Externals)
           (mce : MceOperationData (ShapeMultiplier X))
           (allowed : list BlockConfig) (caps : HardwareCapabilities)
           (outputShape : TensorShape) (algorithm : CompilerMceAlgorithm)
  : list BlockConfig :=
  let weightsWidth := dim1 (m_Dimensions (mce_WeightsInfo mce)) in
  let weightsHeight := dim0 (m_Dimensions (mce_WeightsInfo mce)) in
  if alg_eqb algorithm Winograd then
    std_sort X (comp outputShape weightsWidth weightsHeight)
      (Filter allowed
         (FilterMaxSize
            (div32 (GetTotalAccumulatorsPerEngine caps)
                   (if (weightsHeight >? 1) && (weightsWidth >? 1) then 4 else 2))))
  else allowed.

(** ** Output format and location *)

Definition stripe_smaller {SM : Type} (tc : TensorConfig) (lastNode : Node SM) : Prop :=
  dim3 (stripeShape (outputAllocation tc)) < dim3 (m_Shape lastNode) \/
  dim2 (stripeShape (outputAllocation tc)) < dim2 (m_Shape lastNode).

Definition can_stay_in_sram {SM : Type} (tc : TensorConfig) (lastNode : Node SM) : Prop :=
  strategy tc = STRATEGY_3 /\
  m_Format lastNode = NHWCB /\
  m_LocationHint lastNode <> RequireDram.


(** The rule as one chain of alternatives, the way the spec words it. *)
Definition chained_output {SM : Type} (tc : TensorConfig) (lastNode : Node SM)
           (mce : MceOperationData SM)
  : CompilerDataFormat * BufferLocation :=
  if ((dim3 (stripeShape (outputAllocation tc)) <? dim3 (m_Shape lastNode)) ||
      (dim2 (stripeShape (outputAllocation tc)) <? dim2 (m_Shape lastNode))) &&
     negb (mceop_eqb (mce_Operation mce) FULLY_CONNECTED)
  then (NHWCB, Dram)
  else if mceop_eqb (mce_Operation mce) FULLY_CONNECTED
  then (NHWC, Dram)
  else if strategy_eqb (strategy tc) STRATEGY_3 &&
          cdf_eqb (m_Format lastNode) NHWCB &&
          negb (lochint_eqb (m_LocationHint lastNode) RequireDram)
  then (NHWCB, Sram)
  else (NONE, Dram).

(** ** Walks of the chain fuser *)

(** All of [chain] is admitted: the state after its last node, or [None]
    when the loop leaves by [break] inside [chain]. *)
Fixpoint WalkPrefix (X : Externals) (g : Graph (ShapeMultiplier X))
         (sramAllocator : SramAllocator X) (capabilities : HardwareCapabilities)
         (allowedStrategies : list (IStrategy (SramAllocator X) (ShapeMultiplier X)))
         (allowedBlockConfigs : list BlockConfig) (enableWinograd : bool)
         (chain : list NodeId) (st : LoopState X) : option (LoopState X) :=
  match chain with
  | [] => Some st
  | current :: rest =>
      match Admit X g st current with
      | None => None
      | Some st' =>
          WalkPrefix X g sramAllocator capabilities allowedStrategies
                     allowedBlockConfigs enableWinograd rest
                     (Analyse X g sramAllocator capabilities allowedStrategies
                              allowedBlockConfigs enableWinograd st')
      end
  end.

(** Every strategy selection attempted while walking [chain] from [st]
    fails. *)
Fixpoint later_attempts_fail (X : Externals) (g : Graph (ShapeMultiplier X))
         (sramAllocator : SramAllocator X) (capabilities : HardwareCapabilities)
         (allowedStrategies : list (IStrategy (SramAllocator X) (ShapeMultiplier X)))
         (allowedBlockConfigs : list BlockConfig) (enableWinograd : bool)
         (chain : list NodeId) (st : LoopState X) : Prop :=
  match chain with
  | [] => True
  | current :: rest =>
      match Admit X g st current with
      | None => True
      | Some st' =>
          let st'' := Analyse X g sramAllocator capabilities allowedStrategies
                              allowedBlockConfigs enableWinograd st' in
          m_StrategySelected X (res X st'') = false /\
          later_attempts_fail X g sramAllocator capabilities allowedStrategies
                              allowedBlockConfigs enableWinograd rest st''
      end
  end.

(** The fields that make up the running best: working nodes, allocator,
    tensor config, valid block configs, algorithm, required output format
    and output location. *)
Definition running_best (X : Externals) (r : LinearNodesOutput X) :=
  (m_WorkingNodes X r, m_SramAllocator X r, m_TensorConfig X r,
   m_ValidBlockConfigs X r, m_Algorithm X r, m_RequiredOutputFormat X r,
   m_OutputLocation X r).

(** Invariant of the loop: the captured MCE operation is in the current set
    and is an MCE node; a recorded success has a non-empty set of working
    nodes; at the end of an iteration a success flag means the working nodes
    are the current set. *)
Definition loop_invariant (X : Externals) (g : Graph (ShapeMultiplier X))
           (st : LoopState X) : Prop :=
  (forall id d, mceOperation X st = Some (id, d) ->
                currentSetOfNodes X st <> [] /\
                m_Kind (g id) = MceOperationNode d) /\
  (m_RequiredOutputFormat X (res X st) <> NONE ->
   m_WorkingNodes X (res X st) <> []) /\
  (forall id, m_MceOperation X (res X st) = Some id ->
              exists d, m_Kind (g id) = MceOperationNode d) /\
  (m_StrategySelected X (res X st) = true ->
   m_WorkingNodes X (res X st) = currentSetOfNodes X st /\
   m_WorkingNodes X (res X st) <> [] /\
   mceOperation X st <> None).

(** ** Example graphs *)

Definition interleave : FuseOnlyPleData unit := mkPle INTERLEAVE_2X2_2_2 false tt.

(** Node 0 produces the input (in DRAM), node 1 is a 3x3 convolution, node 2
    an Interleave PLE kernel fed by node 1, node 3 a requantize. *)
Definition graph_conv_ple : Graph unit :=
  fun id =>
    match id with
    | 0%nat => plainNode OtherNode (mkShape 1 16 16 16) NHWCB Dram 0%nat
    | 1%nat => plainNode (MceOperationNode conv3x3_direct) (mkShape 1 16 16 16)
                         NHWCB LocNone 0%nat
    | 2%nat => plainNode (FuseOnlyPleOperationNode interleave)
                         (mkShape 1 8 8 64) NHWCB LocNone 1%nat
    | 3%nat => plainNode RequantizeNode (mkShape 1 8 8 64) NHWCB LocNone 2%nat
    | _ => plainNode OtherNode zeroShape NHWCB LocNone 0%nat
    end.

(** The same graph with the input held in SRAM. *)
Definition graph_conv_ple_sram : Graph unit :=
  fun id =>
    match id with
    | 0%nat => plainNode OtherNode (mkShape 1 16 16 16) NHWCB Sram 0%nat
    | _ => graph_conv_ple id
    end.

(** Node 2 is a MaxPool 2x2 kernel, agnostic to requantisation. *)
Definition graph_conv_maxpool : Graph unit :=
  fun id =>
    match id with
    | 2%nat => plainNode (FuseOnlyPleOperationNode maxpool2x2)
                         (mkShape 1 8 8 16) NHWCB LocNone 1%nat
    | _ => graph_conv_ple id
    end.

Definition one_stripe : list (IStrategy (list Z) unit) :=
  [strategy_upto STRATEGY_1 64].

(** The loop state after the convolution has been admitted and analysed. *)
Definition state_after_conv : LoopState TestExternals :=
  Walk TestExternals graph_conv_ple [] test_caps one_stripe [mkBlock 8 8]
       false [1%nat] (LoopState_init TestExternals).

(** The loop state after the convolution has been admitted, before its
    analysis. *)
Definition state_conv_admitted : LoopState TestExternals :=
  push_back TestExternals
    (set_mceOperation TestExternals (LoopState_init TestExternals)
                      (Some (1%nat, conv3x3_direct)))
    1%nat.

(** Modelled from the spec: [StrategyFc] is not part of the translated
    sources; "every emitted FC pass has block {8,8} and strategy SFC", so a
    [TrySetup] of it that succeeds plans with strategy SFC. *)
Definition StrategyFc_contract (X : Externals) : Prop :=
  forall tc alloc args tc' alloc',
    StrategyFc X tc alloc args = (true, tc', alloc') ->
    strategy tc' = STRATEGY_FC.



(** ** Hints and frames *)

(** A node with its fix-graph hints blanked: what the planner never
    touches on a failed attempt. *)
Definition kind_sans_hint {SM : Type} (k : NodeKind SM) : NodeKind SM :=
  match k with
  | MceOperationNode d => MceOperationNode (mce_with_FixGraphAlgorithmHint d HintNone)
  | k => k
  end.

Definition sans_hints {SM : Type} (n : Node SM) : Node SM :=
  mkNode (kind_sans_hint (m_Kind n)) (m_Shape n) (m_Format n) (m_Location n)
         (m_Compressed n) (m_LocationHint n) (m_CompressionHint n)
         (m_OutputSramOffset n) (m_Input0 n) (m_Pass n)
         NONE PreferSram PreferCompressed.

(** One fix-graph hint has been set on one node of [g], giving [g']. *)
Definition hint_installed {SM : Type} (g g' : Graph SM) : Prop :=
  (exists id f, f <> NONE /\ g' = SetFixGraphConvertOutputTo g id f) \/
  (exists id d, m_Kind (g id) = MceOperationNode d /\
                g' = SetFixGraphAlgorithmHint g id RequireDirect) \/
  (exists id, g' = SetFixGraphLocationHint g id RequireDram) \/
  (exists id, g' = SetFixGraphCompressionHint g id RequiredUncompressed).

(** [g'] is [g] except for the hints of at most one node. *)
Definition one_node_hint_frame {SM : Type} (g g' : Graph SM) : Prop :=
  exists id,
    (forall j, j <> id -> g' j = g j) /\
    (forall j, sans_hints (g' j) = sans_hints (g j)).

(** ** Graphs of the spec's scenarios *)

(** The convolution allows Winograd. *)
Definition graph_winograd : Graph unit :=
  fun id =>
    match id with
    | 1%nat => plainNode (MceOperationNode conv3x3) (mkShape 1 16 16 16)
                         NHWCB LocNone 0%nat
    | _ => graph_conv_ple id
    end.

(** A strategy whose output stripe holds half of the channels. *)
Definition strategy_half_depth : IStrategy (list Z) unit :=
  fun tc alloc args =>
    (true,
     planFor STRATEGY_1 args
             (mkShape (dim0 (arg_outputShape _ args))
                      (dim1 (arg_outputShape _ args))
                      (dim2 (arg_outputShape _ args))
                      (dim3 (arg_outputShape _ args) / 2)),
     0 :: 256 :: 512 :: 768 :: alloc).

(** The convolution writes NHWC. *)
Definition graph_nhwc_tail : Graph unit :=
  fun id =>
    match id with
    | 1%nat => plainNode (MceOperationNode conv3x3_direct) (mkShape 1 16 16 16)
                         NHWC LocNone 0%nat
    | _ => graph_conv_ple id
    end.

(** * Further specification-side definitions *)

(** ** Strategy selection *)

(** A [TrySetup] that fails leaves the allocator it was given as it was,
    whatever it was called with; nothing is asked of the tensor config. *)
Definition pure_on_failure {A SM : Type} (strategy : IStrategy A SM) : Prop :=
  forall tc alloc args tc' alloc',
    strategy tc alloc args = (false, tc', alloc') -> alloc' = alloc.

(** [failed_attempts mk l tc alloc tc' alloc']: the [TrySetup] calls of [l],
    made in turn, each on the tensor config and allocator the call before it
    left behind, all fail; the first is made on [tc] and [alloc], the last
    leaves [tc'] and [alloc']. *)
Inductive failed_attempts {A SM : Type} (mk : BlockConfig -> TrySetupArgs SM)
  : list (IStrategy A SM * BlockConfig) -> TensorConfig -> A ->
    TensorConfig -> A -> Prop :=
| failed_nil : forall tc alloc, failed_attempts mk [] tc alloc tc alloc
| failed_cons : forall s b rest tc alloc tc1 alloc1 tc2 alloc2,
    s tc alloc (mk b) = (false, tc1, alloc1) ->
    failed_attempts mk rest tc1 alloc1 tc2 alloc2 ->
    failed_attempts mk ((s, b) :: rest) tc alloc tc2 alloc2.

(** The arguments [ChooseAndSetupStrategy] hands to [TrySetup] for one block
    config. *)
Definition setup_args {SM : Type} (capabilities : HardwareCapabilities)
           (inputShape outputShape : TensorShape) (weightsFormat : DataFormat)
           (weightsShape : TensorShape) (shapeMultiplier : SM)
           (inputStaticAndOffset : bool * Z) (algorithm : CompilerMceAlgorithm)
           (depthMax : Z) (currBlockConfig : BlockConfig) : TrySetupArgs SM :=
  mkArgs inputShape outputShape weightsFormat weightsShape currBlockConfig
         capabilities shapeMultiplier inputStaticAndOffset algorithm depthMax.

(** A strategy that never succeeds and leaves its arguments alone. *)
Definition strategy_never : IStrategy (list Z) unit :=
  fun tc alloc _ => (false, tc, alloc).

(** A strategy that never succeeds, leaves the allocator alone and writes
    its unfinished plan into the tensor config. *)
Definition strategy_scribble : IStrategy (list Z) unit :=
  fun tc alloc args => (false, planFor STRATEGY_7 args zeroShape, alloc).

(** ** The admission table of the chain fuser *)

(** [Admission X g st current st']: the loop admits [current] in state [st]
    and goes on in state [st'].  One constructor per way through the
    [if / else if] chain of lines 273-339 that does not [break]. *)
Inductive Admission (X : Externals) (g : Graph (ShapeMultiplier X))
          (st : LoopState X) (current : NodeId) : LoopState X -> Prop :=
| adm_pre_conversion :
    mceOperation X st = None ->
    m_Kind (g current) = FormatConversionNode ->
    Admission X g st current (push_back X st current)
| adm_extract_subtensor :
    mceOperation X st = None ->
    extractSubtensorNode X st = None ->
    m_Kind (g current) = ExtractSubtensorNode ->
    Admission X g st current
      (push_back X (set_extractSubtensorNode X st (Some current)) current)
| adm_mce_operation d :
    mceOperation X st = None ->
    m_Kind (g current) = MceOperationNode d ->
    Admission X g st current
      (push_back X (set_mceOperation X st (Some (current, d))) current)
| adm_post_process :
    mceOperation X st <> None ->
    fuseOnlyPle X st = None ->
    foundPostConversions X st = false ->
    foundRequantizes X st = false ->
    m_Kind (g current) = McePostProcessOperationNode ->
    Admission X g st current (push_back X st current)
| adm_fuse_only_ple p :
    mceOperation X st <> None ->
    fuseOnlyPle X st = None ->
    foundPostConversions X st = false ->
    m_Kind (g current) = FuseOnlyPleOperationNode p ->
    Admission X g st current
      (push_back X (set_fuseOnlyPle X st (Some (current, p))) current)
| adm_requantize :
    mceOperation X st <> None ->
    m_Kind (g current) = RequantizeNode ->
    (fuseOnlyPle X st = None \/
     exists id p, fuseOnlyPle X st = Some (id, p) /\
                  ple_IsAgnosticToRequantisation p = true) ->
    Admission X g st current
      (push_back X (set_foundRequantizes X st true) current)
| adm_requantize_skipped id p :
    mceOperation X st <> None ->
    m_Kind (g current) = RequantizeNode ->
    fuseOnlyPle X st = Some (id, p) ->
    ple_IsAgnosticToRequantisation p = false ->
    Admission X g st current st
| adm_post_conversion :
    mceOperation X st <> None ->
    m_Kind (g current) = FormatConversionNode ->
    (requiredOutputFormat X st = NONE \/
     m_Format (g current) = requiredOutputFormat X st) ->
    Admission X g st current
      (push_back X (set_foundPostConversions X st true) current).

(** ** What the loop keeps true *)

Definition is_MceOperationNode (X : Externals) (g : Graph (ShapeMultiplier X))
           (n : NodeId) : bool :=
  not_null (as_MceOperationNode X g n).
Definition is_FuseOnlyPleOperationNode (X : Externals)
           (g : Graph (ShapeMultiplier X)) (n : NodeId) : bool :=
  not_null (as_FuseOnlyPleOperationNode X g n).
Definition is_ExtractSubtensorNode (X : Externals)
           (g : Graph (ShapeMultiplier X)) (n : NodeId) : bool :=
  not_null (as_ExtractSubtensorNode X g n).

Definition captured {A B : Type} (p : option (A * B)) : list A :=
  match p with Some (a, _) => [a] | None => [] end.

Definition captured_id (p : option NodeId) : list NodeId :=
  match p with Some a => [a] | None => [] end.

(** The captured pointers are exactly the MCE, PLE and extract nodes of the
    current set. *)
Definition members_invariant (X : Externals) (g : Graph (ShapeMultiplier X))
           (st : LoopState X) : Prop :=
  List.filter (is_MceOperationNode X g) (currentSetOfNodes X st)
  = captured (mceOperation X st) /\
  List.filter (is_FuseOnlyPleOperationNode X g) (currentSetOfNodes X st)
  = captured (fuseOnlyPle X st) /\
  List.filter (is_ExtractSubtensorNode X g) (currentSetOfNodes X st)
  = captured_id (extractSubtensorNode X st) /\
  (forall id d, mceOperation X st = Some (id, d) ->
                m_Kind (g id) = MceOperationNode d) /\
  (forall id p, fuseOnlyPle X st = Some (id, p) ->
                m_Kind (g id) = FuseOnlyPleOperationNode p).

(** What the result record holds, in terms of the loop's locals. *)
Definition result_invariant (X : Externals) (g : Graph (ShapeMultiplier X))
           (caps : HardwareCapabilities) (blocks : list BlockConfig)
           (enableWinograd : bool) (st : LoopState X) : Prop :=
  (mceOperation X st = None -> res X st = LinearNodesOutput_default X) /\
  (forall id, m_MceOperation X (res X st) = Some id ->
              exists d, mceOperation X st = Some (id, d) /\
                        m_Algorithm X (res X st)
                        = SelectAlgorithm X caps enableWinograd d) /\
  (m_WorkingNodes X (res X st) <> [] ->
   exists id d,
     mceOperation X st = Some (id, d) /\
     m_WorkingNodes X (res X st) `prefix_of` currentSetOfNodes X st /\
     In id (m_WorkingNodes X (res X st)) /\
     (m_RequiredOutputFormat X (res X st), m_OutputLocation X (res X st))
     = DeriveOutput X (m_TensorConfig X (res X st))
                    (g (List.last (m_WorkingNodes X (res X st)) id)) d /\
     exists ple,
       m_ValidBlockConfigs X (res X st)
       = FilterValidAndSortBlockConfigs X d ple blocks caps
           (m_Shape (g (List.last (m_WorkingNodes X (res X st)) id)))
           (SelectAlgorithm X caps enableWinograd d)) /\
  (m_WorkingNodes X (res X st) = [] ->
   m_RequiredOutputFormat X (res X st) = NONE /\
   m_OutputLocation X (res X st) = LocNone /\
   m_ValidBlockConfigs X (res X st) = []).

(** Everything the loop keeps true at the end of an iteration. *)
Definition fuser_invariant (X : Externals) (g : Graph (ShapeMultiplier X))
           (caps : HardwareCapabilities) (blocks : list BlockConfig)
           (enableWinograd : bool) (st : LoopState X) : Prop :=
  members_invariant X g st /\
  result_invariant X g caps blocks enableWinograd st /\
  loop_invariant X g st /\
  (forall id d, mceOperation X st = Some (id, d) ->
                m_MceOperation X (res X st) = Some id).

(** A graph whose MCE operation is fully-connected. *)
Definition graph_fc : Graph unit :=
  fun id =>
    match id with
    | 1%nat => plainNode (MceOperationNode fc_op) (mkShape 1 1 1 16)
                         NHWC LocNone 0%nat
    | _ => graph_conv_ple id
    end.

(** ** Committed passes *)

Definition kind_sans_algorithm {SM : Type} (k : NodeKind SM) : NodeKind SM :=
  match k with
  | MceOperationNode d => MceOperationNode (mce_with_Algorithm d AlgNone)
  | k => k
  end.

(** A node with the fields a committed pass writes blanked: owning pass,
    location, compression flag, output SRAM offset and algorithm. *)
Definition sans_pass {SM : Type} (n : Node SM) : Node SM :=
  mkNode (kind_sans_algorithm (m_Kind n)) (m_Shape n) (m_Format n) LocNone
         false (m_LocationHint n) (m_CompressionHint n) 0 (m_Input0 n) None
         (m_FixGraphConvertOutputTo n) (m_FixGraphLocationHint n)
         (m_FixGraphCompressionHint n).

(** The pass committed for the convolution of [graph_conv_ple] alone,
    without and with intermediate compression. *)
Definition committed_conv_pass (useIntermediateCompression : bool) : McePlePass :=
  mkMcePlePass 7 [1%nat]
    (planFor STRATEGY_1
       (mkArgs (mkShape 1 16 16 16) (mkShape 1 16 16 16) DF_HWIO
               (mkShape 3 3 16 16) (mkBlock 8 8) test_caps tt
               (false, 0) Direct UINT32_MAX)
       (mkShape 1 16 16 16))
    Dram useIntermediateCompression Direct 256.

(** ** The constructor's classification of the nodes (lines 577-613)

    The members the constructor fills while it walks [nodes]; [None] is the
    failed assertion "Unexpected node type". *)

Record PassMembers := mkPassMembers {
  pm_PreConversionNodes : list NodeId;
  pm_ExtractSubtensorNode : option NodeId;
  pm_MceOperation : option NodeId;
  pm_McePostProcessOperations : list NodeId;
  pm_PleOperation : option NodeId;
  pm_PostConversionNodes : list NodeId;
  pm_RequantizeNodes : list NodeId
}.

(** The member initialisers of the constructor. *)
Definition PassMembers_init : PassMembers :=
  mkPassMembers [] None None [] None [] [].

(** One iteration of the loop over [nodes]. *)
Definition classify_node (X : Externals) (g : Graph (ShapeMultiplier X))
           (pm : PassMembers) (node : NodeId) : option PassMembers :=
  if is_FormatConversionNode X g node && is_null (pm_MceOperation pm) then
    Some (mkPassMembers (pm_PreConversionNodes pm ++ [node])
            (pm_ExtractSubtensorNode pm) (pm_MceOperation pm)
            (pm_McePostProcessOperations pm) (pm_PleOperation pm)
            (pm_PostConversionNodes pm) (pm_RequantizeNodes pm))
  else if is_ExtractSubtensorNode X g node &&
          is_null (pm_ExtractSubtensorNode pm) then
    Some (mkPassMembers (pm_PreConversionNodes pm)
            (Some node) (pm_MceOperation pm)
            (pm_McePostProcessOperations pm) (pm_PleOperation pm)
            (pm_PostConversionNodes pm) (pm_RequantizeNodes pm))
  else if is_MceOperationNode X g node && is_null (pm_MceOperation pm) then
    Some (mkPassMembers (pm_PreConversionNodes pm)
            (pm_ExtractSubtensorNode pm) (Some node)
            (pm_McePostProcessOperations pm) (pm_PleOperation pm)
            (pm_PostConversionNodes pm) (pm_RequantizeNodes pm))
  else if is_McePostProcessOperationNode X g node then
    Some (mkPassMembers (pm_PreConversionNodes pm)
            (pm_ExtractSubtensorNode pm) (pm_MceOperation pm)
            (pm_McePostProcessOperations pm ++ [node]) (pm_PleOperation pm)
            (pm_PostConversionNodes pm) (pm_RequantizeNodes pm))
  else if is_FuseOnlyPleOperationNode X g node then
    Some (mkPassMembers (pm_PreConversionNodes pm)
            (pm_ExtractSubtensorNode pm) (pm_MceOperation pm)
            (pm_McePostProcessOperations pm) (Some node)
            (pm_PostConversionNodes pm) (pm_RequantizeNodes pm))
  else if is_FormatConversionNode X g node then
    Some (mkPassMembers (pm_PreConversionNodes pm)
            (pm_ExtractSubtensorNode pm) (pm_MceOperation pm)
            (pm_McePostProcessOperations pm) (pm_PleOperation pm)
            (pm_PostConversionNodes pm ++ [node]) (pm_RequantizeNodes pm))
  else if is_RequantizeNode X g node then
    Some (mkPassMembers (pm_PreConversionNodes pm)
            (pm_ExtractSubtensorNode pm) (pm_MceOperation pm)
            (pm_McePostProcessOperations pm) (pm_PleOperation pm)
            (pm_PostConversionNodes pm) (pm_RequantizeNodes pm ++ [node]))
  else None.

(** The loop [for (auto node : nodes)] from members [pm]. *)
Fixpoint classify_nodes (X : Externals) (g : Graph (ShapeMultiplier X))
         (nodes : list NodeId) (pm : PassMembers) : option PassMembers :=
  match nodes with
  | [] => Some pm
  | node :: rest =>
      match classify_node X g pm node with
      | Some pm' => classify_nodes X g rest pm'
      | None => None
      end
  end.

Definition McePlePass_members (X : Externals) (g : Graph (ShapeMultiplier X))
           (nodes : list NodeId) : option PassMembers :=
  classify_nodes X g nodes PassMembers_init.

(** The constructor's members agree with the fuser's locals on the current
    set, and classify the working nodes without failing. *)
Definition classification_invariant (X : Externals)
           (g : Graph (ShapeMultiplier X)) (st : LoopState X) : Prop :=
  (exists pm,
      McePlePass_members X g (currentSetOfNodes X st) = Some pm /\
      pm_MceOperation pm = option_map fst (mceOperation X st) /\
      pm_ExtractSubtensorNode pm = extractSubtensorNode X st /\
      pm_PleOperation pm = option_map fst (fuseOnlyPle X st)) /\
  (exists pm,
      McePlePass_members X g (m_WorkingNodes X (res X st)) = Some pm /\
      (m_WorkingNodes X (res X st) <> [] ->
       pm_MceOperation pm = option_map fst (mceOperation X st) /\
       pm_MceOperation pm <> None)).

(** ** Weight shape written by [Generate] (lines 840-855)

    Under Winograd the assertion rejects HWIM weights; the first two extents
    are rounded up to a multiple of 3 unless they are 1 or already a
    multiple of 3. *)

Definition GenerateWeightsShape (algorithm : CompilerMceAlgorithm)
           (weightsInfo : TensorInfo) : Outcome TensorShape :=
  let weightsShape := m_Dimensions weightsInfo in
  if alg_eqb algorithm Winograd then
    if df_eqb (m_DataFormat weightsInfo) DF_HWIM then AssertionFailure
    else
      let weightsShape :=
        if negb (dim0 weightsShape =? 1) &&
           negb (mod32 (dim0 weightsShape) 3 =? 0)
        then set_dim0 weightsShape
                      (RoundUpToNearestMultiple (dim0 weightsShape) 3)
        else weightsShape in
      let weightsShape :=
        if negb (dim1 weightsShape =? 1) &&
           negb (mod32 (dim1 weightsShape) 3 =? 0)
        then set_dim1 weightsShape
                      (RoundUpToNearestMultiple (dim1 weightsShape) 3)
        else weightsShape in
      Returns weightsShape
  else Returns weightsShape.

(** ** MCE statistics (lines 996-1125)

    The further getters of [HardwareCapabilities] that the estimation
    reads. *)

Record EngineCapabilities := mkEngineCaps {
  GetIfmPerEngine : Z;
  GetOfmPerEngine : Z;
  GetNumberOfEngines : Z;
  GetMacUnitsPerEngine : Z;
  GetPatchShape : TensorShape
}.

(** [numMacsPerElemHW] of [GetMceCycleCountWinograd], lines 1020-1024. *)
Definition numMacsPerElemHW (caps : HardwareCapabilities)
           (weightsHeight weightsWidth : Z) : Z :=
  let wideKernelSize := GetWideKernelSize caps in
  if (weightsHeight =? 1) || (weightsWidth =? 1)
  then mul32 (GetMacsPerWinograd1D caps)
             (DivRoundUp (mul32 weightsWidth weightsHeight) wideKernelSize)
  else mul32 (mul32 (GetMacsPerWinograd2D caps)
                    (DivRoundUp weightsWidth wideKernelSize))
             (DivRoundUp weightsHeight wideKernelSize).

Definition GetMceCycleCountWinograd (caps : HardwareCapabilities)
           (engine : EngineCapabilities) (inputShape outputShape : TensorShape)
           (weightsHeight weightsWidth : Z) : Z :=
  let ifmConsumed := mul32 (GetIfmPerEngine engine) (GetNumberOfEngines engine) in
  let ofmProduced := mul32 (GetOfmPerEngine engine) (GetNumberOfEngines engine) in
  let winogradOutputH :=
    if weightsHeight =? 1 then GetOutputSizePerWinograd1D caps
    else GetOutputSizePerWinograd2D caps in
  let winogradOutputW :=
    if weightsWidth =? 1 then GetOutputSizePerWinograd1D caps
    else GetOutputSizePerWinograd2D caps in
  let numIfms := dim3 inputShape in
  let numOfms := dim3 outputShape in
  let numTotIfms := RoundUpToNearestMultiple numIfms ifmConsumed in
  let numWinogradOutputs :=
    mul32 (DivRoundUp (dim2 outputShape) winogradOutputW)
          (DivRoundUp (dim1 outputShape) winogradOutputH) in
  let numMacOps :=
    mul32 numWinogradOutputs (numMacsPerElemHW caps weightsHeight weightsWidth) in
  let numCyclesPerOfm :=
    div32 (mul32 numTotIfms numMacOps)
          (mul32 ifmConsumed (GetMacUnitsPerEngine engine)) in
  mul32 numCyclesPerOfm (DivRoundUp numOfms ofmProduced).

Definition GetMceCycleCountDirect {SM : Type} (engine : EngineCapabilities)
           (mceOperation : MceOperationData SM)
           (inputShape outputShape : TensorShape)
           (weightsHeight weightsWidth : Z) : Z :=
  let stride := mce_Stride mceOperation in
  let numKernelElements := mul32 weightsWidth weightsHeight in
  let ifmConsumed := mul32 (GetIfmPerEngine engine) (GetNumberOfEngines engine) in
  let ofmProduced := mul32 (GetOfmPerEngine engine) (GetNumberOfEngines engine) in
  let halfPatchH := dim1 (GetPatchShape engine) in
  let halfPatchW := DivRoundUp (dim2 (GetPatchShape engine)) 2 in
  let numActualIfms := div32 (dim3 inputShape) (mul32 (m_X stride) (m_Y stride)) in
  let depthwise := mceop_eqb (mce_Operation mceOperation) DEPTHWISE_CONVOLUTION in
  let numIfms := if depthwise then ifmConsumed else numActualIfms in
  let numOfms := if depthwise then numActualIfms else dim3 outputShape in
  let numTotIfms := RoundUpToNearestMultiple numIfms ifmConsumed in
  let numOutputElements :=
    mul32 (RoundUpToNearestMultiple (dim2 outputShape) halfPatchW)
          (RoundUpToNearestMultiple (dim1 outputShape) halfPatchH) in
  let numMacOps := mul32 numOutputElements numKernelElements in
  let numCyclesPerOfm :=
    div32 (mul32 numTotIfms numMacOps)
          (mul32 ifmConsumed (GetMacUnitsPerEngine engine)) in
  mul32 numCyclesPerOfm (DivRoundUp numOfms ofmProduced).

Definition GetMceCycleCount {SM : Type} (caps : HardwareCapabilities)
           (engine : EngineCapabilities) (mceOperation : MceOperationData SM)
           (inputShape outputShape : TensorShape)
           (weightsHeight weightsWidth : Z) : Z :=
  if alg_eqb (mce_Algorithm mceOperation) Winograd
  then GetMceCycleCountWinograd caps engine inputShape outputShape
                                weightsHeight weightsWidth
  else GetMceCycleCountDirect engine mceOperation inputShape outputShape
                              weightsHeight weightsWidth.

Definition GetNumOperations {SM : Type} (mceOperation : MceOperationData SM)
           (inputShape outputShape : TensorShape)
           (weightsHeight weightsWidth : Z) : Z :=
  let stride := mce_Stride mceOperation in
  let numKernelElements := mul32 weightsWidth weightsHeight in
  let numOpsPerElement := add32 numKernelElements numKernelElements in
  let numActualIfms :=
    DivRoundUp (dim3 inputShape) (mul32 (m_X stride) (m_Y stride)) in
  let numInputElements := mul32 (dim1 inputShape) (dim2 inputShape) in
  let numOpsPerIfm := mul32 numInputElements numOpsPerElement in
  let depthwise := mceop_eqb (mce_Operation mceOperation) DEPTHWISE_CONVOLUTION in
  let numIfms := if depthwise then 1 else numActualIfms in
  let numOfms := if depthwise then numActualIfms else dim3 outputShape in
  mul32 (mul32 numIfms numOpsPerIfm) numOfms.

Record MceStats := mkMceStats { m_CycleCount : Z; m_Operations : Z }.

Definition GetMceStats {SM : Type} (m_Capabilities : HardwareCapabilities)
           (engine : EngineCapabilities) (m_MceOperation : MceOperationData SM)
           (inputShape outputShape weightsShape : TensorShape) : MceStats :=
  let weightsHeight := dim0 weightsShape in
  let weightsWidth := dim1 weightsShape in
  mkMceStats
    (GetMceCycleCount m_Capabilities engine m_MceOperation inputShape
                      outputShape weightsHeight weightsWidth)
    (GetNumOperations m_MceOperation inputShape outputShape weightsHeight
                      weightsWidth).

(** ** Activation bounds of the Sigmoid kernel (lines 959-977)

    [absMax], [mult] and [shift] come out of floating-point code and are
    taken as given; the function is the integer part that follows: the
    fallback for [absMax == 0], the clamping in [int] and the casts to
    [uint8_t].  The [int] sums and differences are written in [Z]: they are
    the source's as long as neither leaves the range of [int].  The result
    is (activation min, activation max, multiplier, shift). *)

Definition INT16_MAX : Z := 32767.

Definition INT_MAX : Z := 2147483647.

Definition cast_uint8 (x : Z) : Z := x mod 256.

Definition SigmoidActivationBounds (activationMin activationMax : Z)
           (inputZeroPoint absMax mult shift : Z) : Z * Z * Z * Z :=
  let '(absMax, mult, shift) :=
    if absMax =? 0 then (1, INT16_MAX, 0) else (absMax, mult, shift) in
  let lowerBound := Z.max activationMin (inputZeroPoint - absMax) in
  let upperBound :=
    Z.max lowerBound (Z.min activationMax (inputZeroPoint + absMax)) in
  (cast_uint8 lowerBound, cast_uint8 upperBound, mult, shift).

Definition test_engine : EngineCapabilities :=
  mkEngineCaps 1 1 16 8 (mkShape 1 4 4 1).

(** * Properties *)

(** ** Equality tests *)

Lemma block_eqb_eq a b : block_eqb a b = true <-> a = b.
Proof.
  destruct a as [wa ha], b as [wb hb]; unfold block_eqb; simpl.
  rewrite andb_true_iff, !Z.eqb_eq. split.
  - intros [-> ->]; reflexivity.
  - intros H; injection H; auto.
Qed.

Lemma alg_eqb_eq a b : alg_eqb a b = true <-> a = b.
Proof. destruct a, b; simpl; split; congruence. Qed.

Lemma alghint_eqb_eq a b : alghint_eqb a b = true <-> a = b.
Proof. destruct a, b; simpl; split; congruence. Qed.

Lemma cdf_eqb_eq a b : cdf_eqb a b = true <-> a = b.
Proof. destruct a, b; simpl; split; congruence. Qed.

Lemma loc_eqb_eq a b : loc_eqb a b = true <-> a = b.
Proof. destruct a, b; simpl; split; congruence. Qed.

Lemma lochint_eqb_eq a b : lochint_eqb a b = true <-> a = b.
Proof. destruct a, b; simpl; split; congruence. Qed.

Lemma mceop_eqb_eq a b : mceop_eqb a b = true <-> a = b.
Proof. destruct a, b; simpl; split; congruence. Qed.

Lemma pleop_eqb_eq a b : pleop_eqb a b = true <-> a = b.
Proof. destruct a, b; simpl; split; congruence. Qed.

Lemma strategy_eqb_eq a b : strategy_eqb a b = true <-> a = b.
Proof. destruct a, b; simpl; split; congruence. Qed.

Lemma df_eqb_eq a b : df_eqb a b = true <-> a = b.
Proof. destruct a, b; simpl; split; congruence. Qed.

Lemma stride_eqb_eq a b : stride_eqb a b = true <-> a = b.
Proof.
  destruct a as [xa ya], b as [xb yb]; unfold stride_eqb; simpl.
  rewrite andb_true_iff, !Z.eqb_eq. split.
  - intros [-> ->]; reflexivity.
  - intros H; injection H; auto.
Qed.

(** ** Direct versus Winograd *)

Lemma one_dimensional_test w h :
  (w =? 1) || (h =? 1) = true <-> one_dimensional w h.
Proof.
  unfold one_dimensional. rewrite orb_true_iff, !Z.eqb_eq. reflexivity.
Qed.

Lemma ConvAlgorithm_Winograd caps w h :
  ConvAlgorithm caps w h = Winograd <-> winograd_cheaper caps w h.
Proof.
  unfold ConvAlgorithm, winograd_cheaper, numMultsWinograd, numMultsDirect,
    spec_winograd_count, spec_direct_count.
  pose proof (one_dimensional_test w h) as Hd.
  destruct ((w =? 1) || (h =? 1)) eqn:E.
  - assert (one_dimensional w h) as H1 by (apply Hd; reflexivity).
    destruct (Z.ltb_spec
                (mul32 (GetMacsPerWinograd1D caps)
                       (DivRoundUp (mul32 w h) (GetWideKernelSize caps)))
                (mul32 (mul32 (mul32 w h) (GetOutputSizePerWinograd2D caps))
                       (GetOutputSizePerWinograd1D caps))).
    + split; [intros _; left; split; assumption | reflexivity].
    + split; [discriminate | intros [[_ Hc] | [Hn _]]; [lia | contradiction]].
  - assert (~ one_dimensional w h) as H1
        by (intros Hc; apply Hd in Hc; discriminate).
    destruct (Z.ltb_spec
                (mul32 (mul32 (GetMacsPerWinograd2D caps)
                              (DivRoundUp w (GetWideKernelSize caps)))
                       (DivRoundUp h (GetWideKernelSize caps)))
                (mul32 (mul32 (mul32 w h) (GetOutputSizePerWinograd2D caps))
                       (GetOutputSizePerWinograd2D caps))).
    + split; [intros _; right; split; assumption | reflexivity].
    + split; [discriminate | intros [[Hn _] | [_ Hc]]; [contradiction | lia]].
Qed.

Lemma ConvAlgorithm_cases caps w h :
  ConvAlgorithm caps w h = Winograd \/ ConvAlgorithm caps w h = Direct.
Proof. unfold ConvAlgorithm. destruct (_ <? _); auto. Qed.

(** Without wrap-around the counts are the integer expressions of the
    spec. *)
Lemma wrap32_small x : is_uint32 x -> wrap32 x = x.
Proof. unfold is_uint32, UINT32_MAX, wrap32. intros H. apply Z.mod_small. lia. Qed.

Lemma spec_direct_count_exact caps w h :
  is_uint32 (w * h) ->
  is_uint32 (w * h * GetOutputSizePerWinograd2D caps) ->
  is_uint32 (w * h * GetOutputSizePerWinograd2D caps * GetOutputSizePerWinograd1D caps) ->
  is_uint32 (w * h * GetOutputSizePerWinograd2D caps * GetOutputSizePerWinograd2D caps) ->
  spec_direct_count caps w h true =
    w * h * GetOutputSizePerWinograd2D caps * GetOutputSizePerWinograd1D caps /\
  spec_direct_count caps w h false =
    w * h * GetOutputSizePerWinograd2D caps * GetOutputSizePerWinograd2D caps.
Proof.
  intros H1 H2 H3 H4. unfold spec_direct_count, mul32.
  rewrite (wrap32_small _ H1), (wrap32_small _ H2).
  rewrite (wrap32_small _ H3), (wrap32_small _ H4). split; reflexivity.
Qed.

Lemma spec_winograd_count_exact caps w h :
  is_uint32 (w * h) ->
  is_uint32 (GetMacsPerWinograd1D caps *
             DivRoundUp (w * h) (GetWideKernelSize caps)) ->
  is_uint32 (GetMacsPerWinograd2D caps * DivRoundUp w (GetWideKernelSize caps)) ->
  is_uint32 (GetMacsPerWinograd2D caps * DivRoundUp w (GetWideKernelSize caps) *
             DivRoundUp h (GetWideKernelSize caps)) ->
  spec_winograd_count caps w h true =
    GetMacsPerWinograd1D caps * DivRoundUp (w * h) (GetWideKernelSize caps) /\
  spec_winograd_count caps w h false =
    GetMacsPerWinograd2D caps * DivRoundUp w (GetWideKernelSize caps) *
    DivRoundUp h (GetWideKernelSize caps).
Proof.
  intros H1 H2 H3 H4. unfold spec_winograd_count, mul32.
  rewrite (wrap32_small _ H1), (wrap32_small _ H2).
  rewrite (wrap32_small _ H3), (wrap32_small _ H4). split; reflexivity.
Qed.

Lemma DivRoundUp_ceiling n d :
  0 < d -> 0 <= n ->
  d * (DivRoundUp n d - 1) < n <= d * DivRoundUp n d.
Proof.
  intros Hd Hn. unfold DivRoundUp.
  pose proof (Z.div_mod (n + d - 1) d) as Hdm.
  pose proof (Z.mod_pos_bound (n + d - 1) d Hd) as Hb.
  assert (d <> 0) as Hne by lia. specialize (Hdm Hne). lia.
Qed.

(** C3. For every MCE node, Winograd is chosen if and only if the node's
    algorithm hint allows Winograd, Winograd is globally enabled, the
    operation is plain convolution, the stride is (1,1), the upscale factor
    is 1 and the Winograd multiplication count (1-D: M1*ceil(w*h/K); 2-D:
    M2*ceil(w/K)*ceil(h/K)) is strictly less than the direct count (1-D:
    w*h*S2*S1; 2-D: w*h*S2*S2), the counts being taken in the planner's
    unsigned 32-bit arithmetic; in every other case Direct is chosen. *)
Theorem SelectAlgorithm_Winograd_iff :
  forall (X : Externals) (caps : HardwareCapabilities) (enableWinograd : bool)
         (mce : MceOperationData (ShapeMultiplier X)),
    let w := dim0 (m_Dimensions (mce_WeightsInfo mce)) in
    let h := dim1 (m_Dimensions (mce_WeightsInfo mce)) in
    let chosen :=
      mce_AlgorithmHint mce = AllowWinograd /\
      enableWinograd = true /\
      mce_Operation mce = CONVOLUTION /\
      mce_Stride mce = mkStride 1 1 /\
      mce_UpscaleFactor mce = 1 /\
      winograd_cheaper caps w h in
    (SelectAlgorithm X caps enableWinograd mce = Winograd <-> chosen) /\
    (SelectAlgorithm X caps enableWinograd mce = Direct <-> ~ chosen).
Proof.
  intros X caps enableWinograd mce w h chosen.
  assert (SelectAlgorithm X caps enableWinograd mce = Winograd <-> chosen) as Hw.
  { unfold SelectAlgorithm, chosen. fold w h.
    destruct (alghint_eqb (mce_AlgorithmHint mce) AllowWinograd &&
              enableWinograd &&
              mceop_eqb (mce_Operation mce) CONVOLUTION &&
              stride_eqb (mce_Stride mce) (mkStride 1 1) &&
              (mce_UpscaleFactor mce =? 1)) eqn:E.
    - rewrite !andb_true_iff in E.
      destruct E as [[[[E1 E2] E3] E4] E5].
      apply alghint_eqb_eq in E1. apply mceop_eqb_eq in E3.
      apply stride_eqb_eq in E4. apply Z.eqb_eq in E5.
      rewrite ConvAlgorithm_Winograd. tauto.
    - split; [discriminate |].
      intros (G1 & G2 & G3 & G4 & G5 & _). exfalso.
      apply alghint_eqb_eq in G1. apply mceop_eqb_eq in G3.
      apply stride_eqb_eq in G4. apply Z.eqb_eq in G5.
      rewrite G1, G2, G3, G4, G5 in E. discriminate. }
  split; [exact Hw |].
  assert (SelectAlgorithm X caps enableWinograd mce = Winograd \/
          SelectAlgorithm X caps enableWinograd mce = Direct) as Hc.
  { unfold SelectAlgorithm. destruct (_ && _); [apply ConvAlgorithm_cases | auto]. }
  split.
  - intros Hd Hg. apply Hw in Hg. congruence.
  - intros Hn. destruct Hc as [Hc | Hc]; [apply Hw in Hc; contradiction | exact Hc].
Qed.

(** Scenario S1 of the spec: a 3x3 kernel costs 16 Winograd multiplications
    against 36 direct ones. *)
Example scenario_winograd_3x3 :
  numMultsDirect test_caps 3 3 = 36 /\
  numMultsWinograd test_caps 3 3 = 16 /\
  SelectAlgorithm TestExternals test_caps true conv3x3 = Winograd /\
  SelectAlgorithm TestExternals test_caps false conv3x3 = Direct /\
  EffectiveWeightsShape Winograd (mkShape 3 3 16 16) = mkShape 3 3 16 16 /\
  EffectiveWeightsShape Winograd (mkShape 1 5 16 16) = mkShape 1 6 16 16.
Proof. repeat split; reflexivity. Qed.

(** ** Weight stripe size and depth *)

(** C9. [GetWeightStripeSizeAndDepth] returns a depth of
    stripeShape[2]*stripeShape[3] / (strideX*strideY) for HWIM weights
    (in unsigned 32-bit arithmetic, the divisor being non-zero), of
    stripeShape[3] for HWIO weights, and fails its assertion for every other
    weight format. *)
Theorem GetWeightStripeSizeAndDepth_spec :
  forall (SM : Type) (mce : MceOperationData SM) (tc : TensorConfig),
    let s := stripeShape (weightsAllocation tc) in
    let d := mul32 (m_X (mce_Stride mce)) (m_Y (mce_Stride mce)) in
    GetWeightStripeSizeAndDepth mce tc =
    match m_DataFormat (mce_WeightsInfo mce) with
    | DF_HWIO => Returns (dim2 s, dim3 s)
    | DF_HWIM =>
        if d =? 0 then DivisionByZero
        else Returns (dim2 s, mul32 (dim2 s) (dim3 s) / d)
    | _ => AssertionFailure
    end.
Proof.
  intros SM mce tc s d. unfold GetWeightStripeSizeAndDepth.
  destruct (m_DataFormat (mce_WeightsInfo mce)); reflexivity.
Qed.

Example weight_stripe_depthwise :
  GetWeightStripeSizeAndDepth depthwise2x2
    (mkTensorConfig zeroAllocation zeroAllocation
       (mkAllocation 0 (mkShape 3 3 64 1) 1) zeroAllocation 16 16 STRATEGY_0)
  = Returns (64, 16).
Proof. reflexivity. Qed.

(** ** The comparator is a strict weak ordering *)

Lemma comp_lex_lt outputShape ww wh a b :
  comp outputShape ww wh a b = true <->
  lex_lt (comp_key outputShape ww wh a) (comp_key outputShape ww wh b).
Proof.
  unfold comp, comp_key, fitsb, block_area, remainder_sum, lex_lt.
  cbv zeta.
  generalize (mul32 (m_BlockWidth a) (m_BlockHeight a)).
  generalize (mul32 (m_BlockWidth b) (m_BlockHeight b)).
  generalize (add32 (mod32 (dim1 outputShape) (m_BlockHeight a))
                    (mod32 (dim2 outputShape) (m_BlockWidth a))).
  generalize (add32 (mod32 (dim1 outputShape) (m_BlockHeight b))
                    (mod32 (dim2 outputShape) (m_BlockWidth b))).
  intros rb ra sb sa.
  destruct ((dim1 outputShape <=? m_BlockHeight a) &&
            (dim2 outputShape <=? m_BlockWidth a));
    destruct ((dim1 outputShape <=? m_BlockHeight b) &&
              (dim2 outputShape <=? m_BlockWidth b)); simpl.
  - rewrite Z.ltb_lt. lia.
  - destruct (ww >? wh); (split; [lia | reflexivity]).
  - destruct (ww >? wh); (split; [discriminate | lia]).
  - rewrite !Z.gtb_ltb.
    destruct (Z.eqb_spec ra rb) as [Hr | Hr].
    + destruct (wh <? ww);
        rewrite orb_true_iff, andb_true_iff, !Z.ltb_lt, Z.eqb_eq; lia.
    + destruct (wh <? ww); rewrite Z.ltb_lt; lia.
Qed.

Lemma comp_false outputShape ww wh a b :
  comp outputShape ww wh a b = false <->
  ~ lex_lt (comp_key outputShape ww wh a) (comp_key outputShape ww wh b).
Proof.
  rewrite <- comp_lex_lt. destruct (comp outputShape ww wh a b); split;
    congruence.
Qed.

Lemma comp_strict_weak_order outputShape ww wh :
  strict_weak_order (comp outputShape ww wh).
Proof.
  unfold strict_weak_order. repeat split.
  - intros a. apply comp_false.
    destruct (comp_key outputShape ww wh a) as [[[a1 a2] a3] a4].
    unfold lex_lt. lia.
  - intros a b c. rewrite !comp_lex_lt.
    destruct (comp_key outputShape ww wh a) as [[[a1 a2] a3] a4].
    destruct (comp_key outputShape ww wh b) as [[[b1 b2] b3] b4].
    destruct (comp_key outputShape ww wh c) as [[[c1 c2] c3] c4].
    unfold lex_lt. lia.
  - revert H H0 H1 H2. rewrite !comp_false.
    destruct (comp_key outputShape ww wh a) as [[[a1 a2] a3] a4].
    destruct (comp_key outputShape ww wh b) as [[[b1 b2] b3] b4].
    destruct (comp_key outputShape ww wh c) as [[[c1 c2] c3] c4].
    unfold lex_lt. lia.
  - revert H H0 H1 H2. rewrite !comp_false.
    destruct (comp_key outputShape ww wh a) as [[[a1 a2] a3] a4].
    destruct (comp_key outputShape ww wh b) as [[[b1 b2] b3] b4].
    destruct (comp_key outputShape ww wh c) as [[[c1 c2] c3] c4].
    unfold lex_lt. lia.
Qed.

(** ** Insertion sort meets the contract of [std::sort] *)

Section InsertionSort.

Context {A : Type} (lt : A -> A -> bool).
Hypothesis lt_irrefl : forall a, lt a a = false.
Hypothesis lt_trans : forall a b c, lt a b = true -> lt b c = true -> lt a c = true.

Lemma lt_asym a b : lt a b = true -> lt b a = false.
Proof.
  intros H. destruct (lt b a) eqn:E; [| reflexivity].
  rewrite <- (lt_irrefl a). symmetry. eapply lt_trans; eassumption.
Qed.

Lemma insert_by_Permutation x l : Permutation (x :: l) (insert_by lt x l).
Proof.
  induction l as [| y l IH]; simpl.
  - apply Permutation_refl.
  - destruct (lt x y).
    + apply Permutation_refl.
    + eapply Permutation_trans; [apply perm_swap |].
      apply perm_skip. exact IH.
Qed.

Lemma insertion_sort_Permutation l : Permutation l (insertion_sort lt l).
Proof.
  induction l as [| x l IH]; simpl.
  - apply perm_nil.
  - eapply Permutation_trans; [apply perm_skip; exact IH |].
    apply insert_by_Permutation.
Qed.

Lemma insert_by_sorted x l : sorted_by lt l -> sorted_by lt (insert_by lt x l).
Proof.
  unfold sorted_by. induction l as [| y l IH]; simpl; intros Hs.
  - constructor; constructor.
  - apply StronglySorted_inv in Hs. destruct Hs as [Hs Hy].
    destruct (lt x y) eqn:E.
    + constructor.
      * constructor; assumption.
      * constructor; [apply lt_asym; exact E |].
        rewrite List.Forall_forall in Hy |- *. intros z Hz.
        specialize (Hy z Hz). simpl in Hy.
        destruct (lt z x) eqn:Ez; [| reflexivity].
        rewrite <- Hy. symmetry. eapply lt_trans; eassumption.
    + constructor; [apply IH; exact Hs |].
      rewrite List.Forall_forall in Hy |- *. intros z Hz.
      apply (Permutation_in z (Permutation_sym (insert_by_Permutation x l))) in Hz.
      destruct Hz as [<- | Hz]; [exact E | apply Hy; exact Hz].
Qed.

Lemma insertion_sort_sorted l : sorted_by lt (insertion_sort lt l).
Proof.
  induction l as [| x l IH]; simpl.
  - constructor.
  - apply insert_by_sorted. exact IH.
Qed.

End InsertionSort.

Lemma insertion_sort_contract : std_sort_contract (@insertion_sort BlockConfig).
Proof.
  intros cmp l (Hirr & Htr & _). split.
  - apply insertion_sort_Permutation.
  - apply insertion_sort_sorted; assumption.
Qed.

(** ** Lists: filtering and sortedness *)

Lemma Filter_In {A : Type} (p : A -> bool) (l : list A) (x : A) :
  In x (Filter l p) <-> In x l /\ p x = true.
Proof. unfold Filter. apply List.filter_In. Qed.

Lemma Filter_sublist {A : Type} (p : A -> bool) (l : list A) :
  sublist (Filter l p) l.
Proof.
  unfold Filter. induction l as [| x l IH]; simpl.
  - constructor.
  - destruct (p x); [apply sublist_skip | apply sublist_cons]; exact IH.
Qed.

Lemma Filter_StronglySorted {A : Type} (R : A -> A -> Prop) (p : A -> bool)
      (l : list A) :
  StronglySorted R l -> StronglySorted R (Filter l p).
Proof.
  unfold Filter. induction l as [| x l IH]; simpl; intros Hs.
  - constructor.
  - apply StronglySorted_inv in Hs. destruct Hs as [Hs Hx].
    destruct (p x); [| apply IH; exact Hs].
    constructor; [apply IH; exact Hs |].
    rewrite List.Forall_forall in Hx |- *. intros y Hy.
    apply List.filter_In in Hy. apply Hx. tauto.
Qed.

Lemma StronglySorted_lookup {A : Type} (R : A -> A -> Prop) (l : list A) :
  StronglySorted R l ->
  forall (i j : nat) (a b : A),
    (i < j)%nat -> l !! i = Some a -> l !! j = Some b -> R a b.
Proof.
  induction 1 as [| x l Hs IH Hx]; intros i j a b Hij Ha Hb.
  - destruct i; discriminate.
  - destruct j as [| j]; [lia |]. simpl in Hb.
    destruct i as [| i]; simpl in Ha.
    + injection Ha as <-. rewrite List.Forall_forall in Hx. apply Hx.
      apply list_elem_of_In. eapply list_elem_of_lookup_2. exact Hb.
    + apply (IH i j); [lia | assumption | assumption].
Qed.

(** ** The block-config filter *)

Lemma filter_filter_and {A : Type} (p q : A -> bool) (l : list A) :
  List.filter p (List.filter q l) = List.filter (fun x => q x && p x) l.
Proof.
  induction l as [| x l IH]; simpl; [reflexivity |].
  destruct (q x); simpl; [destruct (p x) |]; rewrite IH; reflexivity.
Qed.

Lemma filter_true {A : Type} (l : list A) : List.filter (fun _ => true) l = l.
Proof. induction l as [| x l IH]; simpl; [| rewrite IH]; reflexivity. Qed.

Lemma FilterValidAndSortBlockConfigs_stages X mce ple allowed caps out alg :
  FilterValidAndSortBlockConfigs X mce ple allowed caps out alg =
  List.filter (allow_listb mce ple) (winograd_stage X mce allowed caps out alg).
Proof.
  unfold FilterValidAndSortBlockConfigs, winograd_stage, allow_listb, Filter,
    FilterToSize, FilterToSizes.
  cbv zeta.
  set (stage := if alg_eqb alg Winograd then _ else allowed).
  destruct (mceop_eqb (mce_Operation mce) FULLY_CONNECTED);
    destruct ple as [p |];
    try destruct (ple_KernelOperation p); simpl pleop_eqb; cbv iota;
    rewrite ?filter_filter_and;
    apply List.filter_ext || (symmetry; apply filter_true) || idtac;
    try (intros c; rewrite ?andb_true_r; reflexivity).
Qed.

Lemma allow_listb_allow_list {SM : Type} (mce : MceOperationData SM) ple c :
  allow_listb mce ple c = true -> allow_list mce ple c.
Proof.
  unfold allow_listb, allow_list. rewrite andb_true_iff. intros [Hfc Hple].
  split.
  - intros Hop. rewrite Hop in Hfc. simpl in Hfc. apply block_eqb_eq. exact Hfc.
  - intros p ->.
    destruct (ple_KernelOperation p); repeat split; try discriminate; intros _;
      try (apply block_eqb_eq; exact Hple);
      apply existsb_exists in Hple; destruct Hple as (x & Hx & Heq);
      apply block_eqb_eq in Heq; subst x; exact Hx.
Qed.

Lemma winograd_stage_In X mce allowed caps out alg c :
  std_sort_contract (std_sort X) ->
  In c (winograd_stage X mce allowed caps out alg) ->
  In c allowed /\
  (alg = Winograd ->
   winograd_cap caps (dim0 (m_Dimensions (mce_WeightsInfo mce)))
                (dim1 (m_Dimensions (mce_WeightsInfo mce))) c).
Proof.
  intros Hsort. unfold winograd_stage. cbv zeta.
  destruct alg; simpl alg_eqb; cbv iota; intros Hin;
    try (split; [exact Hin | discriminate]).
  destruct (Hsort _ (Filter allowed
       (FilterMaxSize
          (div32 (GetTotalAccumulatorsPerEngine caps)
             (if (dim0 (m_Dimensions (mce_WeightsInfo mce)) >? 1) &&
                 (dim1 (m_Dimensions (mce_WeightsInfo mce)) >? 1)
              then 4 else 2))))
       (comp_strict_weak_order out (dim1 (m_Dimensions (mce_WeightsInfo mce)))
          (dim0 (m_Dimensions (mce_WeightsInfo mce))))) as [Hperm _].
  apply (Permutation_in c (Permutation_sym Hperm)) in Hin.
  apply Filter_In in Hin. destruct Hin as [Hin Hcap].
  split; [exact Hin | intros _].
  unfold FilterMaxSize, div32 in Hcap. apply Z.leb_le in Hcap.
  fold (block_area c) in Hcap. unfold winograd_cap.
  rewrite !Z.gtb_ltb in Hcap.
  destruct (Z.ltb_spec 1 (dim0 (m_Dimensions (mce_WeightsInfo mce))));
    destruct (Z.ltb_spec 1 (dim1 (m_Dimensions (mce_WeightsInfo mce))));
    simpl in Hcap; split; intros; (exact Hcap || lia).
Qed.

(** For block dimensions below 2^16 the area is the integer product. *)
Lemma block_area_exact c :
  0 <= m_BlockWidth c < 65536 -> 0 <= m_BlockHeight c < 65536 ->
  block_area c = m_BlockWidth c * m_BlockHeight c.
Proof.
  intros Hw Hh. unfold block_area, mul32. apply wrap32_small.
  unfold is_uint32, UINT32_MAX. nia.
Qed.

(** C4. Every block config returned by [FilterValidAndSortBlockConfigs] is
    an element of the allowed input list, satisfies, when the algorithm is
    Winograd, w*h <= totalAccumulators/4 for a 2-D kernel (both weight
    dimensions above 1) and w*h <= totalAccumulators/2 otherwise, and
    satisfies the FC and PLE allow-list. *)
Theorem FilterValidAndSortBlockConfigs_legal :
  forall (X : Externals)
         (mce : MceOperationData (ShapeMultiplier X))
         (ple : option (FuseOnlyPleData (ShapeMultiplier X)))
         (allowed : list BlockConfig) (caps : HardwareCapabilities)
         (outputShape : TensorShape) (algorithm : CompilerMceAlgorithm)
         (c : BlockConfig),
    std_sort_contract (std_sort X) ->
    In c (FilterValidAndSortBlockConfigs X mce ple allowed caps outputShape
                                         algorithm) ->
    In c allowed /\
    (algorithm = Winograd ->
     winograd_cap caps (dim0 (m_Dimensions (mce_WeightsInfo mce)))
                  (dim1 (m_Dimensions (mce_WeightsInfo mce))) c) /\
    allow_list mce ple c.
Proof.
  intros X mce ple allowed caps out alg c Hsort Hin.
  rewrite FilterValidAndSortBlockConfigs_stages in Hin.
  apply List.filter_In in Hin. destruct Hin as [Hin Hallow].
  destruct (winograd_stage_In X mce allowed caps out alg c Hsort Hin)
    as [Hall Hcap].
  split; [exact Hall |].
  split; [exact Hcap |].
  apply allow_listb_allow_list. exact Hallow.
Qed.

Lemma FilterValidAndSortBlockConfigs_legal_witness :
  In (mkBlock 8 8) all_blocks /\
  (Winograd = Winograd -> winograd_cap test_caps 3 3 (mkBlock 8 8)) /\
  allow_list conv3x3 (Some maxpool2x2) (mkBlock 8 8).
Proof.
  apply (FilterValidAndSortBlockConfigs_legal TestExternals conv3x3
           (Some maxpool2x2) all_blocks test_caps (mkShape 1 17 17 16)
           Winograd (mkBlock 8 8)).
  - exact insertion_sort_contract.
  - vm_compute. tauto.
Defined.

Lemma comp_false_ranked_before outputShape ww wh a b :
  comp outputShape ww wh b a = false -> ranked_before outputShape ww wh a b.
Proof.
  intros Hc. apply comp_false in Hc. revert Hc.
  unfold comp_key, lex_lt, fitsb, ranked_before, fits.
  rewrite Z.gtb_ltb.
  destruct (Z.leb_spec (dim1 outputShape) (m_BlockHeight a));
    destruct (Z.leb_spec (dim2 outputShape) (m_BlockWidth a));
    destruct (Z.leb_spec (dim1 outputShape) (m_BlockHeight b));
    destruct (Z.leb_spec (dim2 outputShape) (m_BlockWidth b));
    destruct (Z.ltb_spec wh ww); simpl; intros Hk; repeat split; intros; lia.
Qed.

(** C5. When the algorithm is Winograd, of any two configs in the returned
    list the earlier one is ranked before the later one: a config the output
    HxW fits in comes before one it does not fit in; among fitting configs
    the smaller block area comes first; among non-fitting configs the larger
    (H mod blockHeight) + (W mod blockWidth) comes first; and with equal
    remainder sums the larger width comes first if weightsWidth >
    weightsHeight, else the larger height. *)
Theorem FilterValidAndSortBlockConfigs_Winograd_ranked :
  forall (X : Externals)
         (mce : MceOperationData (ShapeMultiplier X))
         (ple : option (FuseOnlyPleData (ShapeMultiplier X)))
         (allowed : list BlockConfig) (caps : HardwareCapabilities)
         (outputShape : TensorShape) (i j : nat) (a b : BlockConfig),
    std_sort_contract (std_sort X) ->
    (i < j)%nat ->
    FilterValidAndSortBlockConfigs X mce ple allowed caps outputShape Winograd
      !! i = Some a ->
    FilterValidAndSortBlockConfigs X mce ple allowed caps outputShape Winograd
      !! j = Some b ->
    ranked_before outputShape
                  (dim1 (m_Dimensions (mce_WeightsInfo mce)))
                  (dim0 (m_Dimensions (mce_WeightsInfo mce))) a b.
Proof.
  intros X mce ple allowed caps out i j a b Hsort Hij Ha Hb.
  rewrite FilterValidAndSortBlockConfigs_stages in Ha, Hb.
  apply comp_false_ranked_before.
  refine (StronglySorted_lookup
            (fun x y => comp out (dim1 (m_Dimensions (mce_WeightsInfo mce)))
                             (dim0 (m_Dimensions (mce_WeightsInfo mce))) y x
                        = false)
            _ _ i j a b Hij Ha Hb).
  apply (Filter_StronglySorted _ (allow_listb mce ple)).
  unfold winograd_stage. simpl alg_eqb. cbv iota zeta.
  apply Hsort. apply comp_strict_weak_order.
Qed.

Lemma FilterValidAndSortBlockConfigs_Winograd_ranked_witness :
  ranked_before (mkShape 1 17 17 16) 3 3 (mkBlock 32 8) (mkBlock 16 16).
Proof.
  apply (FilterValidAndSortBlockConfigs_Winograd_ranked TestExternals conv3x3
           None all_blocks test_caps (mkShape 1 17 17 16) 1 2
           (mkBlock 32 8) (mkBlock 16 16)).
  - exact insertion_sort_contract.
  - lia.
  - reflexivity.
  - reflexivity.
Defined.

Example winograd_ranking_17x17 :
  FilterValidAndSortBlockConfigs TestExternals conv3x3 None all_blocks
    test_caps (mkShape 1 17 17 16) Winograd
  = [mkBlock 8 32; mkBlock 32 8; mkBlock 16 16; mkBlock 8 16; mkBlock 16 8;
     mkBlock 8 8].
Proof. reflexivity. Qed.

(** Scenario S3 of the spec: a fully-connected MCE keeps only 8x8. *)
Example scenario_fc_forces_8x8 :
  FilterValidAndSortBlockConfigs TestExternals fc_op None
    [mkBlock 8 8; mkBlock 16 16; mkBlock 32 8] test_caps (mkShape 1 1 1 16)
    Direct
  = [mkBlock 8 8].
Proof. reflexivity. Qed.

(** C10. The output of [FilterValidAndSortBlockConfigs] is a sub-multiset
    of the allowed input list; when the algorithm is Direct nothing is
    sorted: the output is the input filtered by the FC and PLE allow-list, a
    subsequence of the input in the caller's order. *)
Theorem FilterValidAndSortBlockConfigs_submseteq :
  forall (X : Externals)
         (mce : MceOperationData (ShapeMultiplier X))
         (ple : option (FuseOnlyPleData (ShapeMultiplier X)))
         (allowed : list BlockConfig) (caps : HardwareCapabilities)
         (outputShape : TensorShape) (algorithm : CompilerMceAlgorithm),
    std_sort_contract (std_sort X) ->
    FilterValidAndSortBlockConfigs X mce ple allowed caps outputShape algorithm
      ⊆+ allowed /\
    FilterValidAndSortBlockConfigs X mce ple allowed caps outputShape Direct
      = List.filter (allow_listb mce ple) allowed /\
    sublist (FilterValidAndSortBlockConfigs X mce ple allowed caps outputShape
                                            Direct) allowed.
Proof.
  intros X mce ple allowed caps out alg Hsort.
  rewrite !FilterValidAndSortBlockConfigs_stages.
  split; [| split].
  - transitivity (winograd_stage X mce allowed caps out alg).
    + apply sublist_submseteq. apply (Filter_sublist (allow_listb mce ple)).
    + unfold winograd_stage. cbv zeta.
      destruct (alg_eqb alg Winograd); [| reflexivity].
      match goal with
      | |- std_sort X ?c ?l ⊆+ _ =>
          transitivity l;
          [ apply Permutation_submseteq; symmetry;
            apply (Hsort c l); apply comp_strict_weak_order
          | apply sublist_submseteq; apply Filter_sublist ]
      end.
  - reflexivity.
  - apply (Filter_sublist (allow_listb mce ple)).
Qed.

Lemma FilterValidAndSortBlockConfigs_submseteq_witness :
  FilterValidAndSortBlockConfigs TestExternals conv3x3 (Some maxpool2x2)
    all_blocks test_caps (mkShape 1 17 17 16) Winograd ⊆+ all_blocks /\
  FilterValidAndSortBlockConfigs TestExternals conv3x3 (Some maxpool2x2)
    all_blocks test_caps (mkShape 1 17 17 16) Direct
    = List.filter (allow_listb conv3x3 (Some maxpool2x2)) all_blocks /\
  sublist (FilterValidAndSortBlockConfigs TestExternals conv3x3
             (Some maxpool2x2) all_blocks test_caps (mkShape 1 17 17 16)
             Direct) all_blocks.
Proof.
  apply (FilterValidAndSortBlockConfigs_submseteq TestExternals conv3x3
           (Some maxpool2x2) all_blocks test_caps (mkShape 1 17 17 16)
           Winograd).
  exact insertion_sort_contract.
Defined.

(** ** Required output format and output location *)

Lemma KeepOutputInSram_iff X tc (lastNode : Node (ShapeMultiplier X)) :
  KeepOutputInSram X tc lastNode = true <-> can_stay_in_sram tc lastNode.
Proof.
  unfold KeepOutputInSram, can_stay_in_sram.
  rewrite !andb_true_iff, negb_true_iff, strategy_eqb_eq, cdf_eqb_eq.
  split; intros [[H1 H2] H3] || intros (H1 & H2 & H3).
  - repeat split; try assumption. intros Hc. apply lochint_eqb_eq in Hc.
    congruence.
  - repeat split; try assumption.
    destruct (lochint_eqb (m_LocationHint lastNode) RequireDram) eqn:E;
      [apply lochint_eqb_eq in E; contradiction | reflexivity].
Qed.

Lemma FormatFromStripes_spec X tc (lastNode : Node (ShapeMultiplier X)) mce :
  (stripe_smaller tc lastNode /\ mce_Operation mce <> FULLY_CONNECTED ->
   FormatFromStripes X tc lastNode mce = NHWCB) /\
  (mce_Operation mce = FULLY_CONNECTED ->
   FormatFromStripes X tc lastNode mce = NHWC) /\
  (~ stripe_smaller tc lastNode /\ mce_Operation mce <> FULLY_CONNECTED ->
   FormatFromStripes X tc lastNode mce = NONE).
Proof.
  unfold FormatFromStripes, stripe_smaller.
  destruct (Z.ltb_spec (dim3 (stripeShape (outputAllocation tc)))
                       (dim3 (m_Shape lastNode)));
    destruct (Z.ltb_spec (dim2 (stripeShape (outputAllocation tc)))
                         (dim2 (m_Shape lastNode)));
    destruct (mce_Operation mce); simpl; repeat split;
    intros; try reflexivity; try congruence; try tauto; try lia.
Qed.


(** What one analysis does to the result record. *)
Lemma Analyse_no_mce X g alloc caps strategies blocks enableWinograd st :
  mceOperation X st = None ->
  res X (Analyse X g alloc caps strategies blocks enableWinograd st) = res X st.
Proof. intros H. unfold Analyse. rewrite H. reflexivity. Qed.

Lemma Analyse_locals X g alloc caps strategies blocks enableWinograd st :
  let st' := Analyse X g alloc caps strategies blocks enableWinograd st in
  extractSubtensorNode X st' = extractSubtensorNode X st /\
  mceOperation X st' = mceOperation X st /\
  fuseOnlyPle X st' = fuseOnlyPle X st /\
  foundPostConversions X st' = foundPostConversions X st /\
  foundRequantizes X st' = foundRequantizes X st /\
  currentSetOfNodes X st' = currentSetOfNodes X st.
Proof.
  unfold Analyse. destruct (mceOperation X st) as [[mceId mce] |] eqn:E.
  - destruct (ChooseAndSetupStrategy _ _ _ _ _ _ _ _ _ _ _ _ _ _)
      as [[sel tc] al].
    destruct sel.
    + destruct (DeriveOutput X tc _ mce) as [f l]. simpl.
      repeat split; auto.
    + simpl. repeat split; auto.
  - simpl. repeat split; auto.
Qed.

(** ** The walk of the chain fuser *)

Section WalkFacts.

Context (X : Externals).
Variable g : Graph (ShapeMultiplier X).
Variable alloc : SramAllocator X.
Variable caps : HardwareCapabilities.
Variable strategies : list (IStrategy (SramAllocator X) (ShapeMultiplier X)).
Variable blocks : list BlockConfig.
Variable enableWinograd : bool.

Abbreviation analyse := (Analyse X g alloc caps strategies blocks enableWinograd).
Abbreviation walk := (Walk X g alloc caps strategies blocks enableWinograd).
Abbreviation walk_prefix :=
  (WalkPrefix X g alloc caps strategies blocks enableWinograd).

Lemma Admit_shape st current st' :
  Admit X g st current = Some st' ->
  res X st' = res X st /\
  requiredOutputFormat X st' = requiredOutputFormat X st /\
  (currentSetOfNodes X st' = currentSetOfNodes X st \/
   currentSetOfNodes X st' = currentSetOfNodes X st ++ [current]) /\
  (mceOperation X st' = mceOperation X st \/
   (mceOperation X st = None /\
    mceOperation X st' = as_MceOperationNode X g current /\
    mceOperation X st' <> None /\
    currentSetOfNodes X st' = currentSetOfNodes X st ++ [current])).
Proof.
  unfold Admit.
  repeat match goal with
         | |- (if ?b then _ else _) = Some _ -> _ => destruct b eqn:?
         | |- match ?o with Some _ => _ | None => _ end = Some _ -> _ =>
             destruct o as [[? ?] |] eqn:?
         end;
    try discriminate; intros [= <-]; simpl; repeat split; auto.
  right. rewrite andb_true_iff in Heqb1. destruct Heqb1 as [Hn Hm].
  destruct (mceOperation X st); [discriminate |].
  destruct (as_MceOperationNode X g current); [| discriminate].
  repeat split; auto; discriminate.
Qed.

Lemma as_MceOperationNode_kind current id d :
  as_MceOperationNode X g current = Some (id, d) ->
  id = current /\ m_Kind (g id) = MceOperationNode d.
Proof.
  unfold as_MceOperationNode.
  destruct (m_Kind (g current)) eqn:E; try discriminate.
  intros [= <- <-]. auto.
Qed.

Lemma loop_invariant_init : loop_invariant X g (LoopState_init X).
Proof.
  unfold loop_invariant, LoopState_init, LinearNodesOutput_default; simpl.
  repeat split; try discriminate; try congruence.
Qed.

Lemma loop_invariant_step st current st' :
  loop_invariant X g st ->
  Admit X g st current = Some st' ->
  loop_invariant X g (analyse st').
Proof.
  intros (I1 & I2 & I3 & I4) Ha.
  destruct (Admit_shape st current st' Ha) as (Hres & _ & Hset & Hmce).
  assert (forall id d, mceOperation X st' = Some (id, d) ->
                       currentSetOfNodes X st' <> [] /\
                       m_Kind (g id) = MceOperationNode d) as I1'.
  { intros id d Hm. destruct Hmce as [Hsame | (Hnone & Has & _ & Hpush)].
    - rewrite Hsame in Hm. destruct (I1 id d Hm) as [Hne Hk].
      split; [| exact Hk].
      destruct Hset as [-> | ->]; [exact Hne |].
      intros Hc. apply app_eq_nil in Hc. destruct Hc as [_ Hc]. discriminate.
    - rewrite Has in Hm. apply as_MceOperationNode_kind in Hm.
      destruct Hm as [-> Hk]. split; [| exact Hk].
      rewrite Hpush. intros Hc. apply app_eq_nil in Hc.
      destruct Hc as [_ Hc]. discriminate. }
  pose proof (Analyse_locals X g alloc caps strategies blocks enableWinograd st')
    as (_ & Hm' & _ & _ & _ & Hs').
  unfold loop_invariant. rewrite Hm', Hs'.
  split; [exact I1' |].
  unfold Analyse.
  destruct (mceOperation X st') as [[mceId mce] |] eqn:Em.
  - destruct (I1' mceId mce eq_refl) as [Hne Hk].
    destruct (ChooseAndSetupStrategy _ _ _ _ _ _ _ _ _ _ _ _ _ _)
      as [[sel tc] al].
    destruct sel.
    + destruct (DeriveOutput X tc _ mce) as [f l]. simpl.
      split; [intros _; exact Hne |].
      split; [intros id [= <-]; eauto |].
      intros _. split; [reflexivity |]. split; [exact Hne | discriminate].
    + simpl. rewrite Hres.
      split; [exact I2 |].
      split; [intros id [= <-]; eauto | discriminate].
  - simpl. rewrite Hres.
    split; [exact I2 |].
    split; [exact I3 |].
    intros Hsel. exfalso. destruct (I4 Hsel) as (_ & _ & Hn).
    destruct Hmce as [Hsame | (_ & _ & Hn' & _)]; congruence.
Qed.

Lemma loop_invariant_Walk chain st :
  loop_invariant X g st -> loop_invariant X g (walk chain st).
Proof.
  revert st. induction chain as [| current rest IH]; intros st Hinv; simpl.
  - exact Hinv.
  - destruct (Admit X g st current) as [st' |] eqn:Ha; [| exact Hinv].
    apply IH. eapply loop_invariant_step; eassumption.
Qed.

Lemma loop_invariant_WalkPrefix chain st st' :
  loop_invariant X g st -> walk_prefix chain st = Some st' ->
  loop_invariant X g st'.
Proof.
  revert st. induction chain as [| current rest IH]; intros st Hinv; simpl.
  - intros [= <-]. exact Hinv.
  - destruct (Admit X g st current) as [st1 |] eqn:Ha; [| discriminate].
    apply IH. eapply loop_invariant_step; eassumption.
Qed.

Lemma Walk_app chain1 chain2 st st1 :
  walk_prefix chain1 st = Some st1 ->
  walk (chain1 ++ chain2) st = walk chain2 st1.
Proof.
  revert st. induction chain1 as [| current rest IH]; intros st; simpl.
  - intros [= <-]. reflexivity.
  - destruct (Admit X g st current) as [st' |]; [| discriminate].
    apply IH.
Qed.

Lemma Admit_keeps_mce st current st' :
  Admit X g st current = Some st' ->
  mceOperation X st <> None -> mceOperation X st' <> None.
Proof.
  intros Ha Hn. destruct (Admit_shape st current st' Ha) as (_ & _ & _ & Hm).
  destruct Hm as [-> | (_ & _ & Hn' & _)]; assumption.
Qed.

End WalkFacts.

(** ** The success flag *)

(** The convolution alone is planned with an 8x8 block; with the Interleave
    kernel fused no block config is left, the selection fails, and the
    result reports the convolution as working nodes with the flag cleared. *)
Lemma FindLinearWorkingNodes_flag_overwritten :
  m_StrategySelected TestExternals
    (FindLinearWorkingNodes TestExternals graph_conv_ple [1%nat] []
       test_caps one_stripe [mkBlock 8 8] false) = true /\
  m_WorkingNodes TestExternals
    (FindLinearWorkingNodes TestExternals graph_conv_ple [1%nat] []
       test_caps one_stripe [mkBlock 8 8] false) = [1%nat] /\
  m_WorkingNodes TestExternals
    (FindLinearWorkingNodes TestExternals graph_conv_ple [1%nat; 2%nat] []
       test_caps one_stripe [mkBlock 8 8] false) = [1%nat] /\
  m_StrategySelected TestExternals
    (FindLinearWorkingNodes TestExternals graph_conv_ple [1%nat; 2%nat] []
       test_caps one_stripe [mkBlock 8 8] false) = false.
Proof. repeat split; reflexivity. Qed.

(** ** The pass builder and its hints *)

Lemma update_other {SM : Type} (g : Graph SM) id n j :
  j <> id -> update g id n j = g j.
Proof.
  intros H. unfold update. destruct (Nat.eqb_spec j id); [contradiction | reflexivity].
Qed.

Lemma update_frame {SM : Type} (g : Graph SM) id n :
  sans_hints n = sans_hints (g id) ->
  one_node_hint_frame g (update g id n).
Proof.
  intros H. exists id. split.
  - intros j Hj. apply update_other. exact Hj.
  - intros j. unfold update. destruct (Nat.eqb_spec j id) as [-> |]; auto.
Qed.

Lemma frame_refl {SM : Type} (g : Graph SM) : one_node_hint_frame g g.
Proof. exists 0%nat. split; reflexivity. Qed.

Lemma SetFixGraphConvertOutputTo_frame {SM : Type} (g : Graph SM) id f :
  one_node_hint_frame g (SetFixGraphConvertOutputTo g id f).
Proof. apply update_frame. reflexivity. Qed.

Lemma SetFixGraphLocationHint_frame {SM : Type} (g : Graph SM) id h :
  one_node_hint_frame g (SetFixGraphLocationHint g id h).
Proof. apply update_frame. reflexivity. Qed.

Lemma SetFixGraphCompressionHint_frame {SM : Type} (g : Graph SM) id h :
  one_node_hint_frame g (SetFixGraphCompressionHint g id h).
Proof. apply update_frame. reflexivity. Qed.

Lemma SetFixGraphAlgorithmHint_frame {SM : Type} (g : Graph SM) id h :
  one_node_hint_frame g (SetFixGraphAlgorithmHint g id h).
Proof.
  unfold SetFixGraphAlgorithmHint.
  destruct (m_Kind (g id)) eqn:E; try apply frame_refl.
  apply update_frame. unfold sans_hints. simpl. rewrite E. reflexivity.
Qed.

Lemma hint_installed_frame {SM : Type} (g g' : Graph SM) :
  hint_installed g g' -> one_node_hint_frame g g'.
Proof.
  intros [(id & f & _ & ->) | [(id & d & _ & ->) | [(id & ->) | (id & ->)]]].
  - apply SetFixGraphConvertOutputTo_frame.
  - apply SetFixGraphAlgorithmHint_frame.
  - apply SetFixGraphLocationHint_frame.
  - apply SetFixGraphCompressionHint_frame.
Qed.

Lemma is_nil_true {A : Type} (l : list A) : is_nil l = true -> l = [].
Proof. destruct l; [reflexivity | discriminate]. Qed.

(** The exits of [CreateGreedily] that return no pass. *)
Lemma CreateGreedily_no_pass_exits X g caps id strategies blocks eIC eW chain alloc :
  fst (fst (CreateGreedily X g caps id strategies blocks eIC eW chain alloc))
  = None ->
  let linearNodes :=
    FindLinearWorkingNodes X g chain alloc caps strategies blocks eW in
  let g' :=
    snd (CreateGreedily X g caps id strategies blocks eIC eW chain alloc) in
  snd (fst (CreateGreedily X g caps id strategies blocks eIC eW chain alloc))
  = alloc /\
  ((m_MceOperation X linearNodes = None /\ g' = g) \/
   (exists mceId,
      m_MceOperation X linearNodes = Some mceId /\
      m_StrategySelected X linearNodes = false /\
      m_Algorithm X linearNodes <> Winograd /\
      SearchDependencies X g mceId (NodeInSramPredicate X) = None /\
      g' = g) \/
   hint_installed g g').
Proof.
  intros Hnone linearNodes g'. revert Hnone. subst g'.
  unfold CreateGreedily. fold linearNodes.
  pose proof (loop_invariant_Walk X g alloc caps strategies blocks eW chain
                _ (loop_invariant_init X g)) as (_ & _ & I3 & I4).
  fold (FindLinearWorkingNodes X g chain alloc caps strategies blocks eW)
    in I3, I4.
  fold linearNodes in I3, I4.
  destruct (m_MceOperation X linearNodes) as [mceId |] eqn:Emce.
  2: { simpl. intros _. split; [reflexivity | left; split; reflexivity]. }
  destruct (negb (cdf_eqb (m_RequiredOutputFormat X linearNodes) NONE) &&
            negb (cdf_eqb (m_Format (g (List.last (m_WorkingNodes X linearNodes) mceId)))
                          (m_RequiredOutputFormat X linearNodes))) eqn:E1.
  { simpl. intros _. split; [reflexivity |]. right. right. left.
    eexists _, _. split; [| reflexivity].
    apply andb_true_iff in E1. destruct E1 as [E1 _].
    apply negb_true_iff in E1. intros Hc. rewrite Hc in E1. discriminate. }
  destruct ((is_nil (m_ValidBlockConfigs X linearNodes) ||
             negb (m_StrategySelected X linearNodes)) &&
            alg_eqb (m_Algorithm X linearNodes) Winograd) eqn:E2.
  { simpl. intros _. split; [reflexivity |]. right. right. right. left.
    destruct (I3 mceId eq_refl) as [d Hd]. eauto. }
  destruct (negb (m_StrategySelected X linearNodes)) eqn:E3.
  { apply negb_true_iff in E3.
    destruct (SearchDependencies X g mceId (NodeInSramPredicate X))
      as [nodeToChange |] eqn:Es; simpl; intros _; (split; [reflexivity |]).
    - right. right. right. right. left. eauto.
    - right. left. exists mceId. repeat split; auto.
      intros Hw. rewrite Hw in E2. rewrite ?E3 in E2. simpl in E2.
      rewrite orb_true_r in E2. discriminate. }
  apply negb_false_iff in E3.
  destruct (_ && cdf_eqb _ NHWC) eqn:E4.
  { simpl. intros _. split; [reflexivity |]. right. right. left.
    eexists _, NHWCB. split; [discriminate | reflexivity]. }
  destruct (is_nil (m_WorkingNodes X linearNodes)) eqn:E5.
  { exfalso. apply is_nil_true in E5. destruct (I4 E3) as (_ & Hne & _).
    contradiction. }
  destruct (GetInputCompressed0 g _ && _) eqn:E6.
  { simpl. intros _. split; [reflexivity |]. right. right. right. right.
    right. eauto. }
  unfold McePlePass_new. simpl. discriminate.
Qed.

(** C7. When [CreateGreedily] returns no pass, the caller's allocator is
    the one it held on entry. *)
Theorem CreateGreedily_no_pass_keeps_allocator :
  forall (X : Externals) (g : Graph (ShapeMultiplier X))
         (caps : HardwareCapabilities) (id : nat)
         (strategies : list (IStrategy (SramAllocator X) (ShapeMultiplier X)))
         (blocks : list BlockConfig)
         (enableIntermediateCompression enableWinograd : bool)
         (chain : list NodeId) (sramAllocator : SramAllocator X),
    fst (fst (CreateGreedily X g caps id strategies blocks
                             enableIntermediateCompression enableWinograd
                             chain sramAllocator)) = None ->
    snd (fst (CreateGreedily X g caps id strategies blocks
                             enableIntermediateCompression enableWinograd
                             chain sramAllocator)) = sramAllocator.
Proof.
  intros X g caps id strategies blocks eIC eW chain alloc Hnone.
  apply (CreateGreedily_no_pass_exits X g caps id strategies blocks eIC eW
                                      chain alloc Hnone).
Qed.

(** C8. A failed planning attempt of [CreateGreedily] changes the graph on
    at most one node, and there only in the fix-graph hint fields; every
    other node, hints included, is as before. *)
Theorem CreateGreedily_no_pass_one_hint :
  forall (X : Externals) (g : Graph (ShapeMultiplier X))
         (caps : HardwareCapabilities) (id : nat)
         (strategies : list (IStrategy (SramAllocator X) (ShapeMultiplier X)))
         (blocks : list BlockConfig)
         (enableIntermediateCompression enableWinograd : bool)
         (chain : list NodeId) (sramAllocator : SramAllocator X),
    fst (fst (CreateGreedily X g caps id strategies blocks
                             enableIntermediateCompression enableWinograd
                             chain sramAllocator)) = None ->
    one_node_hint_frame g
      (snd (CreateGreedily X g caps id strategies blocks
                           enableIntermediateCompression enableWinograd
                           chain sramAllocator)).
Proof.
  intros X g caps id strategies blocks eIC eW chain alloc Hnone.
  destruct (CreateGreedily_no_pass_exits X g caps id strategies blocks eIC eW
              chain alloc Hnone) as [_ [[_ ->] | [(m & _ & _ & _ & _ & ->) | H]]].
  - apply frame_refl.
  - apply frame_refl.
  - apply hint_installed_frame. exact H.
Qed.

(** C2 (as the code has it). When [CreateGreedily] returns no pass, either
    no MCE operation was found, or strategy selection failed with an
    algorithm other than Winograd and no node of the MCE's dependency cone is
    in SRAM -- and then the graph is unchanged -- or exactly one fix-graph
    hint has been set: a format conversion, RequireDirect on the MCE
    operation, RequireDram, or RequiredUncompressed. *)
Theorem CreateGreedily_no_pass_hint :
  forall (X : Externals) (g : Graph (ShapeMultiplier X))
         (caps : HardwareCapabilities) (id : nat)
         (strategies : list (IStrategy (SramAllocator X) (ShapeMultiplier X)))
         (blocks : list BlockConfig)
         (enableIntermediateCompression enableWinograd : bool)
         (chain : list NodeId) (sramAllocator : SramAllocator X),
    fst (fst (CreateGreedily X g caps id strategies blocks
                             enableIntermediateCompression enableWinograd
                             chain sramAllocator)) = None ->
    (m_MceOperation X
       (FindLinearWorkingNodes X g chain sramAllocator caps strategies blocks
                               enableWinograd) = None /\
     snd (CreateGreedily X g caps id strategies blocks
                         enableIntermediateCompression enableWinograd
                         chain sramAllocator) = g) \/
    (exists mceId,
       m_MceOperation X
         (FindLinearWorkingNodes X g chain sramAllocator caps strategies
                                 blocks enableWinograd) = Some mceId /\
       m_StrategySelected X
         (FindLinearWorkingNodes X g chain sramAllocator caps strategies
                                 blocks enableWinograd) = false /\
       m_Algorithm X
         (FindLinearWorkingNodes X g chain sramAllocator caps strategies
                                 blocks enableWinograd) <> Winograd /\
       SearchDependencies X g mceId (NodeInSramPredicate X) = None /\
       snd (CreateGreedily X g caps id strategies blocks
                           enableIntermediateCompression enableWinograd
                           chain sramAllocator) = g) \/
    hint_installed g
      (snd (CreateGreedily X g caps id strategies blocks
                           enableIntermediateCompression enableWinograd
                           chain sramAllocator)).
Proof.
  intros X g caps id strategies blocks eIC eW chain alloc Hnone.
  apply (CreateGreedily_no_pass_exits X g caps id strategies blocks eIC eW
                                      chain alloc Hnone).
Qed.

(** ** The pass builder: examples *)

(** With the input in SRAM the failed attempt on [conv; interleave] asks for
    the input to be moved to DRAM. *)
Example create_greedily_dram_hint :
  CreateGreedily TestExternals graph_conv_ple_sram test_caps 7 one_stripe
                 [mkBlock 8 8] false false [1%nat; 2%nat] []
  = (None, [], SetFixGraphLocationHint graph_conv_ple_sram 0%nat RequireDram).
Proof. reflexivity. Qed.

Lemma CreateGreedily_no_pass_keeps_allocator_witness :
  snd (fst (CreateGreedily TestExternals graph_conv_ple_sram test_caps 7
                           one_stripe [mkBlock 8 8] false false
                           [1%nat; 2%nat] [42])) = [42].
Proof.
  apply (CreateGreedily_no_pass_keeps_allocator TestExternals
           graph_conv_ple_sram test_caps 7%nat one_stripe [mkBlock 8 8]
           false false [1%nat; 2%nat] [42]).
  reflexivity.
Defined.

Lemma CreateGreedily_no_pass_one_hint_witness :
  one_node_hint_frame graph_conv_ple_sram
    (snd (CreateGreedily TestExternals graph_conv_ple_sram test_caps 7
                         one_stripe [mkBlock 8 8] false false
                         [1%nat; 2%nat] [42])).
Proof.
  apply (CreateGreedily_no_pass_one_hint TestExternals
           graph_conv_ple_sram test_caps 7%nat one_stripe [mkBlock 8 8]
           false false [1%nat; 2%nat] [42]).
  reflexivity.
Defined.

Lemma CreateGreedily_no_pass_hint_witness :
  (m_MceOperation TestExternals
     (FindLinearWorkingNodes TestExternals graph_conv_ple_sram
        [1%nat; 2%nat] [42] test_caps one_stripe [mkBlock 8 8] false) = None /\
   snd (CreateGreedily TestExternals graph_conv_ple_sram test_caps 7
                       one_stripe [mkBlock 8 8] false false
                       [1%nat; 2%nat] [42]) = graph_conv_ple_sram) \/
  (exists mceId,
     m_MceOperation TestExternals
       (FindLinearWorkingNodes TestExternals graph_conv_ple_sram
          [1%nat; 2%nat] [42] test_caps one_stripe [mkBlock 8 8] false)
     = Some mceId /\
     m_StrategySelected TestExternals
       (FindLinearWorkingNodes TestExternals graph_conv_ple_sram
          [1%nat; 2%nat] [42] test_caps one_stripe [mkBlock 8 8] false)
     = false /\
     m_Algorithm TestExternals
       (FindLinearWorkingNodes TestExternals graph_conv_ple_sram
          [1%nat; 2%nat] [42] test_caps one_stripe [mkBlock 8 8] false)
     <> Winograd /\
     SearchDependencies TestExternals graph_conv_ple_sram mceId
                        (NodeInSramPredicate TestExternals) = None /\
     snd (CreateGreedily TestExternals graph_conv_ple_sram test_caps 7
                         one_stripe [mkBlock 8 8] false false
                         [1%nat; 2%nat] [42]) = graph_conv_ple_sram) \/
  hint_installed graph_conv_ple_sram
    (snd (CreateGreedily TestExternals graph_conv_ple_sram test_caps 7
                         one_stripe [mkBlock 8 8] false false
                         [1%nat; 2%nat] [42])).
Proof.
  apply (CreateGreedily_no_pass_hint TestExternals
           graph_conv_ple_sram test_caps 7%nat one_stripe [mkBlock 8 8]
           false false [1%nat; 2%nat] [42]).
  reflexivity.
Defined.

(** Two calls that return no pass and leave every node as it was: one
    starts at a requantize node, so that no MCE operation is found; the other
    fails to plan [conv; interleave] while no node of the convolution's
    dependency cone is in SRAM. *)
Lemma CreateGreedily_no_pass_no_hint :
  (fst (fst (CreateGreedily TestExternals graph_conv_ple test_caps 7
                            one_stripe [mkBlock 8 8] false false
                            [3%nat] [42])) = None /\
   snd (CreateGreedily TestExternals graph_conv_ple test_caps 7
                       one_stripe [mkBlock 8 8] false false
                       [3%nat] [42]) = graph_conv_ple) /\
  (fst (fst (CreateGreedily TestExternals graph_conv_ple test_caps 7
                            one_stripe [mkBlock 8 8] false false
                            [1%nat; 2%nat] [42])) = None /\
   snd (CreateGreedily TestExternals graph_conv_ple test_caps 7
                       one_stripe [mkBlock 8 8] false false
                       [1%nat; 2%nat] [42]) = graph_conv_ple).
Proof. repeat split; reflexivity. Qed.

(** The convolution alone commits: the winning allocator replaces the
    caller's and the weights, PLE code, input and output regions are freed. *)
Example create_greedily_commits :
  fst (CreateGreedily TestExternals graph_conv_ple test_caps 7 one_stripe
                      [mkBlock 8 8] false false [1%nat] [42])
  = (Some (mkMcePlePass 7 [1%nat]
             (planFor STRATEGY_1
                (mkArgs (mkShape 1 16 16 16) (mkShape 1 16 16 16) DF_HWIO
                        (mkShape 3 3 16 16) (mkBlock 8 8) test_caps tt
                        (false, 0) Direct UINT32_MAX)
                (mkShape 1 16 16 16))
             Dram false Direct 256),
     [42]).
Proof. reflexivity. Qed.

(** Scenario S5 of the spec: no strategy with Winograd selected asks for
    the Direct algorithm. *)
Example scenario_winograd_fallback :
  CreateGreedily TestExternals graph_winograd test_caps 7 [] all_blocks
                 false true [1%nat] [42]
  = (None, [42], SetFixGraphAlgorithmHint graph_winograd 1%nat RequireDirect).
Proof. reflexivity. Qed.

(** Scenario S4 of the spec: an NHWC tail with an output stripe of half the
    channels asks for a conversion to NHWCB. *)
Example scenario_tail_conversion :
  CreateGreedily TestExternals graph_nhwc_tail test_caps 7
                 [strategy_half_depth] [mkBlock 8 8] false false [1%nat] [42]
  = (None, [42], SetFixGraphConvertOutputTo graph_nhwc_tail 1%nat NHWCB).
Proof. reflexivity. Qed.

(** ** Admission: examples *)

(** Scenario S6 of the spec: a requantize that follows a PLE kernel agnostic
    to requantisation is admitted. *)
Example scenario_requantize_after_agnostic_ple :
  currentSetOfNodes TestExternals
    (Walk TestExternals graph_conv_maxpool [] test_caps one_stripe all_blocks
          false [1%nat; 2%nat; 3%nat] (LoopState_init TestExternals))
  = [1%nat; 2%nat; 3%nat].
Proof. reflexivity. Qed.

(** After a PLE kernel that is not agnostic the requantize is not pushed,
    and the loop goes on to the next node. *)
Example requantize_after_other_ple_skipped :
  currentSetOfNodes TestExternals
    (Walk TestExternals graph_conv_ple [] test_caps one_stripe all_blocks
          false [1%nat; 2%nat; 3%nat] (LoopState_init TestExternals))
  = [1%nat; 2%nat] /\
  foundRequantizes TestExternals
    (Walk TestExternals graph_conv_ple [] test_caps one_stripe all_blocks
          false [1%nat; 2%nat; 3%nat] (LoopState_init TestExternals))
  = false.
Proof. split; reflexivity. Qed.

(** A node that is not admitted ends the walk. *)
Example walk_stops_at_requantize_first :
  FindLinearWorkingNodes TestExternals graph_conv_ple [3%nat; 1%nat] []
                         test_caps one_stripe all_blocks false
  = LinearNodesOutput_default TestExternals.
Proof. reflexivity. Qed.

(** * Further properties *)

(** ** Strategy selection *)

Lemma failed_attempts_app {A SM : Type} (mk : BlockConfig -> TrySetupArgs SM)
      (l1 l2 : list (IStrategy A SM * BlockConfig)) tc alloc tc1 alloc1 tc2 alloc2 :
  failed_attempts mk l1 tc alloc tc1 alloc1 ->
  failed_attempts mk l2 tc1 alloc1 tc2 alloc2 ->
  failed_attempts mk (l1 ++ l2) tc alloc tc2 alloc2.
Proof.
  intros H1 H2. induction H1 as [| s b rest tc alloc tc1 alloc1 tc3 alloc3 Hs _ IH];
    simpl.
  - exact H2.
  - eapply failed_cons; [exact Hs | apply IH; exact H2].
Qed.

Lemma failed_attempts_allocator {A SM : Type}
      (mk : BlockConfig -> TrySetupArgs SM)
      (l : list (IStrategy A SM * BlockConfig)) tc alloc tc' alloc' :
  (forall sb, In sb l -> pure_on_failure (fst sb)) ->
  failed_attempts mk l tc alloc tc' alloc' ->
  alloc' = alloc.
Proof.
  intros Hpure H.
  induction H as [| s b rest tc alloc tc1 alloc1 tc2 alloc2 Hs _ IH].
  - reflexivity.
  - rewrite IH by (intros sb Hsb; apply Hpure; right; exact Hsb).
    exact (Hpure (s, b) (or_introl eq_refl) _ _ _ _ _ Hs).
Qed.

Lemma TryBlockConfigs_attempts X
      (strategy : IStrategy (SramAllocator X) (ShapeMultiplier X))
      (mk : BlockConfig -> TrySetupArgs (ShapeMultiplier X))
      blocks tc alloc (ok : bool) tc' alloc' :
  TryBlockConfigs X strategy mk blocks tc alloc = (ok, tc', alloc') ->
  exists before tc1 alloc1,
    failed_attempts mk before tc alloc tc1 alloc1 /\
    if ok
    then exists b after,
        List.map (fun y => (strategy, y)) blocks = before ++ (strategy, b) :: after /\
        strategy tc1 alloc1 (mk b) = (true, tc', alloc')
    else List.map (fun y => (strategy, y)) blocks = before /\
         tc' = tc1 /\ alloc' = alloc1.
Proof.
  revert tc alloc. induction blocks as [| b blocks IH]; intros tc alloc; simpl.
  - intros [= <- <- <-]. exists [], tc, alloc.
    split; [apply failed_nil | split; [reflexivity | split; reflexivity]].
  - destruct (strategy tc alloc (mk b)) as [[ok1 tc1] alloc1] eqn:E.
    destruct ok1.
    + intros [= <- <- <-]. exists [], tc, alloc.
      split; [apply failed_nil |].
      exists b, (List.map (fun y => (strategy, y)) blocks).
      split; [reflexivity | exact E].
    + intros H. destruct (IH _ _ H) as (before & tc2 & alloc2 & Hf & Hr).
      exists ((strategy, b) :: before), tc2, alloc2.
      split; [eapply failed_cons; [exact E | exact Hf] |].
      destruct ok.
      * destruct Hr as (b' & after & Heq & Hs).
        exists b', after. rewrite Heq. split; [reflexivity | exact Hs].
      * destruct Hr as (Heq & Htc & Hal).
        rewrite Heq. split; [reflexivity | split; assumption].
Qed.

Lemma TryStrategies_attempts X
      (strategies : list (IStrategy (SramAllocator X) (ShapeMultiplier X)))
      (mk : BlockConfig -> TrySetupArgs (ShapeMultiplier X))
      blocks tc alloc (ok : bool) tc' alloc' :
  TryStrategies X strategies mk blocks tc alloc = (ok, tc', alloc') ->
  exists before tc1 alloc1,
    failed_attempts mk before tc alloc tc1 alloc1 /\
    if ok
    then exists s b after,
        list_prod strategies blocks = before ++ (s, b) :: after /\
        s tc1 alloc1 (mk b) = (true, tc', alloc')
    else list_prod strategies blocks = before /\ tc' = tc1 /\ alloc' = alloc1.
Proof.
  revert tc alloc. induction strategies as [| s strategies IH];
    intros tc alloc; simpl.
  - intros [= <- <- <-]. exists [], tc, alloc.
    split; [apply failed_nil | split; [reflexivity | split; reflexivity]].
  - destruct (TryBlockConfigs X s mk blocks tc alloc) as [[ok1 tc1] alloc1] eqn:E.
    apply TryBlockConfigs_attempts in E.
    destruct E as (before & tcb & allocb & Hf & Hr).
    destruct ok1.
    + intros [= <- <- <-].
      destruct Hr as (b & after & Heq & Hs).
      exists before, tcb, allocb. split; [exact Hf |].
      exists s, b, (after ++ list_prod strategies blocks).
      rewrite Heq, <- app_assoc. split; [reflexivity | exact Hs].
    + destruct Hr as (Heq & Htc & Hal). subst tc1 alloc1.
      intros H. destruct (IH _ _ H) as (before2 & tc2 & alloc2 & Hf2 & Hr2).
      exists (before ++ before2), tc2, alloc2.
      split; [eapply failed_attempts_app; [exact Hf | exact Hf2] |].
      rewrite Heq. destruct ok.
      * destruct Hr2 as (s' & b' & after & Heq2 & Hs).
        exists s', b', after. rewrite Heq2, app_assoc.
        split; [reflexivity | exact Hs].
      * destruct Hr2 as (Heq2 & Htc & Hal).
        rewrite Heq2. split; [reflexivity | split; assumption].
Qed.

(** The selection makes its [TrySetup] calls in strategy-major, block-minor
    order, each on the tensor config and allocator the call before it left
    behind.  It returns with the first call that succeeds, handing on what
    that call produced, and makes no call after it; it fails when every call
    has failed, and then hands back what the last call left.  If the allowed
    strategies leave the allocator alone when they fail, the successful call
    is made on the allocator the selection was given, and a failed selection
    hands that allocator back. *)
Theorem ChooseAndSetupStrategy_first_success :
  forall (X : Externals) (capabilities : HardwareCapabilities)
         (sramAllocator : SramAllocator X)
         (allowedStrategies : list (IStrategy (SramAllocator X) (ShapeMultiplier X)))
         (allowedBlockConfigs : list BlockConfig) (tensorConfig : TensorConfig)
         (inputShape outputShape : TensorShape) (weightsFormat : DataFormat)
         (weightsShape : TensorShape) (shapeMultiplier : ShapeMultiplier X)
         (inputStaticAndOffset : bool * Z) (algorithm : CompilerMceAlgorithm)
         (depthMax : Z) (ok : bool) (tc' : TensorConfig)
         (alloc' : SramAllocator X),
    ChooseAndSetupStrategy X capabilities sramAllocator allowedStrategies
      allowedBlockConfigs tensorConfig inputShape outputShape weightsFormat
      weightsShape shapeMultiplier inputStaticAndOffset algorithm depthMax
    = (ok, tc', alloc') ->
    exists before tc1 alloc1,
      failed_attempts
        (setup_args capabilities inputShape outputShape weightsFormat
                    weightsShape shapeMultiplier inputStaticAndOffset
                    algorithm depthMax)
        before tensorConfig sramAllocator tc1 alloc1 /\
      ((forall s, In s allowedStrategies -> pure_on_failure s) ->
       alloc1 = sramAllocator) /\
      if ok
      then exists s b after,
          list_prod allowedStrategies allowedBlockConfigs
          = before ++ (s, b) :: after /\
          s tc1 alloc1
            (setup_args capabilities inputShape outputShape weightsFormat
                        weightsShape shapeMultiplier inputStaticAndOffset
                        algorithm depthMax b)
          = (true, tc', alloc')
      else list_prod allowedStrategies allowedBlockConfigs = before /\
           tc' = tc1 /\ alloc' = alloc1.
Proof.
  intros X caps alloc strategies blocks tc inS outS wf ws sm iso alg dm
         ok tc' alloc'.
  unfold ChooseAndSetupStrategy.
  fold (setup_args caps inS outS wf ws sm iso alg dm).
  set (mk := setup_args caps inS outS wf ws sm iso alg dm).
  intros H. apply TryStrategies_attempts in H.
  destruct H as (before & tc1 & alloc1 & Hf & Hr).
  exists before, tc1, alloc1.
  split; [exact Hf |]. split; [| exact Hr].
  intros Hpure.
  apply (failed_attempts_allocator mk before tc alloc tc1 alloc1); [| exact Hf].
  intros [s b] Hsb. apply Hpure.
  assert (In (s, b) (list_prod strategies blocks)) as Hin.
  { destruct ok.
    - destruct Hr as (s' & b' & after & Heq & _). rewrite Heq.
      apply in_or_app. left. exact Hsb.
    - destruct Hr as (Heq & _). rewrite Heq. exact Hsb. }
  apply in_prod_iff in Hin. apply Hin.
Qed.

Lemma ChooseAndSetupStrategy_first_success_witness :
  exists before tc1 alloc1,
    failed_attempts
      (setup_args test_caps (mkShape 1 16 16 16) (mkShape 1 16 16 16) DF_HWIO
                  (mkShape 3 3 16 16) tt (false, 0) Direct UINT32_MAX)
      before zeroTensorConfig [42] tc1 alloc1 /\
    ((forall s, In s [strategy_scribble; strategy_upto STRATEGY_1 64] ->
                pure_on_failure s) ->
     alloc1 = [42]) /\
    exists s b after,
      list_prod [strategy_scribble; strategy_upto STRATEGY_1 64]
                [mkBlock 16 16; mkBlock 8 8]
      = before ++ (s, b) :: after /\
      s tc1 alloc1
        (setup_args test_caps (mkShape 1 16 16 16) (mkShape 1 16 16 16) DF_HWIO
                    (mkShape 3 3 16 16) tt (false, 0) Direct UINT32_MAX b)
      = (true,
         planFor STRATEGY_1
           (setup_args test_caps (mkShape 1 16 16 16) (mkShape 1 16 16 16)
                       DF_HWIO (mkShape 3 3 16 16) tt (false, 0) Direct
                       UINT32_MAX (mkBlock 16 16))
           (mkShape 1 16 16 16),
         [0; 256; 512; 768; 42]).
Proof.
  apply (ChooseAndSetupStrategy_first_success TestExternals test_caps [42]
           [strategy_scribble; strategy_upto STRATEGY_1 64]
           [mkBlock 16 16; mkBlock 8 8] zeroTensorConfig
           (mkShape 1 16 16 16) (mkShape 1 16 16 16) DF_HWIO
           (mkShape 3 3 16 16) tt (false, 0) Direct UINT32_MAX true).
  reflexivity.
Defined.

(** A failed call's tensor config is what the next call is given and what a
    failed selection hands back. *)
Example ChooseAndSetupStrategy_threads_tensor_config :
  ChooseAndSetupStrategy TestExternals test_caps [42]
    [strategy_scribble; strategy_never] [mkBlock 16 16; mkBlock 8 8]
    zeroTensorConfig (mkShape 1 16 16 16) (mkShape 1 16 16 16) DF_HWIO
    (mkShape 3 3 16 16) tt (false, 0) Direct UINT32_MAX
  = (false,
     planFor STRATEGY_7
       (setup_args test_caps (mkShape 1 16 16 16) (mkShape 1 16 16 16)
                   DF_HWIO (mkShape 3 3 16 16) tt (false, 0) Direct
                   UINT32_MAX (mkBlock 8 8))
       zeroShape,
     [42]).
Proof. reflexivity. Qed.

Lemma TryBlockConfigs_nil_blocks X strategies mk tc alloc :
  TryStrategies X strategies mk [] tc alloc = (false, tc, alloc).
Proof. induction strategies as [| s l IH]; simpl; [reflexivity | exact IH]. Qed.

(** With no strategy or no block config nothing is tried: the selection
    fails and hands back the tensor config and allocator it was given. *)
Theorem ChooseAndSetupStrategy_nothing_to_try :
  forall (X : Externals) (capabilities : HardwareCapabilities)
         (sramAllocator : SramAllocator X)
         (allowedStrategies : list (IStrategy (SramAllocator X) (ShapeMultiplier X)))
         (allowedBlockConfigs : list BlockConfig) (tensorConfig : TensorConfig)
         (inputShape outputShape : TensorShape) (weightsFormat : DataFormat)
         (weightsShape : TensorShape) (shapeMultiplier : ShapeMultiplier X)
         (inputStaticAndOffset : bool * Z) (algorithm : CompilerMceAlgorithm)
         (depthMax : Z),
    ChooseAndSetupStrategy X capabilities sramAllocator allowedStrategies []
      tensorConfig inputShape outputShape weightsFormat weightsShape
      shapeMultiplier inputStaticAndOffset algorithm depthMax
    = (false, tensorConfig, sramAllocator) /\
    ChooseAndSetupStrategy X capabilities sramAllocator [] allowedBlockConfigs
      tensorConfig inputShape outputShape weightsFormat weightsShape
      shapeMultiplier inputStaticAndOffset algorithm depthMax
    = (false, tensorConfig, sramAllocator).
Proof.
  intros. unfold ChooseAndSetupStrategy. split.
  - apply TryBlockConfigs_nil_blocks.
  - reflexivity.
Qed.

Lemma TryBlockConfigs_success_source X
      (strategy : IStrategy (SramAllocator X) (ShapeMultiplier X))
      mk blocks tc alloc tc' alloc' :
  TryBlockConfigs X strategy mk blocks tc alloc = (true, tc', alloc') ->
  exists b tc0 alloc0,
    In b blocks /\ strategy tc0 alloc0 (mk b) = (true, tc', alloc').
Proof.
  revert tc alloc. induction blocks as [| b blocks IH]; intros tc alloc; simpl.
  - discriminate.
  - destruct (strategy tc alloc (mk b)) as [[ok tc1] alloc1] eqn:E.
    destruct ok.
    + intros [= <- <-]. exists b, tc, alloc. split; [left; reflexivity | exact E].
    + intros H. destruct (IH _ _ H) as (b' & tc0 & alloc0 & Hb & Hs).
      exists b', tc0, alloc0. split; [right; exact Hb | exact Hs].
Qed.

Lemma TryBlockConfigs_flag X
      (strategy : IStrategy (SramAllocator X) (ShapeMultiplier X))
      mk blocks tc alloc :
  exists tc' alloc',
    TryBlockConfigs X strategy mk blocks tc alloc = (true, tc', alloc') \/
    TryBlockConfigs X strategy mk blocks tc alloc = (false, tc', alloc').
Proof.
  destruct (TryBlockConfigs X strategy mk blocks tc alloc) as [[[] tc'] alloc'];
    eauto.
Qed.

(** A successful selection returns exactly what one [TrySetup] call of an
    allowed strategy on an allowed block config returned with [true]. *)
Theorem ChooseAndSetupStrategy_success_source :
  forall (X : Externals) (capabilities : HardwareCapabilities)
         (sramAllocator : SramAllocator X)
         (allowedStrategies : list (IStrategy (SramAllocator X) (ShapeMultiplier X)))
         (allowedBlockConfigs : list BlockConfig) (tensorConfig : TensorConfig)
         (inputShape outputShape : TensorShape) (weightsFormat : DataFormat)
         (weightsShape : TensorShape) (shapeMultiplier : ShapeMultiplier X)
         (inputStaticAndOffset : bool * Z) (algorithm : CompilerMceAlgorithm)
         (depthMax : Z) (tc' : TensorConfig) (alloc' : SramAllocator X),
    ChooseAndSetupStrategy X capabilities sramAllocator allowedStrategies
      allowedBlockConfigs tensorConfig inputShape outputShape weightsFormat
      weightsShape shapeMultiplier inputStaticAndOffset algorithm depthMax
    = (true, tc', alloc') ->
    exists s b tc0 alloc0,
      In s allowedStrategies /\ In b allowedBlockConfigs /\
      s tc0 alloc0
        (setup_args capabilities inputShape outputShape weightsFormat
                    weightsShape shapeMultiplier inputStaticAndOffset
                    algorithm depthMax b)
      = (true, tc', alloc').
Proof.
  intros X caps alloc strategies blocks tc inS outS wf ws sm iso alg dm tc' alloc'.
  unfold ChooseAndSetupStrategy.
  fold (setup_args caps inS outS wf ws sm iso alg dm).
  set (mk := setup_args caps inS outS wf ws sm iso alg dm).
  revert tc alloc. induction strategies as [| s strategies IH];
    intros tc alloc; simpl; [discriminate |].
  destruct (TryBlockConfigs X s mk blocks tc alloc) as [[ok tc1] alloc1] eqn:E.
  destruct ok.
  - intros [= <- <-].
    destruct (TryBlockConfigs_success_source X s mk blocks tc alloc _ _ E)
      as (b & tc0 & alloc0 & Hb & Hs).
    exists s, b, tc0, alloc0.
    split; [left; reflexivity | split; assumption].
  - intros H. destruct (IH _ _ H) as (s' & b & tc0 & alloc0 & Hs' & Hb & Hr).
    exists s', b, tc0, alloc0.
    split; [right; exact Hs' | split; assumption].
Qed.

Lemma ChooseAndSetupStrategy_success_source_witness :
  exists s b tc0 alloc0,
    In s [strategy_never; strategy_upto STRATEGY_1 64] /\
    In b [mkBlock 16 16; mkBlock 8 8] /\
    s tc0 alloc0
      (setup_args test_caps (mkShape 1 16 16 16) (mkShape 1 16 16 16) DF_HWIO
                  (mkShape 3 3 16 16) tt (false, 0) Direct UINT32_MAX b)
    = (true,
       planFor STRATEGY_1
         (setup_args test_caps (mkShape 1 16 16 16) (mkShape 1 16 16 16)
                     DF_HWIO (mkShape 3 3 16 16) tt (false, 0) Direct
                     UINT32_MAX (mkBlock 16 16))
         (mkShape 1 16 16 16),
       [0; 256; 512; 768; 42]).
Proof.
  apply (ChooseAndSetupStrategy_success_source TestExternals test_caps [42]
           [strategy_never; strategy_upto STRATEGY_1 64]
           [mkBlock 16 16; mkBlock 8 8] zeroTensorConfig
           (mkShape 1 16 16 16) (mkShape 1 16 16 16) DF_HWIO
           (mkShape 3 3 16 16) tt (false, 0) Direct UINT32_MAX).
  reflexivity.
Defined.

(** ** The admission table *)

Lemma cdf_eqb_refl f : cdf_eqb f f = true.
Proof. destruct f; reflexivity. Qed.

Lemma Admit_Admission X g st current st' :
  Admit X g st current = Some st' -> Admission X g st current st'.
Proof.
  unfold Admit, is_FormatConversionNode, is_McePostProcessOperationNode,
    is_RequantizeNode, as_ExtractSubtensorNode, as_MceOperationNode,
    as_FuseOnlyPleOperationNode, not_null, is_null.
  destruct (mceOperation X st) as [[mid md] |] eqn:Em;
    destruct (m_Kind (g current)) eqn:Ek;
    destruct (extractSubtensorNode X st) eqn:Ee;
    destruct (fuseOnlyPle X st) as [[pid pd] |] eqn:Ep;
    destruct (foundPostConversions X st) eqn:Efp;
    destruct (foundRequantizes X st) eqn:Efr;
    simpl;
    repeat match goal with
           | |- (if ?b then _ else _) = Some _ -> _ => destruct b eqn:?
           end;
    try discriminate; intros [= <-];
    try (rewrite <- Em; rewrite <- ?Ee);
    try solve
        [ econstructor; eauto; try congruence
        | eapply adm_requantize; eauto; try congruence
        | eapply adm_requantize_skipped; eauto; try congruence
        | eapply adm_post_conversion; try congruence;
          match goal with
          | H : (_ || _) = true |- _ =>
              apply orb_true_iff in H; destruct H as [H | H];
              apply cdf_eqb_eq in H; auto
          end ].
Qed.

Lemma Admission_Admit X g st current st' :
  Admission X g st current st' -> Admit X g st current = Some st'.
Proof.
  unfold Admit, is_FormatConversionNode, is_McePostProcessOperationNode,
    is_RequantizeNode, as_ExtractSubtensorNode, as_MceOperationNode,
    as_FuseOnlyPleOperationNode, not_null, is_null.
  intros H; destruct H;
    repeat match goal with
           | H : mceOperation X st <> None |- _ =>
               destruct (mceOperation X st) as [[? ?] |]; [clear H | congruence]
           | H : _ \/ _ |- _ => destruct H
           | H : exists _, _ |- _ => destruct H
           | H : _ /\ _ |- _ => destruct H
           end;
    repeat (progress (simpl;
                      repeat match goal with
                             | H : _ = _ |- _ => rewrite H
                             end));
    rewrite ?cdf_eqb_refl, ?orb_true_r; simpl; try reflexivity;
    destruct (extractSubtensorNode X st);
    destruct (fuseOnlyPle X st) as [[? ?] |];
    destruct (foundPostConversions X st);
    destruct (foundRequantizes X st);
    simpl; try reflexivity; try congruence.
Qed.

(** The admission chain admits a node exactly as the table says, and
    breaks out of the loop in every other case. *)
Theorem Admit_table :
  forall (X : Externals) (g : Graph (ShapeMultiplier X)) (st : LoopState X)
         (current : NodeId) (st' : LoopState X),
    Admit X g st current = Some st' <-> Admission X g st current st'.
Proof.
  intros. split; [apply Admit_Admission | apply Admission_Admit].
Qed.

(** ** Invariants of the walk *)

Section FuserFacts.

Context (X : Externals).
Variable g : Graph (ShapeMultiplier X).
Variable alloc : SramAllocator X.
Variable caps : HardwareCapabilities.
Variable strategies : list (IStrategy (SramAllocator X) (ShapeMultiplier X)).
Variable blocks : list BlockConfig.
Variable enableWinograd : bool.

Lemma Walk_preserves (P : LoopState X -> Prop) :
  (forall st current st',
      P st -> Admit X g st current = Some st' ->
      P (Analyse X g alloc caps strategies blocks enableWinograd st')) ->
  forall chain st,
    P st -> P (Walk X g alloc caps strategies blocks enableWinograd chain st).
Proof.
  intros Hstep chain. induction chain as [| current rest IH]; intros st HP;
    simpl; [exact HP |].
  destruct (Admit X g st current) as [st' |] eqn:Ha; [| exact HP].
  apply IH. eapply Hstep; eassumption.
Qed.

Lemma Analyse_cases st id d :
  mceOperation X st = Some (id, d) ->
  exists (sel : bool) tc al,
    res X (Analyse X g alloc caps strategies blocks enableWinograd st) =
    if sel then
      mkLinearNodesOutput X (currentSetOfNodes X st) (Some id) true tc al
        (fst (DeriveOutput X tc (g (List.last (currentSetOfNodes X st) id)) d))
        (snd (DeriveOutput X tc (g (List.last (currentSetOfNodes X st) id)) d))
        (FilterValidAndSortBlockConfigs X d (option_map snd (fuseOnlyPle X st))
           blocks caps (m_Shape (g (List.last (currentSetOfNodes X st) id)))
           (SelectAlgorithm X caps enableWinograd d))
        (SelectAlgorithm X caps enableWinograd d)
    else
      mkLinearNodesOutput X (m_WorkingNodes X (res X st)) (Some id) false
        (m_TensorConfig X (res X st)) (m_SramAllocator X (res X st))
        (m_RequiredOutputFormat X (res X st)) (m_OutputLocation X (res X st))
        (m_ValidBlockConfigs X (res X st))
        (SelectAlgorithm X caps enableWinograd d).
Proof.
  intros Hm. unfold Analyse. rewrite Hm.
  destruct (ChooseAndSetupStrategy _ _ _ _ _ _ _ _ _ _ _ _ _ _)
    as [[sel tc] al].
  exists sel, tc, al. destruct sel; [| reflexivity].
  destruct (DeriveOutput X tc _ d) as [f l]. reflexivity.
Qed.

Lemma members_invariant_init : members_invariant X g (LoopState_init X).
Proof.
  unfold members_invariant, LoopState_init; simpl.
  repeat split; intros; discriminate.
Qed.

Lemma members_invariant_Admission st current st' :
  members_invariant X g st ->
  Admission X g st current st' ->
  members_invariant X g st'.
Proof.
  intros (Hm & Hp & He & Hkm & Hkp) Ha.
  unfold is_MceOperationNode, is_FuseOnlyPleOperationNode,
    is_ExtractSubtensorNode, as_MceOperationNode,
    as_FuseOnlyPleOperationNode, as_ExtractSubtensorNode in Hm, Hp, He.
  destruct Ha;
    unfold members_invariant, push_back, set_extractSubtensorNode,
      set_mceOperation, set_fuseOnlyPle, set_foundRequantizes,
      set_foundPostConversions; simpl;
    rewrite ?List.filter_app; simpl;
    unfold is_MceOperationNode, is_FuseOnlyPleOperationNode,
      is_ExtractSubtensorNode, as_MceOperationNode,
      as_FuseOnlyPleOperationNode, as_ExtractSubtensorNode;
    repeat match goal with
           | H : m_Kind (g current) = _ |- _ => rewrite H
           end; simpl;
    rewrite ?app_nil_r;
    try (split; [| split; [| split; [| split]]]); try assumption;
    try (rewrite Hm); try (rewrite Hp); try (rewrite He);
    repeat match goal with
           | H : mceOperation X st = None |- _ => rewrite H in *
           | H : fuseOnlyPle X st = None |- _ => rewrite H in *
           | H : extractSubtensorNode X st = None |- _ => rewrite H in *
           end; simpl; try reflexivity; try assumption;
    try (intros ? ? [= <- <-]; assumption).
Qed.

Lemma members_invariant_step st current st' :
  members_invariant X g st ->
  Admit X g st current = Some st' ->
  members_invariant X g
    (Analyse X g alloc caps strategies blocks enableWinograd st').
Proof.
  intros Hinv Ha. apply Admit_Admission in Ha.
  pose proof (members_invariant_Admission st current st' Hinv Ha) as H'.
  pose proof (Analyse_locals X g alloc caps strategies blocks enableWinograd st')
    as (He & Hm & Hp & _ & _ & Hs).
  unfold members_invariant in *. rewrite He, Hm, Hp, Hs. exact H'.
Qed.

End FuserFacts.

Section ResultFacts.

Context (X : Externals).
Variable g : Graph (ShapeMultiplier X).
Variable alloc : SramAllocator X.
Variable caps : HardwareCapabilities.
Variable strategies : list (IStrategy (SramAllocator X) (ShapeMultiplier X)).
Variable blocks : list BlockConfig.
Variable enableWinograd : bool.

Lemma result_invariant_init :
  result_invariant X g caps blocks enableWinograd (LoopState_init X).
Proof.
  unfold result_invariant, LoopState_init, LinearNodesOutput_default; simpl.
  split; [reflexivity |]. split; [intros id; discriminate |].
  split; [congruence | auto].
Qed.

Lemma result_invariant_Admission st current st' :
  result_invariant X g caps blocks enableWinograd st ->
  Admission X g st current st' ->
  result_invariant X g caps blocks enableWinograd st'.
Proof.
  intros (R1 & R2 & R3 & R4) Ha.
  destruct Ha;
    unfold result_invariant, push_back, set_extractSubtensorNode,
      set_mceOperation, set_fuseOnlyPle, set_foundRequantizes,
      set_foundPostConversions; simpl;
    try (split; [exact R1 |]; split; [exact R2 |]; split; [| exact R4];
         intros Hwn; destruct (R3 Hwn) as (id0 & d0 & Hm0 & Hpre & Hrest);
         exists id0, d0; split; [exact Hm0 |];
         split; [apply prefix_app_r; exact Hpre | exact Hrest]).
  - (* the MCE operation is captured: the result is still the default one *)
    rewrite (R1 H). unfold LinearNodesOutput_default; simpl.
    split; [discriminate |]. split; [intros id; discriminate |].
    split; [congruence | auto].
  - (* a requantize that is not pushed *)
    split; [exact R1 |]. split; [exact R2 |]. split; [exact R3 | exact R4].
Qed.

Lemma filter_singleton_In {A : Type} (f : A -> bool) (l : list A) (x : A) :
  List.filter f l = [x] -> In x l.
Proof.
  intros H. assert (In x (List.filter f l)) as Hin by (rewrite H; left; reflexivity).
  apply List.filter_In in Hin. apply Hin.
Qed.

Lemma result_invariant_Analyse st :
  members_invariant X g st ->
  result_invariant X g caps blocks enableWinograd st ->
  result_invariant X g caps blocks enableWinograd
    (Analyse X g alloc caps strategies blocks enableWinograd st) /\
  (forall id d, mceOperation X st = Some (id, d) ->
                m_MceOperation X
                  (res X (Analyse X g alloc caps strategies blocks
                                  enableWinograd st)) = Some id).
Proof.
  intros (Hm & _) (R1 & R2 & R3 & R4).
  pose proof (Analyse_locals X g alloc caps strategies blocks enableWinograd st)
    as (_ & HmA & _ & _ & _ & HsA).
  unfold result_invariant. rewrite HmA, HsA.
  destruct (mceOperation X st) as [[id d] |] eqn:Em.
  - simpl in Hm. apply filter_singleton_In in Hm.
    destruct (Analyse_cases X g alloc caps strategies blocks enableWinograd
                            st id d Em) as (sel & tc & al & ->).
    destruct sel; simpl.
    + split.
      * split; [discriminate |].
        split; [intros id' [= <-]; eauto |].
        split.
        -- intros _. exists id, d. split; [reflexivity |].
           split; [reflexivity |]. split; [exact Hm |].
           split; [symmetry; apply surjective_pairing | eauto].
        -- intros Hnil. rewrite Hnil in Hm. destruct Hm.
      * intros id' d' [= <- <-]. reflexivity.
    + split.
      * split; [discriminate |].
        split; [intros id' [= <-]; eauto |].
        split; [exact R3 | exact R4].
      * intros id' d' [= <- <-]. reflexivity.
  - rewrite (Analyse_no_mce X g alloc caps strategies blocks enableWinograd
                            st Em).
    split; [| intros id d; discriminate].
    split; [exact R1 |]. split; [exact R2 |]. split; [exact R3 | exact R4].
Qed.

Lemma fuser_invariant_init :
  fuser_invariant X g caps blocks enableWinograd (LoopState_init X).
Proof.
  split; [apply members_invariant_init |].
  split; [apply result_invariant_init |].
  split; [apply loop_invariant_init |].
  intros id d; discriminate.
Qed.

Lemma fuser_invariant_Walk chain :
  fuser_invariant X g caps blocks enableWinograd
    (Walk X g alloc caps strategies blocks enableWinograd chain
          (LoopState_init X)).
Proof.
  apply Walk_preserves; [| apply fuser_invariant_init].
  intros st current st' (Hmem & Hres & Hloop & _) Ha.
  pose proof (members_invariant_step X g alloc caps strategies blocks
                enableWinograd st current st' Hmem Ha) as Hmem'.
  pose proof (Admit_Admission X g st current st' Ha) as Hadm.
  pose proof (members_invariant_Admission X g st current st' Hmem Hadm)
    as Hmem1.
  pose proof (result_invariant_Admission st current st' Hres Hadm) as Hres1.
  destruct (result_invariant_Analyse st' Hmem1 Hres1) as [Hres' Hcap].
  split; [exact Hmem' |]. split; [exact Hres' |].
  split; [eapply loop_invariant_step; eassumption |].
  pose proof (Analyse_locals X g alloc caps strategies blocks enableWinograd st')
    as (_ & HmA & _).
  rewrite HmA. exact Hcap.
Qed.

Lemma Walk_current_set chain st :
  exists l,
    currentSetOfNodes X
      (Walk X g alloc caps strategies blocks enableWinograd chain st)
    = currentSetOfNodes X st ++ l /\
    sublist l chain.
Proof.
  revert st. induction chain as [| current rest IH]; intros st; simpl.
  - exists []. rewrite app_nil_r. split; [reflexivity | constructor].
  - destruct (Admit X g st current) as [st' |] eqn:Ha.
    + destruct (IH (Analyse X g alloc caps strategies blocks enableWinograd st'))
        as (l & Hl & Hsub).
      pose proof (Analyse_locals X g alloc caps strategies blocks
                                 enableWinograd st') as (_ & _ & _ & _ & _ & Hs).
      rewrite Hs in Hl.
      destruct (Admit_shape X g st current st' Ha) as (_ & _ & Hset & _).
      destruct Hset as [Hsame | Hpush].
      * exists l. rewrite Hl, Hsame. split; [reflexivity |].
        apply sublist_cons. exact Hsub.
      * exists (current :: l). rewrite Hl, Hpush, <- app_assoc.
        split; [reflexivity |]. apply sublist_skip. exact Hsub.
    + exists []. rewrite app_nil_r. split; [reflexivity | apply sublist_nil_l].
Qed.

End ResultFacts.

(** ** What the chain fuser reports *)

Lemma app_singleton_l {A : Type} (l k : list A) (x : A) :
  l ++ k = [x] -> l <> [] -> l = [x].
Proof.
  destruct l as [| y l]; [congruence |]. simpl. intros [= -> H] _.
  apply app_eq_nil in H. destruct H as [-> _]. reflexivity.
Qed.

Lemma filter_prefix_length {A : Type} (f : A -> bool) (l k : list A) :
  (length (List.filter f l) <= length (List.filter f (l ++ k)))%nat.
Proof. rewrite List.filter_app, length_app. lia. Qed.

Lemma captured_length {A B : Type} (p : option (A * B)) :
  (length (captured p) <= 1)%nat.
Proof. destruct p as [[a b] |]; simpl; lia. Qed.

Lemma captured_id_length (p : option NodeId) :
  (length (captured_id p) <= 1)%nat.
Proof. destruct p; simpl; lia. Qed.

(** The working nodes are nodes of the chain, in the order of the chain. *)
Theorem FindLinearWorkingNodes_sublist :
  forall (X : Externals) (g : Graph (ShapeMultiplier X)) (chain : list NodeId)
         (sramAllocator : SramAllocator X) (caps : HardwareCapabilities)
         (strategies : list (IStrategy (SramAllocator X) (ShapeMultiplier X)))
         (blocks : list BlockConfig) (enableWinograd : bool),
    sublist (m_WorkingNodes X
               (FindLinearWorkingNodes X g chain sramAllocator caps strategies
                                       blocks enableWinograd))
            chain.
Proof.
  intros X g chain alloc caps strategies blocks eW.
  unfold FindLinearWorkingNodes.
  pose proof (fuser_invariant_Walk X g alloc caps strategies blocks eW chain)
    as (_ & (_ & _ & R3 & _) & _).
  destruct (Walk_current_set X g alloc caps strategies blocks eW chain
                             (LoopState_init X)) as (l & Hl & Hsub).
  simpl in Hl.
  destruct (m_WorkingNodes X (res X (Walk X g alloc caps strategies blocks eW
                                          chain (LoopState_init X))))
    as [| n wn] eqn:Ewn; [apply sublist_nil_l |].
  destruct R3 as (id & d & _ & [k Hpre] & _); [discriminate |].
  rewrite Hl in Hpre. rewrite Hpre in Hsub.
  etransitivity; [| exact Hsub]. apply sublist_inserts_r. reflexivity.
Qed.

(** Reported working nodes hold exactly one MCE operation, the one the
    result names, at most one fuse-only PLE operation and at most one
    extract-subtensor node. *)
Theorem FindLinearWorkingNodes_one_mce :
  forall (X : Externals) (g : Graph (ShapeMultiplier X)) (chain : list NodeId)
         (sramAllocator : SramAllocator X) (caps : HardwareCapabilities)
         (strategies : list (IStrategy (SramAllocator X) (ShapeMultiplier X)))
         (blocks : list BlockConfig) (enableWinograd : bool),
    m_WorkingNodes X
      (FindLinearWorkingNodes X g chain sramAllocator caps strategies blocks
                              enableWinograd) <> [] ->
    (exists id d,
        m_MceOperation X
          (FindLinearWorkingNodes X g chain sramAllocator caps strategies
                                  blocks enableWinograd) = Some id /\
        m_Kind (g id) = MceOperationNode d /\
        List.filter (is_MceOperationNode X g)
          (m_WorkingNodes X
             (FindLinearWorkingNodes X g chain sramAllocator caps strategies
                                     blocks enableWinograd)) = [id]) /\
    (length (List.filter (is_FuseOnlyPleOperationNode X g)
               (m_WorkingNodes X
                  (FindLinearWorkingNodes X g chain sramAllocator caps
                                          strategies blocks enableWinograd)))
     <= 1)%nat /\
    (length (List.filter (is_ExtractSubtensorNode X g)
               (m_WorkingNodes X
                  (FindLinearWorkingNodes X g chain sramAllocator caps
                                          strategies blocks enableWinograd)))
     <= 1)%nat.
Proof.
  intros X g chain alloc caps strategies blocks eW.
  unfold FindLinearWorkingNodes.
  pose proof (fuser_invariant_Walk X g alloc caps strategies blocks eW chain)
    as ((Hm & Hp & He & Hkm & _) & (_ & _ & R3 & _) & _ & Hcap).
  intros Hne. destruct (R3 Hne) as (id & d & Hmce & [k Hpre] & Hin & _).
  rewrite Hmce in Hm. simpl in Hm.
  split; [| split].
  - exists id, d. split; [apply (Hcap id d Hmce) |].
    split; [apply (Hkm id d Hmce) |].
    rewrite Hpre, List.filter_app in Hm.
    apply (app_singleton_l _ _ _ Hm).
    intros Hnil.
    assert (In id (List.filter (is_MceOperationNode X g)
                     (m_WorkingNodes X
                        (res X (Walk X g alloc caps strategies blocks eW chain
                                     (LoopState_init X)))))) as Hc.
    { apply List.filter_In. split; [exact Hin |].
      unfold is_MceOperationNode, as_MceOperationNode.
      rewrite (Hkm id d Hmce). reflexivity. }
    rewrite Hnil in Hc. destruct Hc.
  - etransitivity; [apply (filter_prefix_length _ _ k) |].
    rewrite <- Hpre, Hp. apply captured_length.
  - etransitivity; [apply (filter_prefix_length _ _ k) |].
    rewrite <- Hpre, He. apply captured_id_length.
Qed.

Lemma FindLinearWorkingNodes_one_mce_witness :
  (exists id d,
      m_MceOperation TestExternals
        (FindLinearWorkingNodes TestExternals graph_conv_maxpool
           [1%nat; 2%nat; 3%nat] [] test_caps one_stripe all_blocks false)
      = Some id /\
      m_Kind (graph_conv_maxpool id) = MceOperationNode d /\
      List.filter (is_MceOperationNode TestExternals graph_conv_maxpool)
        (m_WorkingNodes TestExternals
           (FindLinearWorkingNodes TestExternals graph_conv_maxpool
              [1%nat; 2%nat; 3%nat] [] test_caps one_stripe all_blocks false))
      = [id]) /\
  (length (List.filter (is_FuseOnlyPleOperationNode TestExternals
                                                    graph_conv_maxpool)
             (m_WorkingNodes TestExternals
                (FindLinearWorkingNodes TestExternals graph_conv_maxpool
                   [1%nat; 2%nat; 3%nat] [] test_caps one_stripe all_blocks
                   false))) <= 1)%nat /\
  (length (List.filter (is_ExtractSubtensorNode TestExternals
                                                graph_conv_maxpool)
             (m_WorkingNodes TestExternals
                (FindLinearWorkingNodes TestExternals graph_conv_maxpool
                   [1%nat; 2%nat; 3%nat] [] test_caps one_stripe all_blocks
                   false))) <= 1)%nat.
Proof.
  apply (FindLinearWorkingNodes_one_mce TestExternals graph_conv_maxpool
           [1%nat; 2%nat; 3%nat] [] test_caps one_stripe all_blocks false).
  vm_compute. discriminate.
Defined.

Lemma FindLinearWorkingNodes_default_without_mce :
  forall (X : Externals) (g : Graph (ShapeMultiplier X)) (chain : list NodeId)
         (sramAllocator : SramAllocator X) (caps : HardwareCapabilities)
         (strategies : list (IStrategy (SramAllocator X) (ShapeMultiplier X)))
         (blocks : list BlockConfig) (enableWinograd : bool),
    m_MceOperation X
      (FindLinearWorkingNodes X g chain sramAllocator caps strategies blocks
                              enableWinograd) = None ->
    FindLinearWorkingNodes X g chain sramAllocator caps strategies blocks
                           enableWinograd
    = LinearNodesOutput_default X.
Proof.
  intros X g chain alloc caps strategies blocks eW.
  unfold FindLinearWorkingNodes.
  pose proof (fuser_invariant_Walk X g alloc caps strategies blocks eW chain)
    as (_ & (R1 & _) & _ & Hcap).
  intros Hnone.
  destruct (mceOperation X (Walk X g alloc caps strategies blocks eW chain
                                 (LoopState_init X)))
    as [[id d] |] eqn:Em.
  - rewrite (Hcap id d eq_refl) in Hnone. discriminate.
  - apply R1. reflexivity.
Qed.

(** When the walk finds no MCE operation -- an empty chain, or a chain that
    stops before one -- the result is the default-constructed record. *)
Theorem FindLinearWorkingNodes_no_mce :
  forall (X : Externals) (g : Graph (ShapeMultiplier X)) (chain : list NodeId)
         (sramAllocator : SramAllocator X) (caps : HardwareCapabilities)
         (strategies : list (IStrategy (SramAllocator X) (ShapeMultiplier X)))
         (blocks : list BlockConfig) (enableWinograd : bool),
    m_MceOperation X
      (FindLinearWorkingNodes X g chain sramAllocator caps strategies blocks
                              enableWinograd) = None ->
    FindLinearWorkingNodes X g chain sramAllocator caps strategies blocks
                           enableWinograd
    = LinearNodesOutput_default X.
Proof.
  intros X g chain alloc caps strategies blocks eW Hnone.
  apply FindLinearWorkingNodes_default_without_mce. exact Hnone.
Qed.

Lemma FindLinearWorkingNodes_no_mce_witness :
  FindLinearWorkingNodes TestExternals graph_conv_ple [0%nat; 3%nat; 1%nat]
                         [42] test_caps one_stripe all_blocks true
  = LinearNodesOutput_default TestExternals.
Proof.
  apply (FindLinearWorkingNodes_no_mce TestExternals graph_conv_ple
           [0%nat; 3%nat; 1%nat] [42] test_caps one_stripe all_blocks true).
  reflexivity.
Defined.

Lemma SelectAlgorithm_Winograd_conditions X caps enableWinograd
      (d : MceOperationData (ShapeMultiplier X)) :
  SelectAlgorithm X caps enableWinograd d = Winograd ->
  mce_AlgorithmHint d = AllowWinograd /\ enableWinograd = true /\
  mce_Operation d = CONVOLUTION /\ mce_Stride d = mkStride 1 1 /\
  mce_UpscaleFactor d = 1 /\
  numMultsWinograd caps (dim0 (m_Dimensions (mce_WeightsInfo d)))
                   (dim1 (m_Dimensions (mce_WeightsInfo d)))
  < numMultsDirect caps (dim0 (m_Dimensions (mce_WeightsInfo d)))
                   (dim1 (m_Dimensions (mce_WeightsInfo d))).
Proof.
  unfold SelectAlgorithm.
  destruct (alghint_eqb (mce_AlgorithmHint d) AllowWinograd && enableWinograd &&
            mceop_eqb (mce_Operation d) CONVOLUTION &&
            stride_eqb (mce_Stride d) (mkStride 1 1) &&
            (mce_UpscaleFactor d =? 1)) eqn:E; [| discriminate].
  rewrite !andb_true_iff in E. destruct E as [[[[E1 E2] E3] E4] E5].
  apply alghint_eqb_eq in E1. apply mceop_eqb_eq in E3.
  apply stride_eqb_eq in E4. apply Z.eqb_eq in E5.
  unfold ConvAlgorithm.
  destruct (Z.ltb_spec (numMultsWinograd caps
                          (dim0 (m_Dimensions (mce_WeightsInfo d)))
                          (dim1 (m_Dimensions (mce_WeightsInfo d))))
                       (numMultsDirect caps
                          (dim0 (m_Dimensions (mce_WeightsInfo d)))
                          (dim1 (m_Dimensions (mce_WeightsInfo d)))));
    [| discriminate].
  intros _. repeat split; assumption.
Qed.

(** Once an MCE operation is found the reported algorithm is the one chosen
    for that operation, Direct or Winograd, whether or not a strategy was
    selected. *)
Theorem FindLinearWorkingNodes_algorithm :
  forall (X : Externals) (g : Graph (ShapeMultiplier X)) (chain : list NodeId)
         (sramAllocator : SramAllocator X) (caps : HardwareCapabilities)
         (strategies : list (IStrategy (SramAllocator X) (ShapeMultiplier X)))
         (blocks : list BlockConfig) (enableWinograd : bool) (id : NodeId),
    m_MceOperation X
      (FindLinearWorkingNodes X g chain sramAllocator caps strategies blocks
                              enableWinograd) = Some id ->
    exists d,
      m_Kind (g id) = MceOperationNode d /\
      m_Algorithm X
        (FindLinearWorkingNodes X g chain sramAllocator caps strategies blocks
                                enableWinograd)
      = SelectAlgorithm X caps enableWinograd d /\
      m_Algorithm X
        (FindLinearWorkingNodes X g chain sramAllocator caps strategies blocks
                                enableWinograd) <> AlgNone.
Proof.
  intros X g chain alloc caps strategies blocks eW id.
  unfold FindLinearWorkingNodes.
  pose proof (fuser_invariant_Walk X g alloc caps strategies blocks eW chain)
    as ((_ & _ & _ & Hkm & _) & (_ & R2 & _) & _).
  intros Hid. destruct (R2 id Hid) as (d & Hm & Halg).
  exists d. split; [apply (Hkm id d Hm) |]. split; [exact Halg |].
  rewrite Halg. unfold SelectAlgorithm, ConvAlgorithm.
  destruct (_ && _); [destruct (_ <? _) |]; discriminate.
Qed.

Lemma FindLinearWorkingNodes_algorithm_witness :
  exists d,
    m_Kind (graph_winograd 1%nat) = MceOperationNode d /\
    m_Algorithm TestExternals
      (FindLinearWorkingNodes TestExternals graph_winograd [1%nat; 2%nat] []
                              test_caps [] all_blocks true)
    = SelectAlgorithm TestExternals test_caps true d /\
    m_Algorithm TestExternals
      (FindLinearWorkingNodes TestExternals graph_winograd [1%nat; 2%nat] []
                              test_caps [] all_blocks true) <> AlgNone.
Proof.
  apply (FindLinearWorkingNodes_algorithm TestExternals graph_winograd
           [1%nat; 2%nat] [] test_caps [] all_blocks true 1%nat).
  reflexivity.
Defined.

(** Winograd is reported only when Winograd is enabled and the MCE
    operation found is a plain convolution with stride (1,1) and no
    upscaling whose hint allows Winograd. *)
Theorem FindLinearWorkingNodes_Winograd_gated :
  forall (X : Externals) (g : Graph (ShapeMultiplier X)) (chain : list NodeId)
         (sramAllocator : SramAllocator X) (caps : HardwareCapabilities)
         (strategies : list (IStrategy (SramAllocator X) (ShapeMultiplier X)))
         (blocks : list BlockConfig) (enableWinograd : bool),
    m_Algorithm X
      (FindLinearWorkingNodes X g chain sramAllocator caps strategies blocks
                              enableWinograd) = Winograd ->
    enableWinograd = true /\
    exists id d,
      m_MceOperation X
        (FindLinearWorkingNodes X g chain sramAllocator caps strategies blocks
                                enableWinograd) = Some id /\
      m_Kind (g id) = MceOperationNode d /\
      mce_AlgorithmHint d = AllowWinograd /\
      mce_Operation d = CONVOLUTION /\
      mce_Stride d = mkStride 1 1 /\
      mce_UpscaleFactor d = 1.
Proof.
  intros X g chain alloc caps strategies blocks eW Hw.
  destruct (m_MceOperation X
              (FindLinearWorkingNodes X g chain alloc caps strategies blocks eW))
    as [id |] eqn:Em.
  - pose proof Em as Em'.
    unfold FindLinearWorkingNodes in Em'.
    pose proof (fuser_invariant_Walk X g alloc caps strategies blocks eW chain)
      as ((_ & _ & _ & Hkm & _) & (_ & R2 & _) & _).
    destruct (R2 id Em') as (d & Hm & Halg).
    fold (FindLinearWorkingNodes X g chain alloc caps strategies blocks eW)
      in Halg.
    rewrite Hw in Halg. symmetry in Halg.
    apply SelectAlgorithm_Winograd_conditions in Halg.
    destruct Halg as (H1 & H2 & H3 & H4 & H5 & _).
    split; [exact H2 |]. exists id, d.
    split; [reflexivity |]. split; [apply (Hkm id d Hm) |].
    repeat split; assumption.
  - rewrite (FindLinearWorkingNodes_default_without_mce X g chain alloc caps
               strategies blocks eW Em) in Hw.
    discriminate.
Qed.

Lemma FindLinearWorkingNodes_Winograd_gated_witness :
  true = true /\
  exists id d,
    m_MceOperation TestExternals
      (FindLinearWorkingNodes TestExternals graph_winograd [1%nat; 2%nat] []
                              test_caps [] all_blocks true) = Some id /\
    m_Kind (graph_winograd id) = MceOperationNode d /\
    mce_AlgorithmHint d = AllowWinograd /\
    mce_Operation d = CONVOLUTION /\
    mce_Stride d = mkStride 1 1 /\
    mce_UpscaleFactor d = 1.
Proof.
  apply (FindLinearWorkingNodes_Winograd_gated TestExternals graph_winograd
           [1%nat; 2%nat] [] test_caps [] all_blocks true).
  reflexivity.
Defined.

Lemma DeriveOutput_location X tc (lastNode : Node (ShapeMultiplier X)) d f l :
  (f, l) = DeriveOutput X tc lastNode d ->
  (l = Dram \/ l = Sram) /\
  (l = Sram -> f = NHWCB /\ can_stay_in_sram tc lastNode) /\
  (stripe_smaller tc lastNode /\ mce_Operation d <> FULLY_CONNECTED ->
   f = NHWCB) /\
  (l = Dram -> mce_Operation d = FULLY_CONNECTED -> f = NHWC).
Proof.
  unfold DeriveOutput.
  pose proof (KeepOutputInSram_iff X tc lastNode) as Hk.
  pose proof (FormatFromStripes_spec X tc lastNode d) as (F1 & F2 & _).
  destruct (KeepOutputInSram X tc lastNode); intros [= -> ->].
  - split; [right; reflexivity |]. split.
    + intros _. split; [reflexivity | apply Hk; reflexivity].
    + split; [intros _; reflexivity | discriminate].
  - split; [left; reflexivity |]. split; [discriminate |].
    split; [exact F1 | intros _; exact F2].
Qed.

(** Whenever working nodes are reported, the output location is Dram or
    Sram, never None; it is Sram only with strategy S3, an NHWCB last node
    without a RequireDram hint, and then NHWCB is required; and an output
    stripe smaller than the tensor on W or C of a non-fully-connected MCE
    always requires NHWCB. *)
Theorem FindLinearWorkingNodes_output :
  forall (X : Externals) (g : Graph (ShapeMultiplier X)) (chain : list NodeId)
         (sramAllocator : SramAllocator X) (caps : HardwareCapabilities)
         (strategies : list (IStrategy (SramAllocator X) (ShapeMultiplier X)))
         (blocks : list BlockConfig) (enableWinograd : bool),
    m_WorkingNodes X
      (FindLinearWorkingNodes X g chain sramAllocator caps strategies blocks
                              enableWinograd) <> [] ->
    exists id d,
      m_MceOperation X
        (FindLinearWorkingNodes X g chain sramAllocator caps strategies blocks
                                enableWinograd) = Some id /\
      m_Kind (g id) = MceOperationNode d /\
      let r := FindLinearWorkingNodes X g chain sramAllocator caps strategies
                                      blocks enableWinograd in
      let tail := g (List.last (m_WorkingNodes X r) id) in
      (m_OutputLocation X r = Dram \/ m_OutputLocation X r = Sram) /\
      (m_OutputLocation X r = Sram ->
       m_RequiredOutputFormat X r = NHWCB /\
       can_stay_in_sram (m_TensorConfig X r) tail) /\
      (stripe_smaller (m_TensorConfig X r) tail /\
       mce_Operation d <> FULLY_CONNECTED ->
       m_RequiredOutputFormat X r = NHWCB) /\
      (m_OutputLocation X r = Dram -> mce_Operation d = FULLY_CONNECTED ->
       m_RequiredOutputFormat X r = NHWC).
Proof.
  intros X g chain alloc caps strategies blocks eW.
  unfold FindLinearWorkingNodes.
  pose proof (fuser_invariant_Walk X g alloc caps strategies blocks eW chain)
    as ((_ & _ & _ & Hkm & _) & (_ & _ & R3 & _) & _ & Hcap).
  intros Hne. destruct (R3 Hne) as (id & d & Hmce & _ & _ & Hder & _).
  exists id, d. split; [apply (Hcap id d Hmce) |].
  split; [apply (Hkm id d Hmce) |].
  cbv zeta. apply (DeriveOutput_location X _ _ d _ _ Hder).
Qed.

Lemma FindLinearWorkingNodes_output_witness :
  exists id d,
    m_MceOperation TestExternals
      (FindLinearWorkingNodes TestExternals graph_conv_ple [1%nat; 2%nat] []
                              test_caps one_stripe [mkBlock 8 8] false)
    = Some id /\
    m_Kind (graph_conv_ple id) = MceOperationNode d /\
    let r := FindLinearWorkingNodes TestExternals graph_conv_ple
               [1%nat; 2%nat] [] test_caps one_stripe [mkBlock 8 8] false in
    let tail := graph_conv_ple (List.last (m_WorkingNodes TestExternals r) id) in
    (m_OutputLocation TestExternals r = Dram \/
     m_OutputLocation TestExternals r = Sram) /\
    (m_OutputLocation TestExternals r = Sram ->
     m_RequiredOutputFormat TestExternals r = NHWCB /\
     can_stay_in_sram (m_TensorConfig TestExternals r) tail) /\
    (stripe_smaller (m_TensorConfig TestExternals r) tail /\
     mce_Operation d <> FULLY_CONNECTED ->
     m_RequiredOutputFormat TestExternals r = NHWCB) /\
    (m_OutputLocation TestExternals r = Dram ->
     mce_Operation d = FULLY_CONNECTED ->
     m_RequiredOutputFormat TestExternals r = NHWC).
Proof.
  apply (FindLinearWorkingNodes_output TestExternals graph_conv_ple
           [1%nat; 2%nat] [] test_caps one_stripe [mkBlock 8 8] false).
  vm_compute. discriminate.
Defined.

(** For a fully-connected MCE operation every valid block config the result
    reports is 8x8. *)
Theorem FindLinearWorkingNodes_fully_connected_blocks :
  forall (X : Externals) (g : Graph (ShapeMultiplier X)) (chain : list NodeId)
         (sramAllocator : SramAllocator X) (caps : HardwareCapabilities)
         (strategies : list (IStrategy (SramAllocator X) (ShapeMultiplier X)))
         (blocks : list BlockConfig) (enableWinograd : bool)
         (id : NodeId) (d : MceOperationData (ShapeMultiplier X))
         (c : BlockConfig),
    m_MceOperation X
      (FindLinearWorkingNodes X g chain sramAllocator caps strategies blocks
                              enableWinograd) = Some id ->
    m_Kind (g id) = MceOperationNode d ->
    mce_Operation d = FULLY_CONNECTED ->
    In c (m_ValidBlockConfigs X
            (FindLinearWorkingNodes X g chain sramAllocator caps strategies
                                    blocks enableWinograd)) ->
    c = mkBlock 8 8.
Proof.
  intros X g chain alloc caps strategies blocks eW id d c.
  unfold FindLinearWorkingNodes.
  pose proof (fuser_invariant_Walk X g alloc caps strategies blocks eW chain)
    as ((_ & _ & _ & Hkm & _) & (_ & R2 & R3 & R4) & _).
  intros Hid Hk Hfc Hin.
  destruct (R2 id Hid) as (d' & Hm & _).
  assert (d' = d) as -> by (pose proof (Hkm id d' Hm); congruence).
  destruct (m_WorkingNodes X (res X (Walk X g alloc caps strategies blocks eW
                                          chain (LoopState_init X))))
    as [| n wn] eqn:Ewn.
  - destruct (R4 eq_refl) as (_ & _ & Hv). rewrite Hv in Hin. destruct Hin.
  - destruct R3 as (id0 & d0 & Hm0 & _ & _ & _ & ple & Hv); [discriminate |].
    rewrite Hm in Hm0. injection Hm0 as <- <-.
    rewrite Hv, FilterValidAndSortBlockConfigs_stages in Hin.
    apply List.filter_In in Hin. destruct Hin as [_ Hallow].
    apply allow_listb_allow_list in Hallow. destruct Hallow as [Hfc8 _].
    apply Hfc8. exact Hfc.
Qed.

Lemma FindLinearWorkingNodes_fully_connected_blocks_witness :
  mkBlock 8 8 = mkBlock 8 8.
Proof.
  apply (FindLinearWorkingNodes_fully_connected_blocks TestExternals graph_fc
           [1%nat] [] test_caps one_stripe all_blocks false 1%nat fc_op
           (mkBlock 8 8)).
  - reflexivity.
  - reflexivity.
  - reflexivity.
  - vm_compute. left. reflexivity.
Defined.

Lemma Analyse_fully_connected_strategies X g alloc caps blocks eW
      (s1 s2 : list (IStrategy (SramAllocator X) (ShapeMultiplier X))) st :
  (forall id d, mceOperation X st = Some (id, d) ->
                mce_Operation d = FULLY_CONNECTED) ->
  Analyse X g alloc caps s1 blocks eW st = Analyse X g alloc caps s2 blocks eW st.
Proof.
  intros Hfc. unfold Analyse.
  destruct (mceOperation X st) as [[id d] |]; [| reflexivity].
  unfold GetValidStrategies. rewrite (Hfc id d eq_refl). reflexivity.
Qed.

(** For a chain whose MCE operations are all fully-connected the caller's
    list of strategies is never consulted: the result is the same for any
    two lists. *)
Theorem FindLinearWorkingNodes_fully_connected_strategies :
  forall (X : Externals) (g : Graph (ShapeMultiplier X)) (chain : list NodeId)
         (sramAllocator : SramAllocator X) (caps : HardwareCapabilities)
         (strategies1 strategies2 :
            list (IStrategy (SramAllocator X) (ShapeMultiplier X)))
         (blocks : list BlockConfig) (enableWinograd : bool),
    (forall n d, In n chain -> m_Kind (g n) = MceOperationNode d ->
                 mce_Operation d = FULLY_CONNECTED) ->
    FindLinearWorkingNodes X g chain sramAllocator caps strategies1 blocks
                           enableWinograd
    = FindLinearWorkingNodes X g chain sramAllocator caps strategies2 blocks
                             enableWinograd.
Proof.
  intros X g chain alloc caps s1 s2 blocks eW Hfc.
  unfold FindLinearWorkingNodes. f_equal.
  assert (forall id d, mceOperation X (LoopState_init X) = Some (id, d) ->
                       mce_Operation d = FULLY_CONNECTED) as Hst
      by (intros id d; discriminate).
  revert Hst Hfc. generalize (LoopState_init X).
  induction chain as [| current rest IH]; intros st Hst Hfc; simpl;
    [reflexivity |].
  destruct (Admit X g st current) as [st' |] eqn:Ha; [| reflexivity].
  assert (forall id d, mceOperation X st' = Some (id, d) ->
                       mce_Operation d = FULLY_CONNECTED) as Hst'.
  { intros id d Hm.
    destruct (Admit_shape X g st current st' Ha) as (_ & _ & _ & Hmce).
    destruct Hmce as [Hsame | (_ & Has & _ & _)].
    - apply (Hst id d). rewrite <- Hsame. exact Hm.
    - rewrite Has in Hm. apply as_MceOperationNode_kind in Hm.
      destruct Hm as [-> Hk]. apply (Hfc current d); [left; reflexivity | exact Hk]. }
  rewrite (Analyse_fully_connected_strategies X g alloc caps blocks eW s1 s2
                                              st' Hst').
  apply IH.
  - intros id d.
    pose proof (Analyse_locals X g alloc caps s2 blocks eW st') as (_ & Hm & _).
    rewrite Hm. apply Hst'.
  - intros n d Hn. apply Hfc. right. exact Hn.
Qed.

Lemma FindLinearWorkingNodes_fully_connected_strategies_witness :
  FindLinearWorkingNodes TestExternals graph_fc [1%nat] [] test_caps
                         one_stripe all_blocks false
  = FindLinearWorkingNodes TestExternals graph_fc [1%nat] [] test_caps
                           [] all_blocks false.
Proof.
  apply (FindLinearWorkingNodes_fully_connected_strategies TestExternals
           graph_fc [1%nat] [] test_caps one_stripe [] all_blocks false).
  intros n d [<- | []]. simpl. intros [= <-]. reflexivity.
Defined.

(** ** Committed passes *)

Lemma last_In {A : Type} (l : list A) (d : A) : l <> [] -> In (List.last l d) l.
Proof.
  induction l as [| x l IH]; [congruence |]. intros _.
  destruct l as [| y l]; [left; reflexivity |].
  right. apply IH. discriminate.
Qed.

Lemma last_default {A : Type} (l : list A) (d d' : A) :
  l <> [] -> List.last l d = List.last l d'.
Proof.
  induction l as [| x l IH]; [congruence |]. intros _.
  destruct l as [| y l]; [reflexivity |]. apply IH. discriminate.
Qed.

Lemma comphint_eqb_eq a b : comphint_eqb a b = true <-> a = b.
Proof. destruct a, b; simpl; split; congruence. Qed.

(** What holds when [CreateGreedily] returns a pass. *)
Lemma CreateGreedily_commit_exits X g caps id strategies blocks eIC eW chain
      alloc p :
  fst (fst (CreateGreedily X g caps id strategies blocks eIC eW chain alloc))
  = Some p ->
  let linearNodes :=
    FindLinearWorkingNodes X g chain alloc caps strategies blocks eW in
  exists mceId,
    let back := List.last (m_WorkingNodes X linearNodes) mceId in
    let front := List.hd mceId (m_WorkingNodes X linearNodes) in
    let tensorConfig := m_TensorConfig X linearNodes in
    m_MceOperation X linearNodes = Some mceId /\
    m_StrategySelected X linearNodes = true /\
    m_WorkingNodes X linearNodes <> [] /\
    (m_RequiredOutputFormat X linearNodes = NONE \/
     m_Format (g back) = m_RequiredOutputFormat X linearNodes) /\
    ~ (dim3 (stripeShape (inputAllocation tensorConfig))
       < dim3 (GetInputShape0 g front) /\
       GetInputFormat0 g front = NHWC) /\
    ~ (GetInputCompressed0 g front = true /\
       (dim2 (stripeShape (inputAllocation tensorConfig))
        < dim2 (GetInputShape0 g front) \/
        dim3 (stripeShape (inputAllocation tensorConfig))
        < dim3 (GetInputShape0 g front))) /\
    pass_Id p = id /\
    pass_Nodes p = m_WorkingNodes X linearNodes /\
    pass_TensorConfig p = tensorConfig /\
    pass_OutputLocation p = m_OutputLocation X linearNodes /\
    pass_Algorithm p = m_Algorithm X linearNodes /\
    pass_SramOffset p = offset (outputAllocation tensorConfig) /\
    (pass_UseIntermediateCompression p = true ->
     eIC = true /\
     m_CompressionHint (g back) = PreferCompressed /\
     m_Format (g back) = NHWCB /\
     m_OutputLocation X linearNodes = Dram /\
     dim2 (m_Shape (g back)) <= dim2 (stripeShape (outputAllocation tensorConfig)) /\
     dim3 (m_Shape (g back)) <= dim3 (stripeShape (outputAllocation tensorConfig))) /\
    snd (CreateGreedily X g caps id strategies blocks eIC eW chain alloc)
    = snd (McePlePass_new X g id (pass_Nodes p) (pass_TensorConfig p)
                          (pass_OutputLocation p)
                          (pass_UseIntermediateCompression p)
                          (pass_Algorithm p) (pass_SramOffset p)).
Proof.
  intros Hsome linearNodes. revert Hsome.
  unfold CreateGreedily. fold linearNodes.
  pose proof (loop_invariant_Walk X g alloc caps strategies blocks eW chain
                _ (loop_invariant_init X g)) as (_ & _ & _ & I4).
  fold (FindLinearWorkingNodes X g chain alloc caps strategies blocks eW) in I4.
  fold linearNodes in I4.
  destruct (m_MceOperation X linearNodes) as [mceId |] eqn:Emce;
    [| simpl; discriminate].
  destruct (negb (cdf_eqb (m_RequiredOutputFormat X linearNodes) NONE) &&
            negb (cdf_eqb (m_Format (g (List.last (m_WorkingNodes X linearNodes) mceId)))
                          (m_RequiredOutputFormat X linearNodes))) eqn:E1;
    [simpl; discriminate |].
  destruct ((is_nil (m_ValidBlockConfigs X linearNodes) ||
             negb (m_StrategySelected X linearNodes)) &&
            alg_eqb (m_Algorithm X linearNodes) Winograd) eqn:E2;
    [simpl; discriminate |].
  destruct (negb (m_StrategySelected X linearNodes)) eqn:E3.
  { destruct (SearchDependencies X g mceId (NodeInSramPredicate X));
      simpl; discriminate. }
  apply negb_false_iff in E3.
  destruct (_ && cdf_eqb _ NHWC) eqn:E4; [simpl; discriminate |].
  destruct (is_nil (m_WorkingNodes X linearNodes)) eqn:E5;
    [simpl; discriminate |].
  destruct (GetInputCompressed0 g _ && _) eqn:E6; [simpl; discriminate |].
  unfold McePlePass_new. simpl. intros [= <-]. simpl.
  exists mceId. cbv zeta.
  split; [reflexivity |]. split; [exact E3 |].
  split; [apply (I4 E3) |].
  split.
  { apply andb_false_iff in E1. destruct E1 as [E1 | E1];
      apply negb_false_iff in E1; apply cdf_eqb_eq in E1; auto. }
  split.
  { intros [Hlt Hf]. apply andb_false_iff in E4. destruct E4 as [E4 | E4].
    - apply Z.ltb_ge in E4. lia.
    - rewrite Hf in E4. discriminate. }
  split.
  { intros [Hc Hlt]. apply andb_false_iff in E6. destruct E6 as [E6 | E6].
    - congruence.
    - apply orb_false_iff in E6. destruct E6 as [Ea Eb].
      apply Z.ltb_ge in Ea. apply Z.ltb_ge in Eb. lia. }
  repeat (split; [reflexivity |]).
  split; [| reflexivity].
  intros Hc. rewrite !andb_true_iff in Hc.
  destruct Hc as [[[[[H1 H2] H3] H4] H5] H6].
  apply comphint_eqb_eq in H2. apply cdf_eqb_eq in H3. apply loc_eqb_eq in H4.
  apply Z.geb_le in H5. apply Z.geb_le in H6. auto 10.
Qed.

Lemma update_same {SM : Type} (g : Graph SM) id n : update g id n id = n.
Proof. unfold update. rewrite Nat.eqb_refl. reflexivity. Qed.

Lemma fold_with_Pass_frame {SM : Type} (id : nat) (nodes : list NodeId)
      (g : Graph SM) :
  let g1 := fold_left (fun g node => update g node (with_Pass (g node) id))
                      nodes g in
  (forall j, ~ In j nodes -> g1 j = g j) /\
  (forall j, In j nodes -> m_Pass (g1 j) = Some id) /\
  (forall j, sans_pass (g1 j) = sans_pass (g j)).
Proof.
  revert g. induction nodes as [| n nodes IH]; intros g; simpl.
  - split; [reflexivity |]. split; [intros j [] | reflexivity].
  - destruct (IH (update g n (with_Pass (g n) id))) as (F1 & F2 & F3).
    split; [| split].
    + intros j Hj. rewrite F1 by tauto. apply update_other. intros ->. tauto.
    + intros j Hj. destruct (in_dec Nat.eq_dec j nodes) as [Hin | Hnin].
      * apply F2. exact Hin.
      * destruct Hj as [<- | Hj]; [| contradiction].
        rewrite F1 by exact Hnin. rewrite update_same. reflexivity.
    + intros j. rewrite F3. unfold update.
      destruct (Nat.eqb_spec j n) as [-> |]; reflexivity.
Qed.

Lemma SetAlgorithm_frame {SM : Type} (g : Graph SM) m a :
  (forall j, j <> m -> SetAlgorithm g m a j = g j) /\
  (forall j, m_Pass (SetAlgorithm g m a j) = m_Pass (g j)) /\
  (forall j, m_Location (SetAlgorithm g m a j) = m_Location (g j) /\
             m_OutputSramOffset (SetAlgorithm g m a j) = m_OutputSramOffset (g j) /\
             m_Compressed (SetAlgorithm g m a j) = m_Compressed (g j)) /\
  (forall j, sans_pass (SetAlgorithm g m a j) = sans_pass (g j)).
Proof.
  unfold SetAlgorithm. destruct (m_Kind (g m)) eqn:E;
    try (repeat split; reflexivity).
  split; [intros j Hj; apply update_other; exact Hj |].
  split; [| split]; intros j; unfold update;
    destruct (Nat.eqb_spec j m) as [-> |]; try reflexivity;
    try (repeat split; reflexivity).
  unfold sans_pass. simpl. rewrite E. reflexivity.
Qed.

(** The constructor of the pass stamps exactly the nodes of the pass. *)
Lemma McePlePass_new_frame X g id nodes tc loc compressed alg off :
  let g' := snd (McePlePass_new X g id nodes tc loc compressed alg off) in
  (forall j, ~ In j nodes -> g' j = g j) /\
  (forall j, In j nodes -> m_Pass (g' j) = Some id) /\
  (forall j, sans_pass (g' j) = sans_pass (g j)) /\
  (forall d, nodes <> [] ->
             m_Location (g' (List.last nodes d)) = loc /\
             m_OutputSramOffset (g' (List.last nodes d)) = off /\
             m_Compressed (g' (List.last nodes d)) = compressed).
Proof.
  unfold McePlePass_new. simpl.
  pose proof (fold_with_Pass_frame id nodes g) as (F1 & F2 & F3).
  set (g1 := fold_left _ nodes g) in *.
  set (g2 := match nodes with
             | [] => g1
             | n :: _ => update g1 (List.last nodes n)
                           (with_Output (g1 (List.last nodes n)) off loc compressed)
             end).
  assert ((forall j, ~ In j nodes -> g2 j = g j) /\
          (forall j, In j nodes -> m_Pass (g2 j) = Some id) /\
          (forall j, sans_pass (g2 j) = sans_pass (g j)) /\
          (forall d, nodes <> [] ->
                     m_Location (g2 (List.last nodes d)) = loc /\
                     m_OutputSramOffset (g2 (List.last nodes d)) = off /\
                     m_Compressed (g2 (List.last nodes d)) = compressed))
    as (G1 & G2 & G3 & G4).
  { subst g2. destruct nodes as [| n nodes'] eqn:En.
    - split; [exact F1 |]. split; [exact F2 |]. split; [exact F3 | congruence].
    - rewrite <- En in *.
      assert (nodes <> []) as Hne by (rewrite En; discriminate).
      pose proof (last_In nodes n Hne) as Hlast.
      split; [| split; [| split]].
      + intros j Hj. rewrite update_other; [apply F1; exact Hj |].
        intros ->. contradiction.
      + intros j Hj. unfold update.
        destruct (Nat.eqb_spec j (List.last nodes n)) as [-> |];
          [simpl; apply F2; exact Hlast | apply F2; exact Hj].
      + intros j. unfold update.
        destruct (Nat.eqb_spec j (List.last nodes n)) as [-> |];
          [rewrite <- F3; reflexivity | apply F3].
      + intros d _. rewrite (last_default nodes d n Hne), update_same.
        simpl. repeat split; reflexivity. }
  destruct (first_MceOperationNode X g2 nodes) as [m |] eqn:Ef.
  - pose proof (SetAlgorithm_frame g2 m alg) as (S1 & S2 & S3 & S4).
    unfold first_MceOperationNode in Ef. apply List.find_some in Ef.
    destruct Ef as [Hm _].
    split; [| split; [| split]].
    + intros j Hj. rewrite S1; [apply G1; exact Hj |]. intros ->. contradiction.
    + intros j Hj. rewrite S2. apply G2. exact Hj.
    + intros j. rewrite S4. apply G3.
    + intros d Hne. destruct (G4 d Hne) as (L1 & L2 & L3).
      destruct (S3 (List.last nodes d)) as (T1 & T2 & T3).
      rewrite T1, T2, T3. repeat split; assumption.
  - split; [exact G1 |]. split; [exact G2 |]. split; [exact G3 | exact G4].
Qed.

(** A committed pass carries the fuser's result: its nodes are the working
    nodes (not empty, with the MCE operation among them), a strategy was
    selected, the output location is Dram or Sram, the algorithm is Direct or
    Winograd and the SRAM offset handed on is the offset of the output
    allocation. *)
Theorem CreateGreedily_commit_record :
  forall (X : Externals) (g : Graph (ShapeMultiplier X))
         (caps : HardwareCapabilities) (id : nat)
         (strategies : list (IStrategy (SramAllocator X) (ShapeMultiplier X)))
         (blocks : list BlockConfig)
         (enableIntermediateCompression enableWinograd : bool)
         (chain : list NodeId) (sramAllocator : SramAllocator X)
         (p : McePlePass),
    fst (fst (CreateGreedily X g caps id strategies blocks
                             enableIntermediateCompression enableWinograd
                             chain sramAllocator)) = Some p ->
    let r := FindLinearWorkingNodes X g chain sramAllocator caps strategies
                                    blocks enableWinograd in
    pass_Id p = id /\
    pass_Nodes p = m_WorkingNodes X r /\
    pass_Nodes p <> [] /\
    (exists mceId, m_MceOperation X r = Some mceId /\ In mceId (pass_Nodes p)) /\
    m_StrategySelected X r = true /\
    pass_TensorConfig p = m_TensorConfig X r /\
    (pass_OutputLocation p = Dram \/ pass_OutputLocation p = Sram) /\
    (pass_Algorithm p = Direct \/ pass_Algorithm p = Winograd) /\
    pass_SramOffset p = offset (outputAllocation (pass_TensorConfig p)).
Proof.
  intros X g caps id strategies blocks eIC eW chain alloc p Hsome r.
  destruct (CreateGreedily_commit_exits X g caps id strategies blocks eIC eW
              chain alloc p Hsome)
    as (mceId & Hmce & Hsel & Hne & _ & _ & _ & Hid & Hn & Htc & Hloc & Halg
        & Hoff & _).
  fold r in Hmce, Hsel, Hne, Hn, Htc, Hloc, Halg, Hoff.
  pose proof (fuser_invariant_Walk X g alloc caps strategies blocks eW chain)
    as (_ & (_ & R2 & R3 & _) & _).
  fold (FindLinearWorkingNodes X g chain alloc caps strategies blocks eW)
    in R2, R3.
  fold r in R2, R3.
  destruct (R3 Hne) as (id0 & d0 & Hm0 & _ & Hin & Hder & _).
  destruct (R2 mceId Hmce) as (d & Hm & Ha).
  rewrite Hm in Hm0. injection Hm0 as <- <-.
  split; [exact Hid |]. split; [exact Hn |].
  split; [rewrite Hn; exact Hne |].
  split; [exists mceId; rewrite Hn; auto |].
  split; [exact Hsel |]. split; [exact Htc |].
  split; [rewrite Hloc; apply (DeriveOutput_location X _ _ d _ _ Hder) |].
  split; [| rewrite Htc; exact Hoff].
  rewrite Halg, Ha. unfold SelectAlgorithm, ConvAlgorithm.
  destruct (_ && _); [destruct (_ <? _) |]; auto.
Qed.

Lemma CreateGreedily_commit_record_witness :
  let r := FindLinearWorkingNodes TestExternals graph_conv_ple [1%nat] [42]
             test_caps one_stripe [mkBlock 8 8] false in
  pass_Id (committed_conv_pass false) = 7%nat /\
  pass_Nodes (committed_conv_pass false) = m_WorkingNodes TestExternals r /\
  pass_Nodes (committed_conv_pass false) <> [] /\
  (exists mceId, m_MceOperation TestExternals r = Some mceId /\
                 In mceId (pass_Nodes (committed_conv_pass false))) /\
  m_StrategySelected TestExternals r = true /\
  pass_TensorConfig (committed_conv_pass false)
  = m_TensorConfig TestExternals r /\
  (pass_OutputLocation (committed_conv_pass false) = Dram \/
   pass_OutputLocation (committed_conv_pass false) = Sram) /\
  (pass_Algorithm (committed_conv_pass false) = Direct \/
   pass_Algorithm (committed_conv_pass false) = Winograd) /\
  pass_SramOffset (committed_conv_pass false)
  = offset (outputAllocation (pass_TensorConfig (committed_conv_pass false))).
Proof.
  apply (CreateGreedily_commit_record TestExternals graph_conv_ple test_caps
           7%nat one_stripe [mkBlock 8 8] false false [1%nat] [42]
           (committed_conv_pass false)).
  reflexivity.
Defined.

(** A pass is committed only with an input the firmware can read: an NHWC
    input is taken in stripes of full depth, and a compressed input in
    stripes of full width and depth. *)
Theorem CreateGreedily_commit_input :
  forall (X : Externals) (g : Graph (ShapeMultiplier X))
         (caps : HardwareCapabilities) (id : nat)
         (strategies : list (IStrategy (SramAllocator X) (ShapeMultiplier X)))
         (blocks : list BlockConfig)
         (enableIntermediateCompression enableWinograd : bool)
         (chain : list NodeId) (sramAllocator : SramAllocator X)
         (p : McePlePass),
    fst (fst (CreateGreedily X g caps id strategies blocks
                             enableIntermediateCompression enableWinograd
                             chain sramAllocator)) = Some p ->
    exists front rest,
      pass_Nodes p = front :: rest /\
      (GetInputFormat0 g front = NHWC ->
       dim3 (GetInputShape0 g front)
       <= dim3 (stripeShape (inputAllocation (pass_TensorConfig p)))) /\
      (GetInputCompressed0 g front = true ->
       dim2 (GetInputShape0 g front)
       <= dim2 (stripeShape (inputAllocation (pass_TensorConfig p))) /\
       dim3 (GetInputShape0 g front)
       <= dim3 (stripeShape (inputAllocation (pass_TensorConfig p)))).
Proof.
  intros X g caps id strategies blocks eIC eW chain alloc p Hsome.
  destruct (CreateGreedily_commit_exits X g caps id strategies blocks eIC eW
              chain alloc p Hsome)
    as (mceId & _ & _ & Hne & _ & Hnhwc & Hcomp & _ & Hn & Htc & _).
  rewrite Htc, Hn.
  destruct (m_WorkingNodes X
              (FindLinearWorkingNodes X g chain alloc caps strategies blocks eW))
    as [| front rest]; [congruence |].
  simpl in Hnhwc, Hcomp. exists front, rest. split; [reflexivity |].
  split.
  - intros Hf. apply Z.nlt_ge. intros Hlt. apply Hnhwc. split; assumption.
  - intros Hc. split; apply Z.nlt_ge; intros Hlt; apply Hcomp;
      (split; [exact Hc | auto]).
Qed.

Lemma CreateGreedily_commit_input_witness :
  exists front rest,
    pass_Nodes (committed_conv_pass false) = front :: rest /\
    (GetInputFormat0 graph_conv_ple front = NHWC ->
     dim3 (GetInputShape0 graph_conv_ple front)
     <= dim3 (stripeShape (inputAllocation
                             (pass_TensorConfig (committed_conv_pass false))))) /\
    (GetInputCompressed0 graph_conv_ple front = true ->
     dim2 (GetInputShape0 graph_conv_ple front)
     <= dim2 (stripeShape (inputAllocation
                             (pass_TensorConfig (committed_conv_pass false)))) /\
     dim3 (GetInputShape0 graph_conv_ple front)
     <= dim3 (stripeShape (inputAllocation
                             (pass_TensorConfig (committed_conv_pass false))))).
Proof.
  apply (CreateGreedily_commit_input TestExternals graph_conv_ple test_caps
           7%nat one_stripe [mkBlock 8 8] false false [1%nat] [42]
           (committed_conv_pass false)).
  reflexivity.
Defined.

(** A pass is committed only with an output the firmware can write: an
    output stripe smaller than the tensor on W or C of a non-fully-connected
    MCE goes with an NHWCB last node, an output kept in SRAM goes with an
    NHWCB last node planned with strategy S3, and a fully-connected MCE
    written to DRAM goes with an NHWC last node. *)
Theorem CreateGreedily_commit_output :
  forall (X : Externals) (g : Graph (ShapeMultiplier X))
         (caps : HardwareCapabilities) (id : nat)
         (strategies : list (IStrategy (SramAllocator X) (ShapeMultiplier X)))
         (blocks : list BlockConfig)
         (enableIntermediateCompression enableWinograd : bool)
         (chain : list NodeId) (sramAllocator : SramAllocator X)
         (p : McePlePass),
    fst (fst (CreateGreedily X g caps id strategies blocks
                             enableIntermediateCompression enableWinograd
                             chain sramAllocator)) = Some p ->
    exists mceId d,
      In mceId (pass_Nodes p) /\
      m_Kind (g mceId) = MceOperationNode d /\
      let tail := g (List.last (pass_Nodes p) mceId) in
      (stripe_smaller (pass_TensorConfig p) tail /\
       mce_Operation d <> FULLY_CONNECTED ->
       m_Format tail = NHWCB) /\
      (pass_OutputLocation p = Sram ->
       m_Format tail = NHWCB /\ strategy (pass_TensorConfig p) = STRATEGY_3 /\
       m_LocationHint tail <> RequireDram) /\
      (pass_OutputLocation p = Dram -> mce_Operation d = FULLY_CONNECTED ->
       m_Format tail = NHWC).
Proof.
  intros X g caps id strategies blocks eIC eW chain alloc p Hsome.
  destruct (CreateGreedily_commit_exits X g caps id strategies blocks eIC eW
              chain alloc p Hsome)
    as (mceId & Hmce & _ & Hne & Hfmt & _ & _ & _ & Hn & Htc & Hloc & _).
  pose proof (fuser_invariant_Walk X g alloc caps strategies blocks eW chain)
    as ((_ & _ & _ & Hkm & _) & (_ & R2 & R3 & _) & _).
  fold (FindLinearWorkingNodes X g chain alloc caps strategies blocks eW)
    in R2, R3.
  destruct (R3 Hne) as (id0 & d0 & Hm0 & _ & Hin & Hder & _).
  destruct (R2 mceId Hmce) as (d & Hm & _).
  rewrite Hm in Hm0. injection Hm0 as <- <-.
  pose proof (DeriveOutput_location X _ _ d _ _ Hder)
    as (_ & Hsram & Hsmall & Hfc).
  exists mceId, d. rewrite Hn, Htc, Hloc.
  split; [exact Hin |]. split; [apply (Hkm mceId d Hm) |].
  cbv zeta. split; [| split].
  - intros Hs. pose proof (Hsmall Hs) as Hreq.
    destruct Hfmt as [Hc | Hc]; congruence.
  - intros Hl. destruct (Hsram Hl) as (Hreq & Hs3 & Hf & Hh).
    repeat split; assumption.
  - intros Hl Hop. pose proof (Hfc Hl Hop) as Hreq.
    destruct Hfmt as [Hc | Hc]; congruence.
Qed.

Lemma CreateGreedily_commit_output_witness :
  exists mceId d,
    In mceId (pass_Nodes (committed_conv_pass false)) /\
    m_Kind (graph_conv_ple mceId) = MceOperationNode d /\
    let tail := graph_conv_ple
                  (List.last (pass_Nodes (committed_conv_pass false)) mceId) in
    (stripe_smaller (pass_TensorConfig (committed_conv_pass false)) tail /\
     mce_Operation d <> FULLY_CONNECTED ->
     m_Format tail = NHWCB) /\
    (pass_OutputLocation (committed_conv_pass false) = Sram ->
     m_Format tail = NHWCB /\
     strategy (pass_TensorConfig (committed_conv_pass false)) = STRATEGY_3 /\
     m_LocationHint tail <> RequireDram) /\
    (pass_OutputLocation (committed_conv_pass false) = Dram ->
     mce_Operation d = FULLY_CONNECTED ->
     m_Format tail = NHWC).
Proof.
  apply (CreateGreedily_commit_output TestExternals graph_conv_ple test_caps
           7%nat one_stripe [mkBlock 8 8] false false [1%nat] [42]
           (committed_conv_pass false)).
  reflexivity.
Defined.

(** Intermediate compression is used only when it is enabled, the last node
    prefers compression and is NHWCB, the output goes to DRAM and the output
    stripe covers the full width and depth of the tensor. *)
Theorem CreateGreedily_commit_compression :
  forall (X : Externals) (g : Graph (ShapeMultiplier X))
         (caps : HardwareCapabilities) (id : nat)
         (strategies : list (IStrategy (SramAllocator X) (ShapeMultiplier X)))
         (blocks : list BlockConfig)
         (enableIntermediateCompression enableWinograd : bool)
         (chain : list NodeId) (sramAllocator : SramAllocator X)
         (p : McePlePass),
    fst (fst (CreateGreedily X g caps id strategies blocks
                             enableIntermediateCompression enableWinograd
                             chain sramAllocator)) = Some p ->
    pass_UseIntermediateCompression p = true ->
    exists tail rest,
      rev (pass_Nodes p) = tail :: rest /\
      enableIntermediateCompression = true /\
      m_CompressionHint (g tail) = PreferCompressed /\
      m_Format (g tail) = NHWCB /\
      pass_OutputLocation p = Dram /\
      dim2 (m_Shape (g tail))
      <= dim2 (stripeShape (outputAllocation (pass_TensorConfig p))) /\
      dim3 (m_Shape (g tail))
      <= dim3 (stripeShape (outputAllocation (pass_TensorConfig p))).
Proof.
  intros X g caps id strategies blocks eIC eW chain alloc p Hsome Hc.
  destruct (CreateGreedily_commit_exits X g caps id strategies blocks eIC eW
              chain alloc p Hsome)
    as (mceId & _ & _ & Hne & _ & _ & _ & _ & Hn & Htc & Hloc & _ & _ & Hcomp
        & _).
  destruct (Hcomp Hc) as (H1 & H2 & H3 & H4 & H5 & H6).
  rewrite Hn, Htc, Hloc.
  destruct (exists_last Hne) as (init & tail & Hwn).
  rewrite Hwn in *. rewrite last_last in H2, H3, H5, H6.
  exists tail, (rev init). rewrite rev_unit.
  repeat split; assumption.
Qed.

Lemma CreateGreedily_commit_compression_witness :
  exists tail rest,
    rev (pass_Nodes (committed_conv_pass true)) = tail :: rest /\
    true = true /\
    m_CompressionHint (graph_conv_ple tail) = PreferCompressed /\
    m_Format (graph_conv_ple tail) = NHWCB /\
    pass_OutputLocation (committed_conv_pass true) = Dram /\
    dim2 (m_Shape (graph_conv_ple tail))
    <= dim2 (stripeShape (outputAllocation
                            (pass_TensorConfig (committed_conv_pass true)))) /\
    dim3 (m_Shape (graph_conv_ple tail))
    <= dim3 (stripeShape (outputAllocation
                            (pass_TensorConfig (committed_conv_pass true)))).
Proof.
  apply (CreateGreedily_commit_compression TestExternals graph_conv_ple
           test_caps 7%nat one_stripe [mkBlock 8 8] true false [1%nat] [42]
           (committed_conv_pass true)).
  - reflexivity.
  - reflexivity.
Defined.

(** Committing a pass writes only on the nodes of the pass: every other node
    is as before, every node of the pass is stamped with the pass, the last
    node carries the output location, SRAM offset and compression flag of
    the pass, and no node's shape, format, input, hints or fix-graph hints
    change. *)
Theorem CreateGreedily_commit_frame :
  forall (X : Externals) (g : Graph (ShapeMultiplier X))
         (caps : HardwareCapabilities) (id : nat)
         (strategies : list (IStrategy (SramAllocator X) (ShapeMultiplier X)))
         (blocks : list BlockConfig)
         (enableIntermediateCompression enableWinograd : bool)
         (chain : list NodeId) (sramAllocator : SramAllocator X)
         (p : McePlePass),
    fst (fst (CreateGreedily X g caps id strategies blocks
                             enableIntermediateCompression enableWinograd
                             chain sramAllocator)) = Some p ->
    let g' := snd (CreateGreedily X g caps id strategies blocks
                                  enableIntermediateCompression enableWinograd
                                  chain sramAllocator) in
    (forall j, ~ In j (pass_Nodes p) -> g' j = g j) /\
    (forall j, In j (pass_Nodes p) -> m_Pass (g' j) = Some id) /\
    (forall j, sans_pass (g' j) = sans_pass (g j)) /\
    (forall d,
        m_Location (g' (List.last (pass_Nodes p) d)) = pass_OutputLocation p /\
        m_OutputSramOffset (g' (List.last (pass_Nodes p) d)) = pass_SramOffset p /\
        m_Compressed (g' (List.last (pass_Nodes p) d))
        = pass_UseIntermediateCompression p).
Proof.
  intros X g caps id strategies blocks eIC eW chain alloc p Hsome.
  destruct (CreateGreedily_commit_exits X g caps id strategies blocks eIC eW
              chain alloc p Hsome)
    as (mceId & _ & _ & Hne & _ & _ & _ & _ & Hn & _ & _ & _ & _ & _ & Hg).
  cbv zeta. rewrite Hg.
  pose proof (McePlePass_new_frame X g id (pass_Nodes p) (pass_TensorConfig p)
                (pass_OutputLocation p) (pass_UseIntermediateCompression p)
                (pass_Algorithm p) (pass_SramOffset p)) as (F1 & F2 & F3 & F4).
  split; [exact F1 |]. split; [exact F2 |]. split; [exact F3 |].
  intros d. apply F4. rewrite Hn. exact Hne.
Qed.

Lemma CreateGreedily_commit_frame_witness :
  let g' := snd (CreateGreedily TestExternals graph_conv_ple test_caps 7
                                one_stripe [mkBlock 8 8] false false
                                [1%nat] [42]) in
  (forall j, ~ In j (pass_Nodes (committed_conv_pass false)) ->
             g' j = graph_conv_ple j) /\
  (forall j, In j (pass_Nodes (committed_conv_pass false)) ->
             m_Pass (g' j) = Some 7%nat) /\
  (forall j, sans_pass (g' j) = sans_pass (graph_conv_ple j)) /\
  (forall d,
      m_Location (g' (List.last (pass_Nodes (committed_conv_pass false)) d))
      = pass_OutputLocation (committed_conv_pass false) /\
      m_OutputSramOffset
        (g' (List.last (pass_Nodes (committed_conv_pass false)) d))
      = pass_SramOffset (committed_conv_pass false) /\
      m_Compressed (g' (List.last (pass_Nodes (committed_conv_pass false)) d))
      = pass_UseIntermediateCompression (committed_conv_pass false)).
Proof.
  apply (CreateGreedily_commit_frame TestExternals graph_conv_ple test_caps
           7%nat one_stripe [mkBlock 8 8] false false [1%nat] [42]
           (committed_conv_pass false)).
  reflexivity.
Defined.

(** ** The constructor classifies what the fuser admits *)

Lemma classify_nodes_app X g l1 l2 pm :
  classify_nodes X g (l1 ++ l2) pm =
  match classify_nodes X g l1 pm with
  | Some pm' => classify_nodes X g l2 pm'
  | None => None
  end.
Proof.
  revert pm. induction l1 as [| n l1 IH]; intros pm; simpl; [reflexivity |].
  destruct (classify_node X g pm n); [apply IH | reflexivity].
Qed.

Lemma classification_Admission X g st current st' :
  (mceOperation X st = None -> res X st = LinearNodesOutput_default X) ->
  classification_invariant X g st ->
  Admission X g st current st' ->
  classification_invariant X g st'.
Proof.
  intros R1 ((pm & Hc & Hm & He & Hp) & (pw & Hw & Hwm)) Ha.
  unfold classification_invariant, McePlePass_members in *.
  destruct Ha;
    unfold push_back, set_extractSubtensorNode, set_mceOperation,
      set_fuseOnlyPle, set_foundRequantizes, set_foundPostConversions; simpl;
    try (split;
         [ rewrite classify_nodes_app, Hc; simpl;
           unfold classify_node, is_FormatConversionNode,
             is_ExtractSubtensorNode, is_MceOperationNode,
             is_McePostProcessOperationNode, is_FuseOnlyPleOperationNode,
             is_RequantizeNode, as_ExtractSubtensorNode, as_MceOperationNode,
             as_FuseOnlyPleOperationNode;
           repeat match goal with
                  | H : m_Kind (g current) = _ |- _ => rewrite H
                  end;
           rewrite Hm, ?He;
           repeat match goal with
                  | H : mceOperation X st = None |- _ => rewrite H in *
                  | H : extractSubtensorNode X st = None |- _ => rewrite H in *
                  | H : mceOperation X st <> None |- _ =>
                      destruct (mceOperation X st) as [[? ?] |];
                      [clear H | congruence]
                  end;
           simpl; eexists; split; [reflexivity |]; simpl;
           repeat split; auto
         | ]).
  all: try (exists pw; split; [exact Hw | exact Hwm]).
  - (* the MCE operation is captured: there are no working nodes yet *)
    exists pw. split; [exact Hw |]. intros Hne. exfalso. apply Hne.
    rewrite (R1 H). reflexivity.
  - (* a requantize that is not pushed *)
    split; [exists pm; auto | exists pw; auto].
Qed.

Lemma classification_Analyse X g alloc caps strategies blocks eW st :
  classification_invariant X g st ->
  (forall id d, mceOperation X st = Some (id, d) ->
                currentSetOfNodes X st <> []) ->
  classification_invariant X g
    (Analyse X g alloc caps strategies blocks eW st).
Proof.
  intros ((pm & Hc & Hm & He & Hp) & (pw & Hw & Hwm)) Hne.
  pose proof (Analyse_locals X g alloc caps strategies blocks eW st)
    as (HeA & HmA & HpA & _ & _ & HsA).
  unfold classification_invariant. rewrite HeA, HmA, HpA, HsA.
  split; [exists pm; auto |].
  destruct (mceOperation X st) as [[id d] |] eqn:Em.
  - destruct (Analyse_cases X g alloc caps strategies blocks eW st id d Em)
      as (sel & tc & al & ->).
    destruct sel; simpl.
    + exists pm. split; [exact Hc |]. intros _. split; [exact Hm |].
      rewrite Hm. discriminate.
    + exists pw. split; [exact Hw | exact Hwm].
  - rewrite (Analyse_no_mce X g alloc caps strategies blocks eW st Em).
    exists pw. split; [exact Hw | exact Hwm].
Qed.

Lemma classification_invariant_Walk X g alloc caps strategies blocks eW chain :
  classification_invariant X g
    (Walk X g alloc caps strategies blocks eW chain (LoopState_init X)).
Proof.
  pose proof (Walk_preserves X g alloc caps strategies blocks eW
                (fun st => fuser_invariant X g caps blocks eW st /\
                           classification_invariant X g st)) as HW.
  apply HW.
  - intros st current st' [Hf Hc] Ha.
    pose proof Hf as (Hmem & Hres & Hloop & Hcap).
    pose proof (Admit_Admission X g st current st' Ha) as Hadm.
    pose proof (members_invariant_Admission X g st current st' Hmem Hadm)
      as Hmem1.
    pose proof (result_invariant_Admission X g caps blocks eW st current st'
                  Hres Hadm) as Hres1.
    destruct (result_invariant_Analyse X g alloc caps strategies blocks eW st'
                Hmem1 Hres1) as [Hres' Hcap'].
    split.
    + split; [apply (members_invariant_step X g alloc caps strategies blocks
                       eW st current st' Hmem Ha) |].
      split; [exact Hres' |].
      split; [apply (loop_invariant_step X g alloc caps strategies blocks eW
                       st current st' Hloop Ha) |].
      pose proof (Analyse_locals X g alloc caps strategies blocks eW st')
        as (_ & HmA & _).
      rewrite HmA. exact Hcap'.
    + apply classification_Analyse.
      * apply (classification_Admission X g st current st');
          [apply Hres | exact Hc | exact Hadm].
      * intros id d Hm. destruct Hmem1 as (Hf1 & _).
        rewrite Hm in Hf1. simpl in Hf1. intros Hnil. rewrite Hnil in Hf1.
        discriminate.
  - split; [apply fuser_invariant_init |].
    unfold classification_invariant, McePlePass_members, LoopState_init,
      LinearNodesOutput_default; simpl.
    split; exists PassMembers_init; repeat split; congruence.
Qed.

(** The constructor never meets an unexpected node on the working nodes the
    fuser reports, and the MCE operation it picks is the one the fuser
    captured, so the algorithm is written on an existing node. *)
Theorem McePlePass_members_of_working_nodes :
  forall (X : Externals) (g : Graph (ShapeMultiplier X)) (chain : list NodeId)
         (sramAllocator : SramAllocator X) (caps : HardwareCapabilities)
         (strategies : list (IStrategy (SramAllocator X) (ShapeMultiplier X)))
         (blocks : list BlockConfig) (enableWinograd : bool),
    exists pm,
      McePlePass_members X g
        (m_WorkingNodes X
           (FindLinearWorkingNodes X g chain sramAllocator caps strategies
                                   blocks enableWinograd)) = Some pm /\
      (m_WorkingNodes X
         (FindLinearWorkingNodes X g chain sramAllocator caps strategies
                                 blocks enableWinograd) <> [] ->
       pm_MceOperation pm <> None /\
       pm_MceOperation pm
       = m_MceOperation X
           (FindLinearWorkingNodes X g chain sramAllocator caps strategies
                                   blocks enableWinograd)).
Proof.
  intros X g chain alloc caps strategies blocks eW.
  unfold FindLinearWorkingNodes.
  pose proof (classification_invariant_Walk X g alloc caps strategies blocks
                eW chain) as (_ & (pw & Hw & Hwm)).
  pose proof (fuser_invariant_Walk X g alloc caps strategies blocks eW chain)
    as (_ & _ & _ & Hcap).
  exists pw. split; [exact Hw |]. intros Hne.
  destruct (Hwm Hne) as [Hm Hnn]. split; [exact Hnn |].
  rewrite Hm in *.
  destruct (mceOperation X (Walk X g alloc caps strategies blocks eW chain
                                 (LoopState_init X)))
    as [[id d] |] eqn:Em; [| simpl in Hnn; congruence].
  simpl. symmetry.
  first [apply (Hcap id d Em) | apply (Hcap id d eq_refl)].
Qed.

Example members_of_conv_maxpool_requantize :
  McePlePass_members TestExternals graph_conv_maxpool [1%nat; 2%nat; 3%nat]
  = Some (mkPassMembers [] None (Some 1%nat) [] (Some 2%nat) [] [3%nat]).
Proof. reflexivity. Qed.

(** Two MCE operations in one list trip the assertion. *)
Example members_assertion :
  McePlePass_members TestExternals graph_conv_ple [1%nat; 1%nat] = None.
Proof. reflexivity. Qed.

(** ** Weight shapes under Winograd *)

Lemma RoundUpToNearestMultiple_3 x :
  0 <= x <= UINT32_MAX - 2 ->
  RoundUpToNearestMultiple x 3 mod 3 = 0 /\
  x <= RoundUpToNearestMultiple x 3 < x + 3.
Proof.
  unfold UINT32_MAX, RoundUpToNearestMultiple, DivRoundUp, mul32, wrap32.
  intros Hx.
  assert (0 <= (x + 3 - 1) / 3 * 3 < 4294967296) as Hr
      by (Z.div_mod_to_equations; lia).
  rewrite (Z.mod_small _ _ Hr). Z.div_mod_to_equations. lia.
Qed.

Lemma RoundUpToNearestMultiple_3_fixed x :
  0 <= x <= UINT32_MAX -> x mod 3 = 0 -> RoundUpToNearestMultiple x 3 = x.
Proof.
  unfold UINT32_MAX, RoundUpToNearestMultiple, DivRoundUp, mul32, wrap32.
  intros Hx Hm.
  assert ((x + 3 - 1) / 3 * 3 = x) as -> by (Z.div_mod_to_equations; lia).
  apply Z.mod_small. lia.
Qed.

(** Under Winograd the weight shape handed to strategy selection has its
    first two extents equal to 1 or rounded up to the next multiple of 3;
    the other two extents are the original ones. *)
Theorem EffectiveWeightsShape_Winograd :
  forall (weightsShape : TensorShape),
    0 <= dim0 weightsShape <= UINT32_MAX - 2 ->
    0 <= dim1 weightsShape <= UINT32_MAX - 2 ->
    let s := EffectiveWeightsShape Winograd weightsShape in
    (dim0 weightsShape = 1 /\ dim0 s = 1 \/
     dim0 weightsShape <> 1 /\ dim0 s mod 3 = 0 /\
     dim0 weightsShape <= dim0 s < dim0 weightsShape + 3) /\
    (dim1 weightsShape = 1 /\ dim1 s = 1 \/
     dim1 weightsShape <> 1 /\ dim1 s mod 3 = 0 /\
     dim1 weightsShape <= dim1 s < dim1 weightsShape + 3) /\
    dim2 s = dim2 weightsShape /\ dim3 s = dim3 weightsShape.
Proof.
  intros [d0 d1 d2 d3]; simpl. intros H0 H1.
  unfold EffectiveWeightsShape, set_dim0, set_dim1; simpl.
  pose proof (RoundUpToNearestMultiple_3 d0 H0) as R0.
  pose proof (RoundUpToNearestMultiple_3 d1 H1) as R1.
  destruct (Z.eq_dec d0 1) as [-> | N0];
    destruct (Z.eq_dec d1 1) as [-> | N1];
    rewrite ?Z.eqb_refl, ?(proj2 (Z.eqb_neq d0 1) N0),
            ?(proj2 (Z.eqb_neq d1 1) N1); simpl;
    rewrite ?Z.eqb_refl, ?(proj2 (Z.eqb_neq d0 1) N0),
            ?(proj2 (Z.eqb_neq d1 1) N1); simpl;
    (split; [| split; [| split; reflexivity]]);
    first [ left; split; reflexivity
          | right; split; [assumption | split; [apply R0 | apply R0]]
          | right; split; [assumption | split; [apply R1 | apply R1]] ].
Qed.

Lemma EffectiveWeightsShape_Winograd_witness :
  let s := EffectiveWeightsShape Winograd (mkShape 1 5 16 16) in
  (dim0 (mkShape 1 5 16 16) = 1 /\ dim0 s = 1 \/
   dim0 (mkShape 1 5 16 16) <> 1 /\ dim0 s mod 3 = 0 /\
   dim0 (mkShape 1 5 16 16) <= dim0 s < dim0 (mkShape 1 5 16 16) + 3) /\
  (dim1 (mkShape 1 5 16 16) = 1 /\ dim1 s = 1 \/
   dim1 (mkShape 1 5 16 16) <> 1 /\ dim1 s mod 3 = 0 /\
   dim1 (mkShape 1 5 16 16) <= dim1 s < dim1 (mkShape 1 5 16 16) + 3) /\
  dim2 s = dim2 (mkShape 1 5 16 16) /\ dim3 s = dim3 (mkShape 1 5 16 16).
Proof.
  apply (EffectiveWeightsShape_Winograd (mkShape 1 5 16 16)).
  - unfold UINT32_MAX. simpl. lia.
  - unfold UINT32_MAX. simpl. lia.
Defined.

(** For weights that pass its assertion, [Generate] writes to the command
    stream the weight shape that strategy selection was given, whatever the
    algorithm: an extent that is already a multiple of 3 is left alone by
    the one and rounded to itself by the other. *)
Theorem GenerateWeightsShape_agrees :
  forall (algorithm : CompilerMceAlgorithm) (weightsInfo : TensorInfo),
    0 <= dim0 (m_Dimensions weightsInfo) <= UINT32_MAX - 2 ->
    0 <= dim1 (m_Dimensions weightsInfo) <= UINT32_MAX - 2 ->
    (algorithm = Winograd -> m_DataFormat weightsInfo <> DF_HWIM) ->
    GenerateWeightsShape algorithm weightsInfo
    = Returns (EffectiveWeightsShape algorithm (m_Dimensions weightsInfo)).
Proof.
  intros alg [[d0 d1 d2 d3] fmt]; simpl. intros H0 H1 Hf.
  unfold GenerateWeightsShape, EffectiveWeightsShape, set_dim0, set_dim1, mod32;
    simpl.
  destruct alg; simpl; try reflexivity.
  destruct (df_eqb fmt DF_HWIM) eqn:Ef;
    [apply df_eqb_eq in Ef; exfalso; apply Hf; [reflexivity | exact Ef] |].
  f_equal.
  assert (forall d, 0 <= d <= UINT32_MAX - 2 -> (d mod 3 =? 0) = true ->
                    RoundUpToNearestMultiple d 3 = d) as Hfix
      by (intros d Hd Hm; apply RoundUpToNearestMultiple_3_fixed;
          [lia | apply Z.eqb_eq; exact Hm]).
  destruct (d0 =? 1) eqn:N0; destruct (d1 =? 1) eqn:N1;
    destruct (d0 mod 3 =? 0) eqn:M0; destruct (d1 mod 3 =? 0) eqn:M1;
    repeat (progress (simpl; rewrite ?N0, ?N1, ?M0, ?M1));
    rewrite ?(Hfix d0 H0 M0), ?(Hfix d1 H1 M1);
    reflexivity.
Qed.

Lemma GenerateWeightsShape_agrees_witness :
  GenerateWeightsShape Winograd (mkTensorInfo (mkShape 3 5 16 16) DF_HWIO)
  = Returns (EffectiveWeightsShape Winograd
               (m_Dimensions (mkTensorInfo (mkShape 3 5 16 16) DF_HWIO))).
Proof.
  apply (GenerateWeightsShape_agrees Winograd
           (mkTensorInfo (mkShape 3 5 16 16) DF_HWIO)).
  - unfold UINT32_MAX. simpl. lia.
  - unfold UINT32_MAX. simpl. lia.
  - intros _. discriminate.
Defined.

Example generate_weights_shape_depthwise_assertion :
  GenerateWeightsShape Winograd (mkTensorInfo (mkShape 3 3 16 1) DF_HWIM)
  = AssertionFailure.
Proof. reflexivity. Qed.

(** ** MCE statistics *)

Lemma mul32_comm a b : mul32 a b = mul32 b a.
Proof. unfold mul32. rewrite Z.mul_comm. reflexivity. Qed.

Lemma mul32_mul32_swap a b c : mul32 (mul32 a b) c = mul32 (mul32 a c) b.
Proof.
  unfold mul32, wrap32.
  rewrite !Z.mul_mod_idemp_l by lia. f_equal. ring.
Qed.

(** The cycle estimate of a Winograd pass charges, per Winograd output, the
    very multiplication count that the algorithm chooser compared with the
    direct one. *)
Theorem numMacsPerElemHW_is_numMultsWinograd :
  forall (caps : HardwareCapabilities) (weightsShape : TensorShape),
    numMacsPerElemHW caps (dim0 weightsShape) (dim1 weightsShape)
    = numMultsWinograd caps (dim0 weightsShape) (dim1 weightsShape).
Proof.
  intros caps [h w d2 d3]; simpl.
  unfold numMacsPerElemHW, numMultsWinograd. cbv zeta.
  destruct ((h =? 1) || (w =? 1)).
  - rewrite (mul32_comm w h). reflexivity.
  - apply mul32_mul32_swap.
Qed.

Example mce_stats_winograd_3x3 :
  GetMceStats test_caps test_engine
              (mce_with_Algorithm conv3x3 Winograd)
              (mkShape 1 16 16 16) (mkShape 1 16 16 16) (mkShape 3 3 16 16)
  = mkMceStats 128 1179648.
Proof. reflexivity. Qed.

Example mce_stats_direct_3x3 :
  GetMceStats test_caps test_engine
              (mce_with_Algorithm conv3x3 Direct)
              (mkShape 1 16 16 16) (mkShape 1 16 16 16) (mkShape 3 3 16 16)
  = mkMceStats 288 1179648.
Proof. reflexivity. Qed.

(** ** Sigmoid activation bounds *)

(** For 8-bit activation bounds and zero point and a non-negative [absMax]
    the clamped range is never empty, loses nothing in the casts to
    [uint8_t], starts no lower than the original minimum, and stays below
    the original maximum whenever zeroPoint - absMax does; a zero [absMax]
    is replaced by 1 with multiplier INT16_MAX and shift 0, any other
    leaves multiplier and shift as computed. *)
Theorem SigmoidActivationBounds_range :
  forall (activationMin activationMax inputZeroPoint absMax mult shift : Z),
    0 <= activationMin <= activationMax ->
    activationMax <= 255 ->
    0 <= inputZeroPoint <= 255 ->
    0 <= absMax <= INT_MAX - 255 ->
    let '(lo, hi, m, s) :=
      SigmoidActivationBounds activationMin activationMax inputZeroPoint
                              absMax mult shift in
    let a := if absMax =? 0 then 1 else absMax in
    lo = Z.max activationMin (inputZeroPoint - a) /\
    hi = Z.max lo (Z.min activationMax (inputZeroPoint + a)) /\
    activationMin <= lo <= hi /\ hi <= 255 /\
    (inputZeroPoint - a <= activationMax -> hi <= activationMax) /\
    (absMax = 0 -> m = INT16_MAX /\ s = 0) /\
    (absMax <> 0 -> m = mult /\ s = shift).
Proof.
  intros amin amax zp absMax mult shift Ha Hb Hz Habs.
  unfold SigmoidActivationBounds, cast_uint8, INT16_MAX.
  destruct (Z.eqb_spec absMax 0) as [-> | Hn].
  - assert (0 <= Z.max amin (zp - 1) < 256) as H1 by lia.
    assert (0 <= Z.max (Z.max amin (zp - 1)) (Z.min amax (zp + 1)) < 256)
      as H2 by lia.
    rewrite (Z.mod_small _ _ H1), (Z.mod_small _ _ H2).
    repeat split; try lia; congruence.
  - assert (0 <= Z.max amin (zp - absMax) < 256) as H1 by lia.
    assert (0 <= Z.max (Z.max amin (zp - absMax)) (Z.min amax (zp + absMax))
            < 256) as H2 by lia.
    rewrite (Z.mod_small _ _ H1), (Z.mod_small _ _ H2).
    repeat split; try lia; congruence.
Qed.

Lemma SigmoidActivationBounds_range_witness :
  let '(lo, hi, m, s) := SigmoidActivationBounds 0 255 128 0 7 3 in
  let a := if 0 =? 0 then 1 else 0 in
  lo = Z.max 0 (128 - a) /\
  hi = Z.max lo (Z.min 255 (128 + a)) /\
  0 <= lo <= hi /\ hi <= 255 /\
  (128 - a <= 255 -> hi <= 255) /\
  (0 = 0 -> m = INT16_MAX /\ s = 0) /\
  (0 <> 0 -> m = 7 /\ s = 3).
Proof.
  apply (SigmoidActivationBounds_range 0 255 128 0 7 3);
    unfold INT_MAX; lia.
Defined.

Example sigmoid_bounds_zero_absmax :
  SigmoidActivationBounds 0 255 128 0 7 3 = (127, 129, 32767, 0).
Proof. reflexivity. Qed.

(** ** The running best *)

Section BestFacts.

Context (X : Externals).
Variable g : Graph (ShapeMultiplier X).
Variable alloc : SramAllocator X.
Variable caps : HardwareCapabilities.
Variable strategies : list (IStrategy (SramAllocator X) (ShapeMultiplier X)).
Variable blocks : list BlockConfig.
Variable enableWinograd : bool.

Lemma WalkPrefix_Walk chain st st1 :
  WalkPrefix X g alloc caps strategies blocks enableWinograd chain st = Some st1 ->
  Walk X g alloc caps strategies blocks enableWinograd chain st = st1.
Proof.
  intros H.
  pose proof (Walk_app X g alloc caps strategies blocks enableWinograd
                       chain [] st st1 H) as Hw.
  rewrite app_nil_r in Hw. exact Hw.
Qed.

(** Once the record names the captured operation and the algorithm chosen
    for it, a failed selection rewrites both with the values they have and
    changes nothing else but the flag. *)
Lemma Analyse_failure_keeps_best st id d :
  mceOperation X st = Some (id, d) ->
  m_MceOperation X (res X st) = Some id ->
  m_Algorithm X (res X st) = SelectAlgorithm X caps enableWinograd d ->
  m_StrategySelected X
    (res X (Analyse X g alloc caps strategies blocks enableWinograd st))
  = false ->
  running_best X
    (res X (Analyse X g alloc caps strategies blocks enableWinograd st))
  = running_best X (res X st) /\
  m_MceOperation X
    (res X (Analyse X g alloc caps strategies blocks enableWinograd st))
  = m_MceOperation X (res X st).
Proof.
  intros Hm Hop Halg. unfold Analyse. rewrite Hm.
  destruct (ChooseAndSetupStrategy _ _ _ _ _ _ _ _ _ _ _ _ _ _)
    as [[sel tc] al].
  destruct sel.
  - destruct (DeriveOutput X tc _ d) as [f l]. simpl. discriminate.
  - simpl. intros _. unfold running_best. simpl.
    rewrite Halg, Hop. split; reflexivity.
Qed.

Lemma Walk_failures_keep_best chain st id d :
  mceOperation X st = Some (id, d) ->
  m_MceOperation X (res X st) = Some id ->
  m_Algorithm X (res X st) = SelectAlgorithm X caps enableWinograd d ->
  later_attempts_fail X g alloc caps strategies blocks enableWinograd chain st ->
  running_best X
    (res X (Walk X g alloc caps strategies blocks enableWinograd chain st))
  = running_best X (res X st) /\
  m_MceOperation X
    (res X (Walk X g alloc caps strategies blocks enableWinograd chain st))
  = m_MceOperation X (res X st) /\
  (m_StrategySelected X
     (res X (Walk X g alloc caps strategies blocks enableWinograd chain st))
   = false <->
   m_StrategySelected X (res X st) = false \/
   exists current rest st',
     chain = current :: rest /\ Admit X g st current = Some st').
Proof.
  revert st. induction chain as [| current rest IH];
    intros st Hm Hop Halg Hf; simpl.
  - split; [reflexivity |]. split; [reflexivity |]. split; [auto |].
    intros [H | (c & r & s & Hc & _)]; [exact H | discriminate].
  - simpl in Hf. destruct (Admit X g st current) as [st' |] eqn:Ha.
    + destruct Hf as [Hsel Hf].
      destruct (Admit_shape X g st current st' Ha) as (Hres & _ & _ & Hmce).
      assert (mceOperation X st' = Some (id, d)) as Hm'.
      { destruct Hmce as [-> | (Hnone & _)]; [exact Hm | congruence]. }
      pose proof (Analyse_locals X g alloc caps strategies blocks
                                 enableWinograd st') as (_ & Hm'' & _).
      destruct (Analyse_failure_keeps_best st' id d Hm') as [Hbest Hop'];
        [rewrite Hres; exact Hop | rewrite Hres; exact Halg | exact Hsel |].
      rewrite Hres in Hbest, Hop'.
      destruct (IH (Analyse X g alloc caps strategies blocks enableWinograd st'))
        as (Hbest2 & Hop2 & Hflag).
      * rewrite Hm''. exact Hm'.
      * rewrite Hop'. exact Hop.
      * unfold running_best in Hbest. injection Hbest as _ _ _ _ Hal _ _.
        rewrite Hal. exact Halg.
      * exact Hf.
      * split; [rewrite Hbest2; exact Hbest |].
        split; [rewrite Hop2; exact Hop' |].
        split; [intros _; right; eauto |].
        intros _. apply Hflag. left. exact Hsel.
    + split; [reflexivity |]. split; [reflexivity |]. split; [auto |].
      intros [H | (c & r & s & Hc & Hs)]; [exact H |].
      injection Hc as <- <-. congruence.
Qed.

End BestFacts.

(** C1 (as the code has it). When strategy selection has succeeded for the
    set admitted from [chain1] and every selection attempted afterwards
    fails, the returned result is the one the fuser returns for [chain1]
    alone in everything but the flag: it keeps that set as working nodes
    together with the allocator, tensor config, valid block configs,
    algorithm, required output format and output location recorded for it,
    and names the same MCE operation.  Only the strategy-selected flag
    reports the last attempt: it is false exactly when a later node was
    admitted. *)
Theorem FindLinearWorkingNodes_keeps_best :
  forall (X : Externals) (g : Graph (ShapeMultiplier X))
         (alloc : SramAllocator X) (caps : HardwareCapabilities)
         (strategies : list (IStrategy (SramAllocator X) (ShapeMultiplier X)))
         (blocks : list BlockConfig) (enableWinograd : bool)
         (chain1 chain2 : list NodeId) (st1 : LoopState X),
    WalkPrefix X g alloc caps strategies blocks enableWinograd chain1
               (LoopState_init X) = Some st1 ->
    m_StrategySelected X (res X st1) = true ->
    later_attempts_fail X g alloc caps strategies blocks enableWinograd
                        chain2 st1 ->
    FindLinearWorkingNodes X g chain1 alloc caps strategies blocks
                           enableWinograd
    = res X st1 /\
    m_WorkingNodes X
      (FindLinearWorkingNodes X g (chain1 ++ chain2) alloc caps strategies
                              blocks enableWinograd)
    = currentSetOfNodes X st1 /\
    running_best X
      (FindLinearWorkingNodes X g (chain1 ++ chain2) alloc caps strategies
                              blocks enableWinograd)
    = running_best X (res X st1) /\
    m_MceOperation X
      (FindLinearWorkingNodes X g (chain1 ++ chain2) alloc caps strategies
                              blocks enableWinograd)
    = m_MceOperation X (res X st1) /\
    (m_StrategySelected X
       (FindLinearWorkingNodes X g (chain1 ++ chain2) alloc caps strategies
                               blocks enableWinograd) = false <->
     exists current rest st',
       chain2 = current :: rest /\ Admit X g st1 current = Some st').
Proof.
  intros X g alloc caps strategies blocks enableWinograd chain1 chain2 st1
         Hpre Hsel Hfail.
  pose proof (WalkPrefix_Walk X g alloc caps strategies blocks enableWinograd
                chain1 _ st1 Hpre) as Hw1.
  pose proof (fuser_invariant_Walk X g alloc caps strategies blocks
                enableWinograd chain1) as (_ & Hres & Hloop & Hcap).
  rewrite Hw1 in Hres, Hloop, Hcap.
  destruct Hloop as (_ & _ & _ & I4).
  destruct (I4 Hsel) as (Hwn & _ & Hmce).
  destruct (mceOperation X st1) as [[id d] |] eqn:Em; [| congruence].
  pose proof (Hcap id d eq_refl) as Hop.
  destruct Hres as (_ & R2 & _).
  destruct (R2 id Hop) as (d' & Hd' & Halg).
  assert (d' = d) as -> by congruence.
  unfold FindLinearWorkingNodes.
  rewrite (Walk_app X g alloc caps strategies blocks enableWinograd
                    chain1 chain2 _ st1 Hpre), Hw1.
  destruct (Walk_failures_keep_best X g alloc caps strategies blocks
              enableWinograd chain2 st1 id d Em Hop Halg Hfail)
    as (Hbest & Hop2 & Hflag).
  split; [reflexivity |].
  split; [| split; [exact Hbest | split; [exact Hop2 |]]].
  - unfold running_best in Hbest. injection Hbest as H1 _ _ _ _ _ _.
    rewrite H1. exact Hwn.
  - rewrite Hflag. split; [| auto].
    intros [Hc | He]; [congruence | exact He].
Qed.

Lemma FindLinearWorkingNodes_keeps_best_witness :
  FindLinearWorkingNodes TestExternals graph_conv_ple [1%nat] [] test_caps
                         one_stripe [mkBlock 8 8] false
  = res TestExternals state_after_conv /\
  m_WorkingNodes TestExternals
    (FindLinearWorkingNodes TestExternals graph_conv_ple
       ([1%nat] ++ [2%nat]) [] test_caps one_stripe [mkBlock 8 8] false)
  = currentSetOfNodes TestExternals state_after_conv /\
  running_best TestExternals
    (FindLinearWorkingNodes TestExternals graph_conv_ple
       ([1%nat] ++ [2%nat]) [] test_caps one_stripe [mkBlock 8 8] false)
  = running_best TestExternals (res TestExternals state_after_conv) /\
  m_MceOperation TestExternals
    (FindLinearWorkingNodes TestExternals graph_conv_ple
       ([1%nat] ++ [2%nat]) [] test_caps one_stripe [mkBlock 8 8] false)
  = m_MceOperation TestExternals (res TestExternals state_after_conv) /\
  (m_StrategySelected TestExternals
     (FindLinearWorkingNodes TestExternals graph_conv_ple
        ([1%nat] ++ [2%nat]) [] test_caps one_stripe [mkBlock 8 8] false)
   = false <->
   exists current rest st',
     [2%nat] = current :: rest /\
     Admit TestExternals graph_conv_ple state_after_conv current = Some st').
Proof.
  apply (FindLinearWorkingNodes_keeps_best TestExternals graph_conv_ple []
           test_caps one_stripe [mkBlock 8 8] false [1%nat] [2%nat]
           state_after_conv).
  - reflexivity.
  - reflexivity.
  - simpl. split; [reflexivity | exact I].
Defined.

(** The run behind the flag: the algorithm and the MCE operation reported
    with the extension that failed are those reported for the convolution
    alone. *)
Example running_best_of_conv_kept :
  running_best TestExternals
    (FindLinearWorkingNodes TestExternals graph_conv_ple [1%nat; 2%nat] []
       test_caps one_stripe [mkBlock 8 8] false)
  = running_best TestExternals
      (FindLinearWorkingNodes TestExternals graph_conv_ple [1%nat] []
         test_caps one_stripe [mkBlock 8 8] false) /\
  m_Algorithm TestExternals
    (FindLinearWorkingNodes TestExternals graph_conv_ple [1%nat; 2%nat] []
       test_caps one_stripe [mkBlock 8 8] false) = Direct /\
  m_MceOperation TestExternals
    (FindLinearWorkingNodes TestExternals graph_conv_ple [1%nat; 2%nat] []
       test_caps one_stripe [mkBlock 8 8] false) = Some 1%nat.
Proof. repeat split; reflexivity. Qed.

(** ** The output rule *)

Lemma test_StrategyFc_contract : StrategyFc_contract TestExternals.
Proof.
  intros tc alloc args tc' alloc'. simpl. unfold test_StrategyFc.
  destruct (block_eqb _ _); [| discriminate].
  intros [= <- _]. reflexivity.
Qed.





(** A fully-connected run: planned as SFC, written to DRAM as NHWC. *)
Example fully_connected_output :
  StrategyFc_contract TestExternals /\
  let r := FindLinearWorkingNodes TestExternals graph_fc [1%nat] []
             test_caps [strategy_upto STRATEGY_3 64] [mkBlock 8 8] false in
  m_StrategySelected TestExternals r = true /\
  strategy (m_TensorConfig TestExternals r) = STRATEGY_FC /\
  (m_RequiredOutputFormat TestExternals r, m_OutputLocation TestExternals r)
  = (NHWC, Dram).
Proof.
  split; [exact test_StrategyFc_contract | repeat split; reflexivity].
Qed.


(** With the output stripe covering the tensor the same run follows the
    chain. *)
Example output_in_sram_follows_chain :
  let r := FindLinearWorkingNodes TestExternals graph_conv_ple [1%nat] []
             test_caps [strategy_upto STRATEGY_3 64] [mkBlock 8 8] false in
  (m_RequiredOutputFormat TestExternals r, m_OutputLocation TestExternals r)
  = (NHWCB, Sram) /\
  chained_output (m_TensorConfig TestExternals r) (graph_conv_ple 1%nat)
                 conv3x3_direct
  = (NHWCB, Sram).
Proof. repeat split; reflexivity. Qed.
